(** * kube_trim: the sampling pipeline and the recommendation report

    A shallow embedding of [kube_trim/server.py].  Python values are
    modelled as the interpreter has them: [str] as [string] (code points
    below 256), [int] as [Z], [float] as an IEEE 754 binary64 value
    ([spec_float] at precision 53), exceptions as an error monad, the two
    global data frames as lists of rows threaded through the calls, and
    the [kubectl] subprocess as an oracle.  The two numeric columns of
    the data frames are the [int64] columns pandas makes of the values
    of [int()]; values outside the range of [int64] are not part of the
    model. *)

From Stdlib Require Import ZArith List String Ascii Bool Lia SpecFloat Permutation.
Import ListNotations.

Local Open Scope string_scope.
Local Open Scope list_scope.
Local Open Scope Z_scope.

(** * The program *)

(** ** Exceptions *)

Module Py.

(** The exception classes the program can meet. *)
Inductive exn : Set :=
| ValueError            (* int() on a malformed literal *)
| OverflowError         (* int too large to convert to float *)
| ZeroDivisionError
| IndexError            (* .iloc[0] on a frame without rows *)
| CalledProcessError    (* subprocess.run(check=True), non-zero exit *)
| OSError.              (* subprocess.run cannot start the program;
                           FileNotFoundError and PermissionError are
                           among its subclasses *)

Inductive result (A : Type) : Type :=
| Ok (a : A)
| Raise (e : exn).
Arguments Ok {A} a.
Arguments Raise {A} e.

Definition bind {A B} (m : result A) (k : A -> result B) : result B :=
  match m with
  | Ok a => k a
  | Raise e => Raise e
  end.

Definition exn_eqb (a b : exn) : bool :=
  match a, b with
  | ValueError, ValueError
  | OverflowError, OverflowError
  | ZeroDivisionError, ZeroDivisionError
  | IndexError, IndexError
  | CalledProcessError, CalledProcessError
  | OSError, OSError => true
  | _, _ => false
  end.

(** [try: m  except cls: h] *)
Definition try_except {A} (m : result A) (cls : exn) (h : result A) : result A :=
  match m with
  | Ok a => Ok a
  | Raise e => if exn_eqb e cls then h else Raise e
  end.

(** [try: m  except Exception: h] *)
Definition try_except_all {A} (m : result A) (h : result A) : result A :=
  match m with
  | Ok a => Ok a
  | Raise _ => h
  end.

End Py.

Import Py.

Declare Scope py_scope.
Delimit Scope py_scope with py.
Notation "x <- m ;; k" := (bind m (fun x => k))
  (at level 61, m at next level, right associativity) : py_scope.
Local Open Scope py_scope.

(** ** Strings *)

Module Str.

(** [str.isspace] on one character, for code points below 256: TAB, LF,
    VT, FF, CR, FS, GS, RS, US, SPACE, NEL and NBSP.  The same set is
    what [str.strip], [str.split] without argument and the pattern [\s]
    use. *)
Definition isspace (c : ascii) : bool :=
  let n := nat_of_ascii c in
  ((9 <=? n) && (n <=? 13) || (28 <=? n) && (n <=? 32)
   || (n =? 133) || (n =? 160))%nat.

Definition isdigit (c : ascii) : bool :=
  let n := nat_of_ascii c in ((48 <=? n) && (n <=? 57))%nat.

Definition digit_val (c : ascii) : Z := Z.of_nat (nat_of_ascii c) - 48.

Fixpoint startswith (p s : string) : bool :=
  match p, s with
  | EmptyString, _ => true
  | String a p', String b s' => Ascii.eqb a b && startswith p' s'
  | String _ _, EmptyString => false
  end.

(** [sub in s] *)
Fixpoint contains (sub s : string) : bool :=
  startswith sub s ||
  match s with
  | EmptyString => false
  | String _ s' => contains sub s'
  end.

(** [s.replace(old, new)] for a non-empty [old]: the occurrences are taken
    from left to right and do not overlap.  [skip] counts the characters
    of an occurrence that are still to be passed over. *)
Fixpoint replace_from (old new s : string) (skip : nat) : string :=
  match s with
  | EmptyString => EmptyString
  | String c s' =>
      match skip with
      | S k => replace_from old new s' k
      | O =>
          if startswith old s
          then (new ++ replace_from old new s' (String.length old - 1))%string
          else String c (replace_from old new s' O)
      end
  end.

Definition replace (old new s : string) : string := replace_from old new s O.

Fixpoint lstrip (s : string) : string :=
  match s with
  | String c s' => if isspace c then lstrip s' else s
  | EmptyString => EmptyString
  end.

Fixpoint rstrip (s : string) : string :=
  match s with
  | EmptyString => EmptyString
  | String c s' =>
      match rstrip s' with
      | EmptyString => if isspace c then EmptyString else String c EmptyString
      | r => String c r
      end
  end.

(** [s.strip()] *)
Definition strip (s : string) : string := rstrip (lstrip s).

(** The line feed, ["\n"] in the source. *)
Definition LF : ascii := "010".

(** [s.split(sep)] for a one-character separator: every occurrence cuts,
    empty pieces are kept, and there is always at least one piece. *)
Fixpoint split_on (sep : ascii) (s : string) : list string :=
  match s with
  | EmptyString => [EmptyString]
  | String c s' =>
      if Ascii.eqb c sep then EmptyString :: split_on sep s'
      else match split_on sep s' with
           | p :: ps => String c p :: ps
           | [] => [String c EmptyString]
           end
  end.

(** [re.split(r'\s+', s)]: every maximal run of white space cuts once;
    a run at either end leaves an empty piece there.  [in_run] tells that
    the previous character was white space. *)
Fixpoint re_split_ws_from (s : string) (in_run : bool) : list string :=
  match s with
  | EmptyString => [EmptyString]
  | String c s' =>
      if isspace c then
        if in_run then re_split_ws_from s' true
        else EmptyString :: re_split_ws_from s' true
      else match re_split_ws_from s' false with
           | p :: ps => String c p :: ps
           | [] => [String c EmptyString]
           end
  end.

Definition re_split_ws (s : string) : list string := re_split_ws_from s false.

Definition nonempty (s : string) : bool :=
  match s with EmptyString => false | _ => true end.

(** [s.split()]: the pieces between runs of white space, none empty. *)
Definition split_ws (s : string) : list string :=
  filter nonempty (re_split_ws s).

(** The digits of an [int] literal after the sign: a digit first, then
    digits, each optionally preceded by a single underscore.  [acc] is
    the value read so far and [after_digit] tells that the previous
    character was a digit (so an underscore may come). *)
Fixpoint int_digits (s : string) (acc : Z) (after_digit : bool) : result Z :=
  match s with
  | EmptyString => if after_digit then Ok acc else Raise ValueError
  | String c s' =>
      if isdigit c then int_digits s' (10 * acc + digit_val c) true
      else if Ascii.eqb c "_" && after_digit then int_digits s' acc false
      else Raise ValueError
  end.

(** [int(s)] in base ten: surrounding white space is dropped, one sign is
    allowed, and anything else than a decimal literal raises ValueError.
    (The cap some interpreter versions set on the number of digits is a
    configuration of the interpreter and is not part of this model.) *)
Definition int (s : string) : result Z :=
  match strip s with
  | String c r =>
      if Ascii.eqb c "+" then int_digits r 0 false
      else if Ascii.eqb c "-" then n <- int_digits r 0 false ;; Ok (- n)
      else int_digits (String c r) 0 false
  | EmptyString => Raise ValueError
  end.

End Str.

(** ** Numbers *)

Module Num.

(** Python's [float] is the IEEE 754 binary64 format. *)
Definition prec : Z := 53.
Definition emax : Z := 1024.
Definition float : Set := spec_float.

(** [float(n)] for an [int]: rounded to the nearest double, ties to even;
    OverflowError when the nearest double would be infinite. *)
Definition float_of_int (n : Z) : result float :=
  match binary_normalize prec emax n 0 false with
  | S754_infinity _ => Raise OverflowError
  | x => Ok x
  end.

(** The literal [0.9]: the double nearest to 9/10. *)
Definition lit_0_9 : float := S754_finite false 8106479329266893 (-53).

(** A number as Python has it at run time: an [int] or a [float].  The
    cells of the two numeric columns are [int]s, as [int()] made them. *)
Inductive num : Set :=
| Int (n : Z)
| Float (x : float).

Definition to_float (a : num) : result float :=
  match a with
  | Int n => float_of_int n
  | Float x => Ok x
  end.

Definition is_zero (x : float) : bool :=
  match x with S754_zero _ => true | _ => false end.

(** [a / b]: an [int] operand is converted first and the division is the
    one of binary64; a zero divisor raises.  For two [int]s this is the
    correctly rounded quotient Python returns whenever both are below
    2^53 in magnitude and whenever the divisor is 1. *)
Definition truediv (a b : num) : result num :=
  x <- to_float a ;;
  y <- to_float b ;;
  if is_zero y then Raise ZeroDivisionError
  else Ok (Float (SFdiv prec emax x y)).

(** [a * b] *)
Definition mul (a b : num) : result num :=
  match a, b with
  | Int m, Int n => Ok (Int (m * n))
  | _, _ =>
      x <- to_float a ;;
      y <- to_float b ;;
      Ok (Float (SFmul prec emax x y))
  end.

(** [a > 0] *)
Definition gt0 (a : num) : bool :=
  match a with
  | Int n => 0 <? n
  | Float x => SFltb (S754_zero false) x
  end.

(** [Series.max()] and [Series.min()] of a column of [int]s that is not
    empty. *)
Definition max_of (x : Z) (xs : list Z) : Z := fold_left Z.max xs x.
Definition min_of (x : Z) (xs : list Z) : Z := fold_left Z.min xs x.

(** *** The mean of a column

    [Series.mean()] on an [int64] column is [nanops.nanmean]: the sum is
    [values.sum(dtype=float64)], that is [np.add.reduce] with a cast, and
    the count is [np.float64(values.size)].  No step of it raises. *)

(** The cast of an [int64] to [float64], which is also [np.float64(n)]:
    rounded to the nearest double, ties to even. *)
Definition float64 (n : Z) : float := binary_normalize prec emax n 0 false.

(** [x + y] on doubles. *)
Definition add (x y : float) : float := SFadd prec emax x y.

(** The literal [-0.0], which an empty sum starts from. *)
Definition neg_zero : float := S754_zero true.

(** The eight accumulators [r[0]], ..., [r[7]] of numpy's
    [pairwise_sum]. *)
Definition lanes : Set :=
  (float * float * float * float * float * float * float * float)%type.

(** The unrolled loop of [pairwise_sum]: as long as eight values are
    left, [r[j] += a[i + j]] for each [j]; what it returns with the
    accumulators is the rest of fewer than eight values. *)
Fixpoint pairwise_block (r : lanes) (a : list float) : lanes * list float :=
  match a with
  | a0 :: a1 :: a2 :: a3 :: a4 :: a5 :: a6 :: a7 :: a' =>
      let '(r0, r1, r2, r3, r4, r5, r6, r7) := r in
      pairwise_block (add r0 a0, add r1 a1, add r2 a2, add r3 a3,
                      add r4 a4, add r5 a5, add r6 a6, add r7 a7) a'
  | _ => (r, a)
  end.

(** A block of 8 to 128 values: the accumulators start as the first
    eight values [r], the loop runs over the others [a], the
    accumulators are added up in pairs, and the rest is added one by
    one. *)
Definition block_sum (r : lanes) (a : list float) : float :=
  let '(r, rest) := pairwise_block r a in
  let '(r0, r1, r2, r3, r4, r5, r6, r7) := r in
  fold_left add rest
    (add (add (add r0 r1) (add r2 r3)) (add (add r4 r5) (add r6 r7))).

Definition PW_BLOCKSIZE : nat := 128.

(** numpy's [pairwise_sum(a, n)]: fewer than eight values are added one
    by one, starting from [-0.0]; up to [PW_BLOCKSIZE] values make one
    block; more are cut in two, the first part of [n / 2] values less
    the remainder of that by eight, and the sums of the parts are
    added.  [depth] bounds the number of nested cuts; the length of [a]
    is more than is ever needed. *)
Fixpoint pairwise_sum_rec (depth : nat) (a : list float) : float :=
  match a with
  | a0 :: a1 :: a2 :: a3 :: a4 :: a5 :: a6 :: a7 :: a' =>
      let n := List.length a in
      match depth with
      | S depth' =>
          if (n <=? PW_BLOCKSIZE)%nat
          then block_sum (a0, a1, a2, a3, a4, a5, a6, a7) a'
          else
            let n2 := (n / 2 - (n / 2) mod 8)%nat in
            add (pairwise_sum_rec depth' (firstn n2 a))
                (pairwise_sum_rec depth' (skipn n2 a))
      | O => block_sum (a0, a1, a2, a3, a4, a5, a6, a7) a'
      end
  | _ => fold_left add a neg_zero
  end.

Definition pairwise_sum (a : list float) : float :=
  pairwise_sum_rec (List.length a) a.

(** The number of values numpy casts at a time. *)
Definition NPY_BUFSIZE : nat := Z.to_nat 8192.

(** [np.add.reduce(values, dtype=float64)] on an [int64] array, here
    given already cast: the values go through a buffer of [NPY_BUFSIZE]
    doubles, and each time the buffer is full, and at the end, its
    pairwise sum is added to the result [io1].  [buffer] holds the
    values cast so far, the last one first, and [room] the number of
    places left in it. *)
Fixpoint add_reduce_from (a : list float) (buffer : list float) (room : nat)
    (io1 : float) : float :=
  match a with
  | [] =>
      match buffer with
      | [] => io1
      | _ => add io1 (pairwise_sum (rev buffer))
      end
  | x :: a' =>
      match room with
      | S room' => add_reduce_from a' (x :: buffer) room' io1
      | O => add_reduce_from a' [x] (NPY_BUFSIZE - 1)
               (add io1 (pairwise_sum (rev buffer)))
      end
  end.

(** The result starts as [0.0], the identity of the reduction. *)
Definition add_reduce (a : list float) : float :=
  add_reduce_from a [] NPY_BUFSIZE (S754_zero false).

(** [Series.mean()]: [the_sum / count if count > 0 else np.nan]. *)
Definition mean (xs : list Z) : float :=
  let count := float64 (Z.of_nat (List.length xs)) in
  let the_sum := add_reduce (map float64 xs) in
  if SFltb (S754_zero false) count then SFdiv prec emax the_sum count
  else S754_nan.

End Num.

(** ** The cluster query interface *)

Module Kubectl.

(** The four commands the program runs. *)
Inductive query : Set :=
| TopNodes                              (* kubectl top nodes *)
| TopPods                               (* kubectl top pods --all-namespaces *)
| GetMemoryRequest (pod namespace : string)
    (* kubectl get pod P -n N
         -o jsonpath={.spec.containers[*].resources.requests.memory} *)
| GetImage (pod namespace : string).
    (* kubectl get pod P -n N -o jsonpath={.spec.containers[*].image} *)

(** How a call of [subprocess.run] ends: the command exits with status
    zero and its standard output is returned, the command exits with a
    non-zero status, or the call itself raises, as it does with OSError
    when [kubectl] cannot be started. *)
Inductive completed : Set :=
| Exit0 (stdout : string)
| ExitNonZero
| Raises (e : exn).

(** The cluster as the program sees it at one moment. *)
Definition cluster : Type := query -> completed.

(** [subprocess.run(cmd, capture_output=True, text=True, check=True).stdout] *)
Definition run (k : cluster) (q : query) : result string :=
  match k q with
  | Exit0 out => Ok out
  | ExitNonZero => Raise CalledProcessError
  | Raises e => Raise e
  end.

End Kubectl.

Import Kubectl.

(** ** Loops *)

(** [for x in xs: body], the loop's variables threaded through as [s]. *)
Fixpoint for_each {A S : Type} (xs : list A) (body : A -> S -> result S) (s : S)
  : result S :=
  match xs with
  | [] => Ok s
  | x :: xs' => s' <- body x s ;; for_each xs' body s'
  end.

(** ** The time-series store *)

Record NodeSample : Set := mkNodeSample {
  node_timestamp : Num.float;
  node : string;
  node_cpu_cores : Z;          (* column "cpu(cores)" *)
  node_memory_bytes : Z        (* column "memory(bytes)" *)
}.

Record PodSample : Set := mkPodSample {
  timestamp : Num.float;
  pod : string;
  namespace : string;
  cpu_cores : Z;               (* column "cpu(cores)" *)
  memory_bytes : Z;            (* column "memory(bytes)" *)
  image : string
}.

(** The two global data frames. *)
Record store : Set := mkStore {
  node_metrics_df : list NodeSample;
  pod_metrics_df : list PodSample
}.

(** ** Resource lookups *)

(** [lookup_allocated_memory(namespace, pod)] *)
Definition lookup_allocated_memory (k : cluster) (namespace pod : string) : result Z :=
  try_except
    (stdout <- run k (GetMemoryRequest pod namespace) ;;
     let allocated_memory := Str.strip stdout in
     if negb (Str.nonempty allocated_memory) then Ok 0
     else
       let allocated_memory_list := Str.split_ws allocated_memory in
       let allocated_memory :=
         match allocated_memory_list with
         | first :: _ => first
         | [] => "0"
         end in
       if Str.contains "Mi" allocated_memory then
         Str.int (Str.replace "Mi" "" allocated_memory)
       else if Str.contains "Gi" allocated_memory then
         n <- Str.int (Str.replace "Gi" "" allocated_memory) ;; Ok (n * 1024)
       else if Str.contains "Ki" allocated_memory then
         n <- Str.int (Str.replace "Ki" "" allocated_memory) ;; Ok (n / 1024)
       else
         Str.int allocated_memory)
    CalledProcessError
    (Ok 0).

(** [lookup_pod_image(namespace, pod)] *)
Definition lookup_pod_image (k : cluster) (namespace pod : string) : result string :=
  try_except
    (stdout <- run k (GetImage pod namespace) ;;
     Ok (Str.strip stdout))
    CalledProcessError
    (Ok "unknown").

(** ** The sampler *)

(** [collect_node_metrics()] *)
Definition collect_node_metrics (k : cluster) : result string :=
  try_except (run k TopNodes) CalledProcessError (Ok "").

(** [collect_pod_metrics()] *)
Definition collect_pod_metrics (k : cluster) : result string :=
  try_except (run k TopPods) CalledProcessError (Ok "").

(** The CPU expression of [parse_node_metrics] (line 132). *)
Definition node_cpu (cpu : string) : result Z :=
  if Str.contains "m" cpu
  then Str.int (Str.replace "%" "" (Str.replace "m" "" cpu))
  else Str.int (Str.replace "%" "" cpu).

(** The memory expression of [parse_node_metrics] (line 133). *)
Definition node_memory (memory : string) : result Z :=
  if Str.contains "Mi" memory then
    n <- Str.int (Str.replace "Mi" "" memory) ;; Ok (n * 1024)
  else if Str.contains "Gi" memory then
    n <- Str.int (Str.replace "Gi" "" memory) ;; Ok (n * 1024 * 1024)
  else if Str.contains "Ki" memory then
    Str.int (Str.replace "Ki" "" memory)
  else
    Str.int (Str.replace "%" "" memory).

(** The body of the loop of [parse_node_metrics]; the pattern is the test
    [len(parts) >= 3] together with the three subscripts. *)
Definition parse_node_line (timestamp : Num.float) (line : string)
    (parsed_data : list NodeSample) : result (list NodeSample) :=
  match Str.re_split_ws line with
  | node :: cpu :: memory :: _ =>
      cpu <- node_cpu cpu ;;
      memory <- node_memory memory ;;
      Ok (parsed_data ++ [mkNodeSample timestamp node cpu memory])
  | _ => Ok parsed_data
  end.

(** [parse_node_metrics(output, timestamp)]: the new value of the global
    [node_metrics_df], which is assigned only when the loop has ended. *)
Definition parse_node_metrics (output : string) (timestamp : Num.float)
    (node_metrics_df : list NodeSample) : result (list NodeSample) :=
  let lines := Str.split_on Str.LF (Str.strip output) in
  parsed_data <- for_each (tl lines) (parse_node_line timestamp) [] ;;
  Ok (node_metrics_df ++ parsed_data).

(** The CPU expression of [process_pod_metrics] (line 160). *)
Definition pod_cpu (cpu : string) : result Z :=
  if Str.contains "m" cpu
  then Str.int (Str.replace "%" "" (Str.replace "m" "" cpu))
  else Str.int (Str.replace "%" "" cpu).

(** The memory expression of [process_pod_metrics] (line 161). *)
Definition pod_memory (memory : string) : result Z :=
  if Str.contains "Mi" memory then
    Str.int (Str.replace "Mi" "" memory)
  else if Str.contains "Gi" memory then
    n <- Str.int (Str.replace "Gi" "" memory) ;; Ok (n * 1024)
  else if Str.contains "Ki" memory then
    n <- Str.int (Str.replace "Ki" "" memory) ;; Ok (n / 1024)
  else
    Str.int (Str.replace "%" "" memory).

(** [process_pod_metrics(timestamp, namespace, pod, cpu, memory)]: a row,
    or [None] when anything in the body raised. *)
Definition process_pod_metrics (k : cluster) (timestamp : Num.float)
    (namespace pod cpu memory : string) : result (option PodSample) :=
  try_except_all
    (cpu <- pod_cpu cpu ;;
     memory <- pod_memory memory ;;
     image <- lookup_pod_image k namespace pod ;;
     Ok (Some (mkPodSample timestamp pod namespace cpu memory image)))
    (Ok None).

(** The first loop of [parse_pod_metrics]: one submitted call per line of
    at least five parts.  A future is modelled by the outcome of its
    call. *)
Definition submit_pod_line (k : cluster) (timestamp : Num.float) (line : string)
    (futures : list (result (option PodSample)))
  : result (list (result (option PodSample))) :=
  match Str.re_split_ws line with
  | namespace :: pod :: cpu :: memory :: _ :: _ =>
      Ok (futures ++ [process_pod_metrics k timestamp namespace pod cpu memory])
  | _ => Ok futures
  end.

(** The second loop: [future.result()] returns the call's value or raises
    what the call raised; a row is kept when it is not [None]. *)
Definition gather_future (future : result (option PodSample))
    (parsed_data : list PodSample) : result (list PodSample) :=
  r <- future ;;
  match r with
  | Some row => Ok (parsed_data ++ [row])
  | None => Ok parsed_data
  end.

(** [parse_pod_metrics(output, timestamp)]: the new value of the global
    [pod_metrics_df]. *)
Definition parse_pod_metrics (k : cluster) (output : string) (timestamp : Num.float)
    (pod_metrics_df : list PodSample) : result (list PodSample) :=
  let lines := Str.split_on Str.LF (Str.strip output) in
  futures <- for_each (tl lines) (submit_pod_line k timestamp) [] ;;
  parsed_data <- for_each futures gather_future [] ;;
  Ok (pod_metrics_df ++ parsed_data).

(** What one turn of the loop observes: the clock and the cluster. *)
Record tick : Type := mkTick {
  now : Num.float;             (* time.time() *)
  kube : cluster
}.

(** The body of [while True] in [collect_metrics]: the store it leaves,
    and the exception that escapes it, if any.  The two fetches run in
    worker threads; [node_future.result()] is asked first and raises
    what its call raised, then [pod_future.result()]. *)
Definition cycle (t : tick) (st : store) : store * option exn :=
  match
    node_output <- collect_node_metrics (kube t) ;;
    pod_output <- collect_pod_metrics (kube t) ;;
    Ok (node_output, pod_output)
  with
  | Raise e => (st, Some e)
  | Ok (node_output, pod_output) =>
      match
        (if Str.nonempty node_output
         then parse_node_metrics node_output (now t) (node_metrics_df st)
         else Ok (node_metrics_df st))
      with
      | Raise e => (st, Some e)
      | Ok nodes =>
          let st1 := mkStore nodes (pod_metrics_df st) in
          match
            (if Str.nonempty pod_output
             then parse_pod_metrics (kube t) pod_output (now t) (pod_metrics_df st1)
             else Ok (pod_metrics_df st1))
          with
          | Raise e => (st1, Some e)
          | Ok pods => (mkStore nodes pods, None)
          end
      end
  end.

(** [collect_metrics()] over the turns the clock and the cluster allow:
    the loop goes on until an exception escapes a turn, which ends the
    collector thread.  The result is the store left behind and that
    exception, or [None] when every turn given was completed. *)
Fixpoint collect_metrics (ticks : list tick) (st : store) : store * option exn :=
  match ticks with
  | [] => (st, None)
  | t :: ticks' =>
      match cycle t st with
      | (st', None) => collect_metrics ticks' st'
      | (st', Some e) => (st', Some e)
      end
  end.

(** ** The recommendation report *)

(** [Series.unique()]: the distinct values in the order in which each
    first appears; [seen] holds the values met so far. *)
Fixpoint unique_from (seen xs : list string) : list string :=
  match xs with
  | [] => []
  | x :: xs' =>
      if existsb (String.eqb x) seen then unique_from seen xs'
      else x :: unique_from (x :: seen) xs'
  end.

Definition unique (xs : list string) : list string := unique_from [] xs.

(** [pod_metrics_df[pod_metrics_df["image"] == image]] *)
Definition select_image (pod_metrics_df : list PodSample) (img : string)
  : list PodSample :=
  filter (fun row => String.eqb (image row) img) pod_metrics_df.

(** One entry of the report, with the keys of the JSON object. *)
Record Recommendation : Set := mkRecommendation {
  r_image : string;                    (* "image" *)
  avg_cpu : Num.float;                 (* "avg_cpu(mCores)" *)
  max_cpu : Z;                         (* "max_cpu(mCores)" *)
  avg_memory : Num.float;              (* "avg_memory(Mi)" *)
  max_memory : Z;                      (* "max_memory(Mi)" *)
  requested_cpu : Z;                   (* "requested_cpu(mCores)" *)
  requested_memory : Z;                (* "requested_memory(Mi)" *)
  recommended_cpu : Num.num;           (* "recommended_cpu(mCores)" *)
  recommended_memory : Num.num;        (* "recommended_memory(Mi)" *)
  cpu_over_provisioned : Num.num;      (* "cpu_over_provisioned" *)
  memory_over_provisioned : Num.num    (* "memory_over_provisioned" *)
}.

(** The body of the loop of [get_report].  A group selected by an image
    of the table has a first row; without one [.iloc[0]] would raise. *)
Definition report_image (k : cluster) (pod_metrics_df : list PodSample)
    (image : string) (report : list Recommendation) : result (list Recommendation) :=
  let image_data := select_image pod_metrics_df image in
  match image_data with
  | [] => Raise IndexError
  | first :: rest =>
      let avg_cpu := Num.mean (map cpu_cores image_data) in
      let max_cpu := Num.max_of (cpu_cores first) (map cpu_cores rest) in
      let avg_memory := Num.mean (map memory_bytes image_data) in
      let max_memory := Num.max_of (memory_bytes first) (map memory_bytes rest) in
      allocated_memory <- lookup_allocated_memory k (namespace first) (pod first) ;;
      recommended_cpu <-
        (if Num.gt0 (Num.Float avg_cpu)
         then Num.truediv (Num.Float avg_cpu) (Num.Float Num.lit_0_9)
         else Ok (Num.Int 1)) ;;
      recommended_memory <-
        (if Num.gt0 (Num.Int max_memory)
         then Num.truediv (Num.Int max_memory) (Num.Float Num.lit_0_9)
         else Ok (Num.Int 1)) ;;
      cpu_over_provisioned <-
        (if Num.gt0 recommended_cpu
         then Num.truediv (Num.Int max_cpu) recommended_cpu
         else Ok (Num.Int 0)) ;;
      memory_over_provisioned <-
        (if Num.gt0 recommended_memory
         then Num.truediv (Num.Int allocated_memory) recommended_memory
         else Ok (Num.Int 0)) ;;
      Ok (report ++
          [mkRecommendation image avg_cpu max_cpu avg_memory max_memory
             max_cpu allocated_memory recommended_cpu recommended_memory
             cpu_over_provisioned memory_over_provisioned])
  end.

(** What the route returns: the report handed to [jsonify], or the text
    of the exception that was caught.  (How the records are written out
    as JSON belongs to the HTTP layer and is not modelled.) *)
Inductive response : Set :=
| Json (report : list Recommendation)
| Text (e : exn).

(** [get_report()], reading the global [pod_metrics_df]. *)
Definition get_report (k : cluster) (pod_metrics_df : list PodSample) : response :=
  match
    (if negb (match pod_metrics_df with [] => true | _ => false end)
     then for_each (unique (map image pod_metrics_df))
                   (report_image k pod_metrics_df) []
     else Ok [])
  with
  | Ok report => Json report
  | Raise e => Text e
  end.

(** ** The shutdown summary *)

(** What [summarize_metrics] prints for one node. *)
Record NodeSummary : Set := mkNodeSummary {
  s_node : string;
  cpu_min : Z; cpu_max : Z; cpu_avg : Num.float;
  mem_min : Z; mem_max : Z; mem_avg : Num.float
}.

(** What it prints for one image: the two maxima, the recommended CPU
    request when [max_cpu > 0], and the memory utilization with the
    recommended memory request when [max_memory > 0]. *)
Record ImageSummary : Set := mkImageSummary {
  s_image : string;
  s_max_cpu : Z;
  s_max_memory : Z;
  s_recommended_cpu : option Num.num;
  s_memory : option (Num.num * Num.num)
}.

Definition select_node (node_metrics_df : list NodeSample) (n : string)
  : list NodeSample :=
  filter (fun row => String.eqb (node row) n) node_metrics_df.

(** The body of the loop over the nodes. *)
Definition summarize_node (node_metrics_df : list NodeSample) (n : string)
    (printed : list NodeSummary) : result (list NodeSummary) :=
  let node_data := select_node node_metrics_df n in
  match node_data with
  | [] => Raise IndexError
  | first :: rest =>
      let cpus := map node_cpu_cores rest in
      let mems := map node_memory_bytes rest in
      let cpu_avg := Num.mean (map node_cpu_cores node_data) in
      let mem_avg := Num.mean (map node_memory_bytes node_data) in
      Ok (printed ++
          [mkNodeSummary n
             (Num.min_of (node_cpu_cores first) cpus)
             (Num.max_of (node_cpu_cores first) cpus) cpu_avg
             (Num.min_of (node_memory_bytes first) mems)
             (Num.max_of (node_memory_bytes first) mems) mem_avg])
  end.

(** The body of the loop over the images. *)
Definition summarize_image (k : cluster) (pod_metrics_df : list PodSample)
    (image : string) (printed : list ImageSummary) : result (list ImageSummary) :=
  let image_data := select_image pod_metrics_df image in
  match image_data with
  | [] => Raise IndexError
  | first :: rest =>
      let max_cpu := Num.max_of (cpu_cores first) (map cpu_cores rest) in
      let max_memory := Num.max_of (memory_bytes first) (map memory_bytes rest) in
      recommended_cpu <-
        (if 0 <? max_cpu
         then r <- Num.truediv (Num.Int max_cpu) (Num.Float Num.lit_0_9) ;; Ok (Some r)
         else Ok None) ;;
      memory <-
        (if 0 <? max_memory
         then
           allocated_memory <- lookup_allocated_memory k (namespace first) (pod first) ;;
           memory_utilization <-
             (if 0 <? allocated_memory
              then q <- Num.truediv (Num.Int max_memory) (Num.Int allocated_memory) ;;
                   Num.mul q (Num.Int 100)
              else Ok (Num.Int 0)) ;;
           recommended_memory <-
             (if 0 <? allocated_memory
              then Num.mul (Num.Int allocated_memory) (Num.Float Num.lit_0_9)
              else Num.truediv (Num.Int max_memory) (Num.Float Num.lit_0_9)) ;;
           Ok (Some (memory_utilization, recommended_memory))
         else Ok None) ;;
      Ok (printed ++ [mkImageSummary image max_cpu max_memory recommended_cpu memory])
  end.

(** [summarize_metrics()]: [None] stands for "No metrics collected." *)
Definition summarize_metrics (k : cluster) (st : store)
  : result (option (list NodeSummary * list ImageSummary)) :=
  match node_metrics_df st, pod_metrics_df st with
  | [], [] => Ok None
  | _, _ =>
      nodes <-
        (match node_metrics_df st with
         | [] => Ok []
         | _ => for_each (unique (map node (node_metrics_df st)))
                         (summarize_node (node_metrics_df st)) []
         end) ;;
      images <-
        (match pod_metrics_df st with
         | [] => Ok []
         | _ => for_each (unique (map image (pod_metrics_df st)))
                         (summarize_image k (pod_metrics_df st)) []
         end) ;;
      Ok (Some (nodes, images))
  end.

(** ** Vocabulary of the specification *)

Module Spec.

(** [c] does not occur in [s]. *)
Fixpoint absent (c : ascii) (s : string) : bool :=
  match s with
  | EmptyString => true
  | String a s' => negb (Ascii.eqb a c) && absent c s'
  end.

Fixpoint all_digits (s : string) : bool :=
  match s with
  | EmptyString => true
  | String c s' => Str.isdigit c && all_digits s'
  end.

(** A numeric prefix: one decimal digit or more. *)
Definition is_decimal (s : string) : bool := Str.nonempty s && all_digits s.

(** The number a string of decimal digits denotes, by the weight of each
    position. *)
Fixpoint decimal_value (s : string) : Z :=
  match s with
  | EmptyString => 0
  | String c s' => Str.digit_val c * 10 ^ Z.of_nat (String.length s') + decimal_value s'
  end.

(** A token: not empty and without white space. *)
Fixpoint no_space (s : string) : bool :=
  match s with
  | EmptyString => true
  | String c s' => negb (Str.isspace c) && no_space s'
  end.

Definition is_token (s : string) : bool := Str.nonempty s && no_space s.

(** [t] is the first token of the output [out] of a command: [out] is
    [t], or [t] followed by white space and anything. *)
Definition first_token (out t : string) : Prop :=
  is_token t = true
  /\ (out = t \/ exists w s, Str.isspace w = true /\ out = (t ++ String w s)%string).

(** What the requested-memory lookup makes of the token it has picked:
    the conversion at the end of [lookup_allocated_memory]. *)
Definition memory_request_value (token : string) : result Z :=
  if Str.contains "Mi" token then
    Str.int (Str.replace "Mi" "" token)
  else if Str.contains "Gi" token then
    n <- Str.int (Str.replace "Gi" "" token) ;; Ok (n * 1024)
  else if Str.contains "Ki" token then
    n <- Str.int (Str.replace "Ki" "" token) ;; Ok (n / 1024)
  else
    Str.int token.

(** The binary units of a memory quantity and the bytes they stand for. *)
Inductive unit : Set := Ki | Mi | Gi.

Definition suffix (u : unit) : string :=
  match u with Ki => "Ki" | Mi => "Mi" | Gi => "Gi" end.

Definition bytes (u : unit) (n : Z) : Z :=
  match u with
  | Ki => n * 1024
  | Mi => n * (1024 * 1024)
  | Gi => n * (1024 * 1024 * 1024)
  end.

Definition kibibytes (b : Z) : Z := b / 1024.
Definition mebibytes (b : Z) : Z := b / (1024 * 1024).

(** The calls one line of the pod usage text submits. *)
Definition submitted (k : cluster) (ts : Num.float) (line : string)
  : list (result (option PodSample)) :=
  match Str.re_split_ws line with
  | namespace :: pod :: cpu :: memory :: _ :: _ =>
      [process_pod_metrics k ts namespace pod cpu memory]
  | _ => []
  end.

(** The rows one line of the pod usage text contributes to the table:
    the row of its call to [process_pod_metrics] when the line has at
    least five parts and the call returns a row, and none otherwise. *)
Definition pod_line_rows (k : cluster) (ts : Num.float) (line : string)
  : list PodSample :=
  match Str.re_split_ws line with
  | namespace :: pod :: cpu :: memory :: _ :: _ =>
      match process_pod_metrics k ts namespace pod cpu memory with
      | Ok (Some row) => [row]
      | _ => []
      end
  | _ => []
  end.

(** The lines of a usage text after its header. *)
Definition data_lines (output : string) : list string :=
  tl (Str.split_on Str.LF (Str.strip output)).

(** [m] is the greatest element of the non-empty column [xs]. *)
Definition is_max (m : Z) (xs : list Z) : Prop :=
  In m xs /\ Forall (fun x => x <= m) xs.


(** The record [r] is what the body of the loop of [get_report] makes of
    the samples [group] of an image, in the operations of the program. *)
Definition follows_formulas (k : cluster) (group : list PodSample)
    (r : Recommendation) : Prop :=
  Num.mean (map cpu_cores group) = avg_cpu r
  /\ is_max (max_cpu r) (map cpu_cores group)
  /\ Num.mean (map memory_bytes group) = avg_memory r
  /\ is_max (max_memory r) (map memory_bytes group)
  /\ (exists first rest,
        group = first :: rest
        /\ lookup_allocated_memory k (namespace first) (pod first)
           = Ok (requested_memory r))
  /\ (if Num.gt0 (Num.Float (avg_cpu r))
      then Num.truediv (Num.Float (avg_cpu r)) (Num.Float Num.lit_0_9)
      else Ok (Num.Int 1)) = Ok (recommended_cpu r)
  /\ (if Num.gt0 (Num.Int (max_memory r))
      then Num.truediv (Num.Int (max_memory r)) (Num.Float Num.lit_0_9)
      else Ok (Num.Int 1)) = Ok (recommended_memory r)
  /\ (if Num.gt0 (recommended_cpu r)
      then Num.truediv (Num.Int (max_cpu r)) (recommended_cpu r)
      else Ok (Num.Int 0)) = Ok (cpu_over_provisioned r)
  /\ (if Num.gt0 (recommended_memory r)
      then Num.truediv (Num.Int (requested_memory r)) (recommended_memory r)
      else Ok (Num.Int 0)) = Ok (memory_over_provisioned r).

(** *** The report in the words of the specification

    The groups, the means and the quotients are defined here on their
    own, from the arithmetic of binary64, not from the functions of the
    program. *)

(** The samples of the table that have the image [img], in the order of
    the table. *)
Fixpoint samples_of (img : string) (table : list PodSample) : list PodSample :=
  match table with
  | [] => []
  | row :: table' =>
      if string_dec (image row) img then row :: samples_of img table'
      else samples_of img table'
  end.

(** The distinct values of a list, each at the place where it first
    appears. *)
Fixpoint distinct (xs : list string) : list string :=
  match xs with
  | [] => []
  | x :: xs' => x :: remove string_dec x (distinct xs')
  end.

(** The sum of a column, and the sum of the magnitudes of its values. *)
Fixpoint total (xs : list Z) : Z :=
  match xs with
  | [] => 0
  | x :: xs' => x + total xs'
  end.

Fixpoint abs_total (xs : list Z) : Z :=
  match xs with
  | [] => 0
  | x :: xs' => Z.abs x + abs_total xs'
  end.

(** The double nearest to the integer [n], ties to even. *)
Definition binary64 (n : Z) : Num.float := binary_normalize 53 1024 n 0 false.

(** The quotient of two doubles, correctly rounded. *)
Definition quotient (x y : Num.float) : Num.float := SFdiv 53 1024 x y.

(** The double nearest to 9/10. *)
Definition nine_tenths : Num.float := quotient (binary64 9) (binary64 10).

(** [0 < x] on doubles. *)
Definition positive (x : Num.float) : bool := SFltb (S754_zero false) x.

(** The mean of a column: its sum over the number of its rows. *)
Definition mean (xs : list Z) : Num.float :=
  quotient (binary64 (total xs)) (binary64 (Z.of_nat (List.length xs))).






(** The entry [s] of the shutdown summary follows the formulas of
    [summarize_metrics] for the samples [group] of its image. *)
Definition summary_formulas (k : cluster) (group : list PodSample)
    (s : ImageSummary) : Prop :=
  is_max (s_max_cpu s) (map cpu_cores group)
  /\ is_max (s_max_memory s) (map memory_bytes group)
  /\ (if 0 <? s_max_cpu s
      then exists x,
             Num.truediv (Num.Int (s_max_cpu s)) (Num.Float Num.lit_0_9) = Ok x
             /\ s_recommended_cpu s = Some x
      else s_recommended_cpu s = None)
  /\ (if 0 <? s_max_memory s
      then exists first rest alloc utilization rec,
             group = first :: rest
             /\ lookup_allocated_memory k (namespace first) (pod first) = Ok alloc
             /\ s_memory s = Some (utilization, rec)
             /\ (if 0 <? alloc
                 then Num.mul (Num.Int alloc) (Num.Float Num.lit_0_9)
                 else Num.truediv (Num.Int (s_max_memory s)) (Num.Float Num.lit_0_9))
                = Ok rec
      else s_memory s = None).

End Spec.

(** ** Sample data *)

Module Sample.

Definition t0 : Num.float := S754_zero false.

(** A cluster where every command exits with a non-zero status. *)
Definition unreachable : cluster := fun _ => ExitNonZero.

(** A pod with two containers. *)
Definition two_containers : cluster := fun q =>
  match q with
  | GetImage _ _ => Exit0 "nginx:1.0 sidecar:2.0"
  | GetMemoryRequest _ _ => Exit0 "1Gi 64Mi"
  | _ => ExitNonZero
  end.

(** A pod that declares no memory request. *)
Definition no_request : cluster := fun q =>
  match q with
  | GetImage _ _ => Exit0 "nginx:1.0"
  | GetMemoryRequest _ _ => Exit0 ""
  | _ => ExitNonZero
  end.

(** Node usage with a row whose CPU token has no digits.  The third part
    of a row, which the node path reads as the memory, is the CPU%
    column of [kubectl top nodes]. *)
Definition node_text_abc : string :=
  "NAME CPU(cores) CPU% MEMORY(bytes) MEMORY%
node1 250m 12% 1024Mi 50%
node2 abc 3% 2048Mi 25%
node3 100m 5% 512Mi 10%".

(** Node usage as printed while the metrics of a node are missing. *)
Definition node_text_unknown : string :=
  "NAME    CPU(cores)   CPU%        MEMORY(bytes)   MEMORY%
node1   250m         12%         1024Mi          50%
node2   <unknown>    <unknown>   <unknown>       <unknown>
".

Definition node_text_good : string :=
  "NAME    CPU(cores)   CPU%        MEMORY(bytes)   MEMORY%
node1   250m         12%         1024Mi          50%
".

(** Pod usage with a row whose CPU token has no digits.  A row has four
    columns and, as printed, ends in padding, which makes the fifth part
    the pod path asks for; [strip] takes the padding of the last row
    away. *)
Definition pod_text_abc : string :=
  ("NAMESPACE NAME CPU(cores) MEMORY(bytes)   " ++ "
default web-1 250m 64Mi   " ++ "
default web-2 abc 64Mi   " ++ "
default web-3 100m 2048Ki   " ++ "
kube-system dns-1 3m 1Gi   " ++ "
")%string.

Definition serving (node_text pod_text : string) : cluster := fun q =>
  match q with
  | TopNodes => Exit0 node_text
  | TopPods => Exit0 pod_text
  | GetImage _ _ => Exit0 "nginx:1.0"
  | GetMemoryRequest _ _ => Exit0 "600Mi"
  end.

Definition empty_store : store := mkStore [] [].

(** Three samples of one image: CPU 100, 200 and 300, memory up to 500,
    and 600 Mi requested. *)
Definition nginx_table : list PodSample :=
  [mkPodSample t0 "web-1" "default" 100 400 "nginx:1.0";
   mkPodSample t0 "web-2" "default" 200 500 "nginx:1.0";
   mkPodSample t0 "web-1" "default" 300 450 "nginx:1.0"].

Definition nginx_cluster : cluster := serving "" "".

(** A machine on which [kubectl] is not installed: every call of
    [subprocess.run] raises FileNotFoundError, an OSError. *)
Definition not_installed : cluster := fun _ => Raises OSError.


(** The record of the report for [nginx_table] on [nginx_cluster]:
    avg_cpu 200.0, max_cpu 300, avg_memory 450.0, max_memory 500,
    requested 300 and 600, recommended 222.22222222222223 and
    555.5555555555555, ratios 1.3499999999999999 and 1.08. *)
Definition nginx_record : Recommendation :=
  mkRecommendation "nginx:1.0"
    (S754_finite false 7036874417766400 (-45)) 300
    (S754_finite false 7916483719987200 (-44)) 500
    300 600
    (Num.Float (S754_finite false 7818749353073778 (-45)))
    (Num.Float (S754_finite false 4886718345671111 (-43)))
    (Num.Float (S754_finite false 6079859496950169 (-52)))
    (Num.Float (S754_finite false 4863887597560136 (-52))).

End Sample.
(** ** Vocabulary for the lines of a usage text and for the store *)

Module Shape.

Definition raises {A : Type} (m : result A) : bool :=
  match m with
  | Raise _ => true
  | Ok _ => false
  end.

(** A line of the node usage text that has the three parts the node path
    reads and a quantity among them that [int] rejects. *)
Definition node_line_malformed (line : string) : bool :=
  match Str.re_split_ws line with
  | _ :: cpu :: memory :: _ => raises (node_cpu cpu) || raises (node_memory memory)
  | _ => false
  end.

(** The names of the lines of the node usage text that have at least
    three parts, in the order of the lines. *)
Definition node_names (lines : list string) : list string :=
  flat_map (fun line =>
              match Str.re_split_ws line with
              | name :: _ :: _ :: _ => [name]
              | _ => []
              end) lines.

(** The row of a line of the node usage text, when it has one. *)
Definition node_line_rows (ts : Num.float) (line : string) : list NodeSample :=
  match Str.re_split_ws line with
  | name :: cpu :: memory :: _ =>
      match node_cpu cpu, node_memory memory with
      | Ok c, Ok m => [mkNodeSample ts name c m]
      | _, _ => []
      end
  | _ => []
  end.

(** A line of the pod usage text that has the four parts the pod path
    reads and a quantity among them that [int] rejects. *)
Definition pod_line_malformed (line : string) : bool :=
  match Str.re_split_ws line with
  | _ :: _ :: cpu :: memory :: _ => raises (pod_cpu cpu) || raises (pod_memory memory)
  | _ => false
  end.

(** White space between two columns: one white space character or
    more. *)
Fixpoint all_space (s : string) : bool :=
  match s with
  | EmptyString => true
  | String c s' => Str.isspace c && all_space s'
  end.

Definition is_gap (s : string) : bool := Str.nonempty s && all_space s.

(** A row of four columns on one line. *)
Definition four_columns (line : string) : Prop :=
  exists ns g1 pd g2 cpu g3 mem,
    (Spec.is_token ns = true /\ Spec.is_token pd = true
     /\ Spec.is_token cpu = true /\ Spec.is_token mem = true)
    /\ (is_gap g1 = true /\ is_gap g2 = true /\ is_gap g3 = true)
    /\ (Spec.absent Str.LF g1 = true /\ Spec.absent Str.LF g2 = true
        /\ Spec.absent Str.LF g3 = true)
    /\ line = (ns ++ g1 ++ pd ++ g2 ++ cpu ++ g3 ++ mem)%string.

(** [m] is the least element of the non-empty column [xs]. *)
Definition is_min (m : Z) (xs : list Z) : Prop :=
  In m xs /\ Forall (fun x => m <= x) xs.

(** The samples of the node table that have the name [n], in the order
    of the table. *)
Fixpoint samples_of_node (n : string) (table : list NodeSample) : list NodeSample :=
  match table with
  | [] => []
  | row :: table' =>
      if string_dec (node row) n then row :: samples_of_node n table'
      else samples_of_node n table'
  end.

(** What the summary prints for the node [s_node s]: the least and the
    greatest of the two columns of the samples of the node, and the mean
    of each. *)
Definition node_extremes (table : list NodeSample) (s : NodeSummary) : Prop :=
  is_min (cpu_min s) (map node_cpu_cores (samples_of_node (s_node s) table))
  /\ Spec.is_max (cpu_max s) (map node_cpu_cores (samples_of_node (s_node s) table))
  /\ is_min (mem_min s) (map node_memory_bytes (samples_of_node (s_node s) table))
  /\ Spec.is_max (mem_max s) (map node_memory_bytes (samples_of_node (s_node s) table)).

Definition node_means (table : list NodeSample) (s : NodeSummary) : Prop :=
  cpu_avg s = Spec.mean (map node_cpu_cores (samples_of_node (s_node s) table))
  /\ mem_avg s = Spec.mean (map node_memory_bytes (samples_of_node (s_node s) table)).

(** A node table of fewer than 2^53 rows in which the magnitudes of each
    of the two columns add up to less than 2^53. *)
Definition moderate_nodes (table : list NodeSample) : Prop :=
  Z.of_nat (List.length table) < 2 ^ 53
  /\ Spec.abs_total (map node_cpu_cores table) < 2 ^ 53
  /\ Spec.abs_total (map node_memory_bytes table) < 2 ^ 53.

(** The exception a fetch lets out: the one [subprocess.run] raised,
    unless it is the CalledProcessError the fetch catches. *)
Definition escaping (c : completed) : option exn :=
  match c with
  | Raises e => if exn_eqb e CalledProcessError then None else Some e
  | _ => None
  end.

(** The text a fetch returns when it lets no exception out: the output
    of the command, or the empty text when the command failed. *)
Definition fetched (c : completed) : string :=
  match c with
  | Exit0 out => out
  | _ => ""
  end.

(** How a turn of the loop ends, read off the answers of the cluster:
    with the exception the fetch of the node usage lets out, or else
    with the one the fetch of the pod usage lets out, or else with
    ValueError when the node usage text has a malformed line; otherwise
    the turn is completed. *)
Definition turn_outcome (t : tick) : option exn :=
  match escaping (kube t TopNodes), escaping (kube t TopPods) with
  | Some e, _ => Some e
  | None, Some e => Some e
  | None, None =>
      if existsb node_line_malformed (Spec.data_lines (fetched (kube t TopNodes)))
      then Some ValueError
      else None
  end.

(** The rows a completed turn appends to the two tables: those of the
    lines of its two usage texts, stamped with its time. *)
Definition turn_nodes (t : tick) : list NodeSample :=
  flat_map (node_line_rows (now t)) (Spec.data_lines (fetched (kube t TopNodes))).

Definition turn_pods (t : tick) : list PodSample :=
  flat_map (Spec.pod_line_rows (kube t) (now t))
           (Spec.data_lines (fetched (kube t TopPods))).

(** The turns the loop completes: those before the first one that ends
    with an exception. *)
Fixpoint completed_turns (ticks : list tick) : list tick :=
  match ticks with
  | [] => []
  | t :: ticks' =>
      match turn_outcome t with
      | None => t :: completed_turns ticks'
      | Some _ => []
      end
  end.

(** How the loop ends: with the exception of the first turn that has
    one. *)
Fixpoint loop_outcome (ticks : list tick) : option exn :=
  match ticks with
  | [] => None
  | t :: ticks' =>
      match turn_outcome t with
      | None => loop_outcome ticks'
      | Some e => Some e
      end
  end.

(** The number zero, as an [int] or as a [float]. *)
Definition is_zero_num (a : Num.num) : bool :=
  match a with
  | Num.Int n => n =? 0
  | Num.Float x => Num.is_zero x
  end.

(** A cluster where the request of every pod is ["128M"], a quantity
    with a decimal suffix. *)
Definition decimal_suffix_cluster : cluster := fun q =>
  match q with
  | GetMemoryRequest _ _ => Exit0 "128M"
  | GetImage _ _ => Exit0 "nginx:1.0"
  | _ => ExitNonZero
  end.

(** Three samples of two nodes, and what the summary prints for them:
    for node1 CPU 250 to 300 with mean 275.0 and memory 12 to 14 with
    mean 13.0, for node2 CPU 100 with mean 100.0 and memory 5 with mean
    5.0. *)
Definition node_table : list NodeSample :=
  [mkNodeSample Sample.t0 "node1" 250 12;
   mkNodeSample Sample.t0 "node2" 100 5;
   mkNodeSample Sample.t0 "node1" 300 14].

Definition node_table_summary : list NodeSummary :=
  [mkNodeSummary "node1"
     250 300 (S754_finite false 4837851162214400 (-44))
     12 14 (S754_finite false 7318349394477056 (-49));
   mkNodeSummary "node2"
     100 100 (S754_finite false 7036874417766400 (-46))
     5 5 (S754_finite false 5629499534213120 (-50))].

(** The pod usage text of [Sample.pod_text_abc] without its malformed
    row. *)
Definition pod_text_without_abc : string :=
  ("NAMESPACE NAME CPU(cores) MEMORY(bytes)   " ++ "
default web-1 250m 64Mi   " ++ "
default web-3 100m 2048Ki   " ++ "
kube-system dns-1 3m 1Gi   " ++ "
")%string.

End Shape.

(** ** Vocabulary for the sums of doubles *)

Module Binary64.

(** [p] shifted left by [n] binary places. *)
Definition shl (p : positive) (n : Z) : positive :=
  match n with
  | Zpos n' => Pos.iter xO p n'
  | _ => p
  end.

(** The integer of sign [s] and magnitude [p]. *)
Definition signed (s : bool) (p : positive) : Z := if s then Zneg p else Zpos p.

(** The double of an integer of at most 53 binary digits: its mantissa
    is the magnitude [p] shifted up to 53 digits. *)
Definition canon (s : bool) (p : positive) : spec_float :=
  S754_finite s (shl p (53 - Zpos (digits2_pos p))) (Zpos (digits2_pos p) - 53).

(** A mantissa from which no digit has been shifted out. *)
Definition exact_record (m : Z) : shr_record :=
  {| shr_m := m; shr_r := false; shr_s := false |}.

(** [x] is what adding up the doubles of integers of sum [z] and of sum
    of magnitudes [w] has given: the double of [z], as long as [w] is
    below 2^53, or the negative zero an empty sum starts from. *)
Definition sums_to (x : Num.float) (z w : Z) : Prop :=
  0 <= w /\ Z.abs z <= w
  /\ (w < 2 ^ 53 -> x = Num.float64 z \/ (x = Num.neg_zero /\ z = 0)).

(** The same for a sum that did not start from the negative zero. *)
Definition exactly (x : Num.float) (z w : Z) : Prop :=
  0 <= w /\ Z.abs z <= w /\ (w < 2 ^ 53 -> x = Num.float64 z).

(** The eight accumulators of a block hold sums of sum [z] and of sum
    of magnitudes [w] between them. *)
Definition lanes_sum (r : Num.lanes) (z w : Z) : Prop :=
  let '(r0, r1, r2, r3, r4, r5, r6, r7) := r in
  exists z0 z1 z2 z3 z4 z5 z6 z7 w0 w1 w2 w3 w4 w5 w6 w7,
    (sums_to r0 z0 w0 /\ sums_to r1 z1 w1 /\ sums_to r2 z2 w2 /\ sums_to r3 z3 w3)
    /\ (sums_to r4 z4 w4 /\ sums_to r5 z5 w5 /\ sums_to r6 z6 w6 /\ sums_to r7 z7 w7)
    /\ z = z0 + z1 + z2 + z3 + z4 + z5 + z6 + z7
    /\ w = w0 + w1 + w2 + w3 + w4 + w5 + w6 + w7.

End Binary64.
(** * Examples *)

Example int_250 : Str.int "250" = Ok 250.
Proof. reflexivity. Qed.
Example int_abc : Str.int "abc" = Raise ValueError.
Proof. reflexivity. Qed.
Example int_empty : Str.int "" = Raise ValueError.
Proof. reflexivity. Qed.
Example int_signed : Str.int " -1_000 " = Ok (-1000).
Proof. reflexivity. Qed.
Example replace_Mi : Str.replace "Mi" "" "64Mi" = "64".
Proof. reflexivity. Qed.
Example replace_aa : Str.replace "aa" "b" "aaaaa" = "bba".
Proof. reflexivity. Qed.
Example re_split_line :
  Str.re_split_ws "node1   250m 12%  " = ["node1"; "250m"; "12%"; ""].
Proof. reflexivity. Qed.
Example re_split_empty : Str.re_split_ws "" = [""].
Proof. reflexivity. Qed.
Example strip_ex : Str.strip "  a b
 " = "a b".
Proof. reflexivity. Qed.
Example lit_0_9_nearest :
  (n <- Num.float_of_int 9 ;; d <- Num.float_of_int 10 ;;
   Ok (SFdiv Num.prec Num.emax n d)) = Ok Num.lit_0_9.
Proof. reflexivity. Qed.
Example float_of_int_huge : Num.float_of_int (2 ^ 1024) = Raise OverflowError.
Proof. vm_compute. reflexivity. Qed.
Example float_of_int_200 :
  Num.float_of_int 200 = Ok (S754_finite false 7036874417766400 (-45)).
Proof. vm_compute. reflexivity. Qed.
Example mean_100_200_300 : Ok (Num.mean [100; 200; 300]) = Num.float_of_int 200.
Proof. vm_compute. reflexivity. Qed.
Example nine_tenths_literal : Spec.nine_tenths = Num.lit_0_9.
Proof. vm_compute. reflexivity. Qed.
(** The values of a column are cast before they are added: 2^53 + 1 is
    not a double, and the mean of 2^53 + 1 and 1 comes out as 2^52, not
    as the 2^52 + 1 that the exact sum gives. *)
Example mean_cast_first :
  Num.mean [2 ^ 53 + 1; 1] = Num.float64 (2 ^ 52)
  /\ Spec.mean [2 ^ 53 + 1; 1] = Num.float64 (2 ^ 52 + 1).
Proof. split; vm_compute; reflexivity. Qed.
(** Nine values or more are not added from left to right. *)
Example mean_pairwise :
  Num.mean [2 ^ 53; 1; 1; 1; 1; 1; 1; 1; 1; 1; 1; 1; 1; 1; 1; 1; 1]
  = Spec.quotient (Num.float64 (2 ^ 53 + 16)) (Num.float64 17)
  /\ fold_left Num.add
       (map Num.float64 [2 ^ 53; 1; 1; 1; 1; 1; 1; 1; 1; 1; 1; 1; 1; 1; 1; 1; 1])
       (S754_zero false)
     = Num.float64 (2 ^ 53).
Proof. split; vm_compute; reflexivity. Qed.

(** * Properties *)

(** ** Strings *)

Section StringFacts.

Import Str Spec.

Lemma append_nil_r s : (s ++ "")%string = s.
Proof. induction s as [|x s IH]; simpl; [reflexivity | now rewrite IH]. Qed.

Lemma append_assoc a b c : ((a ++ b) ++ c)%string = (a ++ b ++ c)%string.
Proof. induction a as [|x a IH]; simpl; [reflexivity | now rewrite IH]. Qed.

Lemma isdigit_not_isspace c : isdigit c = true -> isspace c = false.
Proof.
  unfold isdigit, isspace. intros H.
  apply andb_true_iff in H as [H1 H2].
  apply Nat.leb_le in H1. apply Nat.leb_le in H2.
  repeat match goal with
  | |- context [(?a <=? ?b)%nat] => destruct (Nat.leb_spec a b)
  | |- context [(?a =? ?b)%nat] => destruct (Nat.eqb_spec a b)
  end; simpl; try reflexivity; lia.
Qed.

(** A digit differs from every character that is not one. *)
Lemma isdigit_neq c d : isdigit c = true -> isdigit d = false -> Ascii.eqb c d = false.
Proof.
  intros Hc Hd. destruct (Ascii.eqb_spec c d) as [->|]; congruence.
Qed.

Lemma absent_app c a b : absent c (a ++ b) = absent c a && absent c b.
Proof.
  induction a as [|x a IH]; simpl; [reflexivity|].
  rewrite IH. now rewrite andb_assoc.
Qed.

Lemma all_digits_absent c s :
  all_digits s = true -> isdigit c = false -> absent c s = true.
Proof.
  intros Hs Hc. induction s as [|x s IH]; simpl in *; [reflexivity|].
  apply andb_true_iff in Hs as [Hx Hs].
  rewrite (isdigit_neq x c Hx Hc). simpl. auto.
Qed.

Lemma all_digits_no_space s : all_digits s = true -> no_space s = true.
Proof.
  induction s as [|x s IH]; simpl; [reflexivity|].
  intros H. apply andb_true_iff in H as [Hx Hs].
  rewrite (isdigit_not_isspace x Hx). simpl. auto.
Qed.

Lemma startswith_refl p s : startswith p (p ++ s) = true.
Proof.
  induction p as [|x p IH]; simpl; [reflexivity|].
  now rewrite Ascii.eqb_refl.
Qed.

Lemma startswith_absent o p s : absent o s = true -> startswith (String o p) s = false.
Proof.
  destruct s as [|x s]; simpl; [reflexivity|].
  intros H. apply andb_true_iff in H as [H _].
  rewrite Ascii.eqb_sym. apply negb_true_iff in H. now rewrite H.
Qed.

Lemma contains_absent o p s : absent o s = true -> contains (String o p) s = false.
Proof.
  induction s as [|x s IH]; intros H.
  - reflexivity.
  - cbn [contains]. rewrite (startswith_absent o p _ H).
    simpl in H. apply andb_true_iff in H as [_ H]. simpl. auto.
Qed.

Lemma contains_app_r p a s : contains p s = true -> contains p (a ++ s) = true.
Proof.
  intros H. induction a as [|x a IH]; simpl; [exact H|].
  rewrite IH. apply orb_true_r.
Qed.

Lemma contains_here p a s : contains p (a ++ p ++ s) = true.
Proof.
  apply contains_app_r.
  destruct (p ++ s)%string eqn:E; cbn [contains]; rewrite <- E;
    now rewrite startswith_refl.
Qed.

Lemma replace_from_skip old new p s :
  replace_from old new (p ++ s) (String.length p) = replace_from old new s O.
Proof.
  induction p as [|x p IH]; simpl; [reflexivity | exact IH].
Qed.

Lemma replace_absent o p new s :
  absent o s = true -> replace (String o p) new s = s.
Proof.
  unfold replace. induction s as [|x s IH]; intros H; [reflexivity|].
  cbn [replace_from]. rewrite (startswith_absent o p _ H).
  simpl in H. apply andb_true_iff in H as [_ H]. now rewrite IH.
Qed.

(** The first occurrence is replaced and the search resumes after it. *)
Lemma replace_first o p new a s :
  absent o a = true ->
  replace (String o p) new (a ++ String o p ++ s)
  = (a ++ new ++ replace (String o p) new s)%string.
Proof.
  unfold replace. induction a as [|x a IH]; intros H.
  - cbn [append replace_from].
    replace (startswith (String o p) (String o (p ++ s))) with true
      by (symmetry; apply (startswith_refl (String o p) s)).
    cbn [String.length]. rewrite Nat.sub_succ, Nat.sub_0_r.
    now rewrite replace_from_skip.
  - cbn [append replace_from].
    simpl in H. apply andb_true_iff in H as [Hx H].
    apply negb_true_iff in Hx.
    cbn [startswith]. rewrite Ascii.eqb_sym, Hx. cbn [andb].
    cbn [append] in IH. now rewrite IH.
Qed.

Lemma lstrip_no_space s : no_space s = true -> lstrip s = s.
Proof.
  destruct s as [|x s]; simpl; [reflexivity|].
  intros H. apply andb_true_iff in H as [H _].
  apply negb_true_iff in H. now rewrite H.
Qed.

(** White space after a stretch without any is all that [rstrip] can
    take away. *)
Lemma rstrip_app a s : no_space a = true -> rstrip (a ++ s) = (a ++ rstrip s)%string.
Proof.
  induction a as [|x a IH]; intros H; [reflexivity|].
  simpl in H. apply andb_true_iff in H as [Hx H].
  apply negb_true_iff in Hx.
  cbn [append rstrip]. rewrite (IH H), Hx.
  destruct (a ++ rstrip s)%string; reflexivity.
Qed.

Lemma rstrip_no_space s : no_space s = true -> rstrip s = s.
Proof.
  intros H. rewrite <- (append_nil_r s) at 1.
  rewrite rstrip_app by exact H. simpl. apply append_nil_r.
Qed.

Lemma strip_no_space s : no_space s = true -> strip s = s.
Proof.
  intros H. unfold strip. rewrite lstrip_no_space by exact H.
  now apply rstrip_no_space.
Qed.

Lemma strip_token t s :
  is_token t = true -> strip (t ++ s) = (t ++ rstrip s)%string.
Proof.
  unfold is_token, strip. intros H. apply andb_true_iff in H as [Hn H].
  destruct t as [|x t]; [discriminate|].
  assert (Hl : lstrip (String x t ++ s) = (String x t ++ s)%string).
  { simpl in H |- *. apply andb_true_iff in H as [Hx _].
    apply negb_true_iff in Hx. now rewrite Hx. }
  rewrite Hl. now apply rstrip_app.
Qed.

(** What [rstrip] leaves of a string that starts with white space is
    empty or still starts with that character. *)
Lemma rstrip_space w s :
  isspace w = true ->
  rstrip (String w s) = "" \/ exists s', rstrip (String w s) = String w s'.
Proof.
  intros Hw. cbn [rstrip]. rewrite Hw.
  destruct (rstrip s); [now left | right; eauto].
Qed.

Lemma re_split_token t s b :
  is_token t = true ->
  re_split_ws_from (t ++ s) b =
  match re_split_ws_from s false with
  | p :: ps => (t ++ p)%string :: ps
  | [] => [t]
  end.
Proof.
  unfold is_token. intros H. apply andb_true_iff in H as [Hn H].
  destruct t as [|x t]; [discriminate|]. clear Hn.
  revert x b H. induction t as [|y t IH]; intros x b H.
  - simpl in H. rewrite andb_true_r in H. apply negb_true_iff in H.
    cbn [append re_split_ws_from]. rewrite H.
    destruct (re_split_ws_from s false); reflexivity.
  - cbn [no_space] in H. apply andb_true_iff in H as [Hx H].
    apply negb_true_iff in Hx.
    change (String x (String y t) ++ s)%string with (String x (String y t ++ s)).
    cbn [re_split_ws_from]. rewrite Hx. rewrite (IH y false H).
    destruct (re_split_ws_from s false); reflexivity.
Qed.

(** The first piece [split()] gives is the first token. *)
Lemma split_ws_first t w s :
  is_token t = true -> isspace w = true ->
  exists ps, split_ws (strip (t ++ String w s)) = t :: ps.
Proof.
  intros Ht Hw. rewrite strip_token by exact Ht.
  unfold split_ws, re_split_ws. rewrite re_split_token by exact Ht.
  assert (Hn : nonempty t = true)
    by (unfold is_token in Ht; now apply andb_true_iff in Ht as [? _]).
  destruct (rstrip_space w s Hw) as [E | [s' E]]; rewrite E.
  - simpl. rewrite append_nil_r, Hn. eauto.
  - cbn [re_split_ws_from]. rewrite Hw. simpl.
    rewrite append_nil_r. rewrite Hn. eauto.
Qed.

Lemma split_ws_single t :
  is_token t = true -> split_ws (strip t) = [t].
Proof.
  intros Ht. pose proof Ht as Ht'.
  unfold is_token in Ht'. apply andb_true_iff in Ht' as [Hn Hs].
  rewrite strip_no_space by exact Hs.
  unfold split_ws, re_split_ws.
  rewrite <- (append_nil_r t) at 1. rewrite re_split_token by exact Ht.
  simpl. now rewrite append_nil_r, Hn.
Qed.

Lemma int_digits_decimal s acc b :
  all_digits s = true -> (nonempty s || b) = true ->
  int_digits s acc b = Ok (acc * 10 ^ Z.of_nat (String.length s) + decimal_value s).
Proof.
  revert acc b. induction s as [|x s IH]; intros acc b Hd Hb.
  - simpl in Hb. subst b. simpl. f_equal. lia.
  - simpl in Hd. apply andb_true_iff in Hd as [Hx Hd].
    cbn [int_digits]. rewrite Hx. rewrite (IH _ true Hd) by apply orb_true_r.
    f_equal. cbn [String.length decimal_value].
    rewrite Nat2Z.inj_succ, Z.pow_succ_r by lia. ring.
Qed.

(** [int] reads a string of decimal digits as the number it denotes. *)
Lemma int_decimal s : is_decimal s = true -> int s = Ok (decimal_value s).
Proof.
  unfold is_decimal. intros H. apply andb_true_iff in H as [Hn Hd].
  unfold int. rewrite strip_no_space by now apply all_digits_no_space.
  destruct s as [|x s]; [discriminate|].
  pose proof Hd as Hd'. simpl in Hd'. apply andb_true_iff in Hd' as [Hx _].
  rewrite (isdigit_neq x "+" Hx eq_refl), (isdigit_neq x "-" Hx eq_refl).
  rewrite int_digits_decimal by (auto).
  f_equal.
Qed.

Lemma decimal_value_nonneg s : all_digits s = true -> 0 <= decimal_value s.
Proof.
  induction s as [|x s IH]; simpl; [lia|].
  intros H. apply andb_true_iff in H as [Hx H].
  specialize (IH H).
  assert (0 <= digit_val x).
  { unfold isdigit in Hx. apply andb_true_iff in Hx as [H1 _].
    apply Nat.leb_le in H1. unfold digit_val. lia. }
  assert (0 <= 10 ^ Z.of_nat (String.length s)) by (apply Z.pow_nonneg; lia).
  nia.
Qed.

End StringFacts.

(** ** The unit normalizer *)

Section Tokens.

Import Str Spec.

Lemma contains_end p a : contains p (a ++ p) = true.
Proof.
  rewrite <- (append_nil_r p) at 2. apply contains_here.
Qed.

Lemma replace_end o p new a :
  absent o a = true -> replace (String o p) new (a ++ String o p) = (a ++ new)%string.
Proof.
  intros H. rewrite <- (append_nil_r (String o p)) at 2.
  rewrite replace_first by exact H. unfold replace. simpl.
  now rewrite append_nil_r.
Qed.

(** A character that is no digit and not in the suffix is not in the
    token. *)
Lemma absent_token c ds suf :
  all_digits ds = true -> isdigit c = false -> absent c suf = true ->
  absent c (ds ++ suf) = true.
Proof.
  intros Hd Hc Hs. rewrite absent_app, Hs.
  now rewrite (all_digits_absent c ds Hd Hc).
Qed.

Lemma is_decimal_all_digits ds : is_decimal ds = true -> all_digits ds = true.
Proof. unfold is_decimal. intros H. now apply andb_true_iff in H as [_ H]. Qed.

End Tokens.

(** Facts about tokens made of digits and a known suffix. *)
Create HintDb tokens.

#[local] Hint Resolve all_digits_absent absent_token is_decimal_all_digits : tokens.
#[local] Hint Extern 1 (Str.isdigit _ = false) => reflexivity : tokens.
#[local] Hint Extern 1 (Spec.absent _ (String _ _) = true) => reflexivity : tokens.

(** Rewrites the tests and the replacements of a quantity expression on
    such a token. *)
Ltac token_step :=
  first
  [ rewrite contains_end
  | rewrite contains_absent by auto with tokens
  | rewrite replace_end by auto with tokens
  | rewrite replace_absent by auto with tokens
  | rewrite append_nil_r ].

Ltac token_eval := repeat token_step.

Section UnitNormalizer.

Import Spec.

Variable ds : string.
Hypothesis Hdec : is_decimal ds = true.

#[local] Hint Resolve Hdec : tokens.

Lemma node_cpu_m : node_cpu (ds ++ "m") = Ok (decimal_value ds).
Proof. unfold node_cpu. token_eval. now apply int_decimal. Qed.

Lemma node_cpu_percent : node_cpu (ds ++ "%") = Ok (decimal_value ds).
Proof. unfold node_cpu. token_eval. now apply int_decimal. Qed.

Lemma node_cpu_bare : node_cpu ds = Ok (decimal_value ds).
Proof. unfold node_cpu. token_eval. now apply int_decimal. Qed.

Lemma pod_memory_Mi : pod_memory (ds ++ "Mi") = Ok (decimal_value ds).
Proof. unfold pod_memory. token_eval. now apply int_decimal. Qed.

Lemma pod_memory_Gi : pod_memory (ds ++ "Gi") = Ok (decimal_value ds * 1024).
Proof. unfold pod_memory. token_eval. now rewrite int_decimal. Qed.

Lemma pod_memory_Ki : pod_memory (ds ++ "Ki") = Ok (decimal_value ds / 1024).
Proof. unfold pod_memory. token_eval. now rewrite int_decimal. Qed.

Lemma node_memory_Mi : node_memory (ds ++ "Mi") = Ok (decimal_value ds * 1024).
Proof. unfold node_memory. token_eval. now rewrite int_decimal. Qed.

Lemma node_memory_Gi : node_memory (ds ++ "Gi") = Ok (decimal_value ds * 1024 * 1024).
Proof. unfold node_memory. token_eval. now rewrite int_decimal. Qed.

Lemma node_memory_Ki : node_memory (ds ++ "Ki") = Ok (decimal_value ds).
Proof. unfold node_memory. token_eval. now rewrite int_decimal. Qed.

End UnitNormalizer.

(** The two paths read a CPU token with the same expression. *)
Lemma node_cpu_pod_cpu token : node_cpu token = pod_cpu token.
Proof. reflexivity. Qed.

Section PercentSign.

Import Str.

Variable c : ascii.

Lemma contains_char_app a b :
  contains (String c "") (a ++ b) = contains (String c "") a || contains (String c "") b.
Proof.
  induction a as [|x a IH].
  - simpl. destruct b; reflexivity.
  - cbn [append contains startswith]. rewrite IH.
    destruct (Ascii.eqb c x); simpl; [reflexivity|].
    destruct a; reflexivity.
Qed.

Lemma replace_char_app new a b :
  replace (String c "") new (a ++ b)
  = (replace (String c "") new a ++ replace (String c "") new b)%string.
Proof.
  unfold replace. induction a as [|x a IH]; [reflexivity|].
  cbn [append replace_from startswith String.length Nat.sub].
  rewrite IH. destruct (Ascii.eqb c x); cbn [andb].
  - now rewrite append_assoc.
  - reflexivity.
Qed.

End PercentSign.

(** A percent sign at the end of a CPU token is dropped before the token
    is read, whatever the token. *)
Lemma node_cpu_strips_percent token : node_cpu (token ++ "%") = node_cpu token.
Proof.
  unfold node_cpu. rewrite contains_char_app.
  change (Str.contains "m" "%") with false. rewrite orb_false_r.
  rewrite !replace_char_app.
  change (Str.replace "m" "" "%") with "%".
  change (Str.replace "%" "" "%") with "".
  now rewrite !append_nil_r.
Qed.

(** C2.  A CPU token made of digits and the suffix [m] is read as the
    number its digits denote, unchanged; a percent sign at the end of a
    token is dropped and the bare number is read; a token of digits alone
    is read as that number, with no scaling by 1000.  The node path and
    the pod path read every token alike.  For instance ["250m"] gives
    250. *)
Theorem cpu_token_parsing (ds : string) :
  Spec.is_decimal ds = true ->
  (node_cpu (ds ++ "m") = Ok (Spec.decimal_value ds)
   /\ node_cpu (ds ++ "%") = Ok (Spec.decimal_value ds)
   /\ node_cpu ds = Ok (Spec.decimal_value ds))
  /\ (pod_cpu (ds ++ "m") = Ok (Spec.decimal_value ds)
      /\ pod_cpu (ds ++ "%") = Ok (Spec.decimal_value ds)
      /\ pod_cpu ds = Ok (Spec.decimal_value ds))
  /\ (forall token, node_cpu (token ++ "%") = node_cpu token
                    /\ pod_cpu (token ++ "%") = pod_cpu token
                    /\ node_cpu token = pod_cpu token)
  /\ node_cpu "250m" = Ok 250 /\ pod_cpu "250m" = Ok 250.
Proof.
  intros H.
  pose proof (node_cpu_m ds H) as Hm.
  pose proof (node_cpu_percent ds H) as Hp.
  pose proof (node_cpu_bare ds H) as Hb.
  repeat split; try assumption; try reflexivity.
  - apply node_cpu_strips_percent.
  - apply node_cpu_strips_percent.
Qed.

Lemma cpu_token_parsing_witness :
  Spec.is_decimal "250" = true
  /\ node_cpu "250m" = Ok 250 /\ node_cpu "250%" = Ok 250 /\ node_cpu "250" = Ok 250.
Proof.
  split; [reflexivity|].
  exact (proj1 (cpu_token_parsing "250" eq_refl)).
Defined.

(** C3.  On the pod path a memory token made of digits and a binary
    suffix is read in mebibytes: with [Mi] the number is returned
    unchanged, with [Gi] it is multiplied by 1024, with [Ki] it is divided
    by 1024 (rounding down).  For instance ["64Mi"] gives 64, ["1Gi"]
    gives 1024 and ["2048Ki"] gives 2. *)
Theorem pod_memory_parsing (ds : string) :
  Spec.is_decimal ds = true ->
  pod_memory (ds ++ "Mi") = Ok (Spec.decimal_value ds)
  /\ pod_memory (ds ++ "Gi") = Ok (Spec.decimal_value ds * 1024)
  /\ pod_memory (ds ++ "Ki") = Ok (Spec.decimal_value ds / 1024)
  /\ (forall u, pod_memory (ds ++ Spec.suffix u)
                = Ok (Spec.mebibytes (Spec.bytes u (Spec.decimal_value ds))))
  /\ pod_memory "64Mi" = Ok 64
  /\ pod_memory "1Gi" = Ok 1024
  /\ pod_memory "2048Ki" = Ok 2.
Proof.
  intros H.
  pose proof (pod_memory_Mi ds H) as HM.
  pose proof (pod_memory_Gi ds H) as HG.
  pose proof (pod_memory_Ki ds H) as HK.
  repeat split; try assumption.
  intros [ | | ]; unfold Spec.suffix, Spec.mebibytes, Spec.bytes.
  - rewrite HK. f_equal.
    now rewrite Z.div_mul_cancel_r by lia.
  - rewrite HM. f_equal. now rewrite Z.div_mul by lia.
  - rewrite HG. f_equal.
    replace (Spec.decimal_value ds * (1024 * 1024 * 1024))
      with (Spec.decimal_value ds * 1024 * (1024 * 1024)) by ring.
    now rewrite Z.div_mul by lia.
Qed.

Lemma pod_memory_parsing_witness :
  Spec.is_decimal "2048" = true
  /\ pod_memory "2048Mi" = Ok 2048
  /\ pod_memory "2048Gi" = Ok 2097152
  /\ pod_memory "2048Ki" = Ok 2.
Proof.
  split; [reflexivity|].
  pose proof (pod_memory_parsing "2048" eq_refl) as (HM & HG & HK & _).
  exact (conj HM (conj HG HK)).
Defined.

(** C4, as the claim has it, fails: on the node path ["64Mi"] is not
    returned unchanged, and ["1Gi"] is not multiplied by 1024 only. *)
Lemma node_memory_Mi_not_unchanged :
  Spec.is_decimal "64" = true
  /\ node_memory ("64" ++ "Mi") = Ok 65536
  /\ node_memory ("64" ++ "Mi") <> Ok (Spec.decimal_value "64")
  /\ node_memory ("1" ++ "Gi") = Ok 1048576
  /\ node_memory ("1" ++ "Gi") <> Ok (Spec.decimal_value "1" * 1024).
Proof. repeat split; try reflexivity; vm_compute; discriminate. Qed.

(** C4, amended.  On the node path a memory token made of digits and a
    binary suffix is read in kibibytes: with [Ki] the number is kept as it
    is, with [Mi] it is multiplied by 1024, with [Gi] it is multiplied by
    1024 * 1024.  So node samples hold kibibytes, while pod samples hold
    mebibytes of the same quantity. *)
Theorem node_memory_parsing (ds : string) :
  Spec.is_decimal ds = true ->
  node_memory (ds ++ "Ki") = Ok (Spec.decimal_value ds)
  /\ node_memory (ds ++ "Mi") = Ok (Spec.decimal_value ds * 1024)
  /\ node_memory (ds ++ "Gi") = Ok (Spec.decimal_value ds * 1024 * 1024)
  /\ (forall u,
        node_memory (ds ++ Spec.suffix u)
        = Ok (Spec.kibibytes (Spec.bytes u (Spec.decimal_value ds)))
        /\ pod_memory (ds ++ Spec.suffix u)
           = Ok (Spec.mebibytes (Spec.bytes u (Spec.decimal_value ds)))).
Proof.
  intros H.
  pose proof (node_memory_Mi ds H) as HM.
  pose proof (node_memory_Gi ds H) as HG.
  pose proof (node_memory_Ki ds H) as HK.
  pose proof (pod_memory_Mi ds H) as PM.
  pose proof (pod_memory_Gi ds H) as PG.
  pose proof (pod_memory_Ki ds H) as PK.
  repeat split; try assumption;
    destruct u; unfold Spec.suffix, Spec.kibibytes, Spec.mebibytes, Spec.bytes;
    rewrite ?HM, ?HG, ?HK, ?PM, ?PG, ?PK; f_equal.
  - now rewrite Z.div_mul by lia.
  - replace (Spec.decimal_value ds * (1024 * 1024))
      with (Spec.decimal_value ds * 1024 * 1024) by ring.
    now rewrite Z.div_mul by lia.
  - replace (Spec.decimal_value ds * (1024 * 1024 * 1024))
      with (Spec.decimal_value ds * 1024 * 1024 * 1024) by ring.
    now rewrite Z.div_mul by lia.
  - now rewrite Z.div_mul_cancel_r by lia.
  - now rewrite Z.div_mul by lia.
  - replace (Spec.decimal_value ds * (1024 * 1024 * 1024))
      with (Spec.decimal_value ds * 1024 * (1024 * 1024)) by ring.
    now rewrite Z.div_mul by lia.
Qed.

Lemma node_memory_parsing_witness :
  Spec.is_decimal "64" = true
  /\ node_memory "64Ki" = Ok 64
  /\ node_memory "64Mi" = Ok 65536
  /\ node_memory "64Gi" = Ok 67108864.
Proof.
  split; [reflexivity|].
  pose proof (node_memory_parsing "64" eq_refl) as (HK & HM & HG & _).
  exact (conj HK (conj HM HG)).
Defined.

(** ** The resource lookups *)

Section Lookups.

Import Spec.

Variable k : cluster.
Variables ns pd : string.

Lemma lookup_pod_image_failed :
  k (GetImage pd ns) = ExitNonZero -> lookup_pod_image k ns pd = Ok "unknown".
Proof. unfold lookup_pod_image, run. now intros ->. Qed.

Lemma lookup_pod_image_completed out :
  k (GetImage pd ns) = Exit0 out -> lookup_pod_image k ns pd = Ok (Str.strip out).
Proof. unfold lookup_pod_image, run. now intros ->. Qed.

Lemma exn_eqb_eq a b : exn_eqb a b = true <-> a = b.
Proof. destruct a, b; simpl; split; intros H; try reflexivity; discriminate H. Qed.

Lemma exn_eqb_neq a b : a <> b -> exn_eqb a b = false.
Proof.
  intros H. destruct (exn_eqb a b) eqn:E; [|reflexivity].
  now apply exn_eqb_eq in E.
Qed.

(** What [subprocess.run] raises, if it is not CalledProcessError, goes
    through the image lookup, and nothing else does. *)
Lemma lookup_pod_image_raises e :
  lookup_pod_image k ns pd = Raise e
  <-> k (GetImage pd ns) = Raises e /\ e <> CalledProcessError.
Proof.
  unfold lookup_pod_image, run.
  destruct (k (GetImage pd ns)) as [out| |e']; cbn.
  - split; [discriminate | now intros [? _]].
  - split; [discriminate | now intros [? _]].
  - destruct (exn_eqb e' CalledProcessError) eqn:E.
    + apply exn_eqb_eq in E. subst e'.
      split; [discriminate | intros [[= <-] H]; now elim H].
    + split.
      * intros [= ->]. split; [reflexivity|].
        intros ->. discriminate E.
      * now intros [[= ->] _].
Qed.

Lemma lookup_allocated_memory_raises e :
  k (GetMemoryRequest pd ns) = Raises e -> e <> CalledProcessError ->
  lookup_allocated_memory k ns pd = Raise e.
Proof.
  unfold lookup_allocated_memory, run. intros -> H. cbn.
  now rewrite (exn_eqb_neq _ _ H).
Qed.

Lemma lookup_allocated_memory_failed :
  k (GetMemoryRequest pd ns) = ExitNonZero -> lookup_allocated_memory k ns pd = Ok 0.
Proof. unfold lookup_allocated_memory, run. now intros ->. Qed.

Lemma lookup_allocated_memory_empty out :
  k (GetMemoryRequest pd ns) = Exit0 out -> Str.strip out = "" ->
  lookup_allocated_memory k ns pd = Ok 0.
Proof.
  unfold lookup_allocated_memory, run. intros -> H.
  cbn [bind]. now rewrite H.
Qed.

Lemma first_token_picked out t :
  first_token out t ->
  Str.nonempty (Str.strip out) = true
  /\ exists ps, Str.split_ws (Str.strip out) = t :: ps.
Proof.
  intros [Ht Hout].
  assert (Hn : Str.nonempty t = true)
    by (unfold is_token in Ht; now apply andb_true_iff in Ht as [? _]).
  destruct Hout as [-> | (w & s & Hw & ->)].
  - rewrite (split_ws_single t Ht). split; [|eauto].
    rewrite strip_no_space; [exact Hn|].
    unfold is_token in Ht. now apply andb_true_iff in Ht as [_ ?].
  - split; [|now apply split_ws_first].
    rewrite (strip_token t _ Ht). destruct t; [discriminate | reflexivity].
Qed.

(** Only the first token of the output counts. *)
Lemma lookup_allocated_memory_first out t :
  k (GetMemoryRequest pd ns) = Exit0 out -> first_token out t ->
  lookup_allocated_memory k ns pd
  = try_except (memory_request_value t) CalledProcessError (Ok 0).
Proof.
  intros E Hf. destruct (first_token_picked out t Hf) as [Hn [ps Hps]].
  unfold lookup_allocated_memory, run. rewrite E. cbn [bind].
  rewrite Hn, Hps. reflexivity.
Qed.

Lemma lookup_allocated_memory_unit out ds u :
  k (GetMemoryRequest pd ns) = Exit0 out ->
  is_decimal ds = true -> first_token out (ds ++ suffix u) ->
  lookup_allocated_memory k ns pd
  = Ok (match u with
        | Mi => decimal_value ds
        | Gi => decimal_value ds * 1024
        | Ki => decimal_value ds / 1024
        end).
Proof.
  intros E Hdec Hf. rewrite (lookup_allocated_memory_first out _ E Hf).
  unfold memory_request_value.
  destruct u; unfold suffix; token_eval; rewrite int_decimal by exact Hdec;
    reflexivity.
Qed.

End Lookups.

Lemma append_same_l t x : (t ++ x)%string = t -> x = "".
Proof.
  induction t as [|c t IH]; simpl; [auto|].
  intros H. injection H. exact IH.
Qed.

(** C6, as the claim has it, fails: on a machine where [kubectl] cannot
    be started the lookup fails with an OSError, which the image lookup
    raises to its caller instead of returning ["unknown"], and which the
    requested-memory lookup raises instead of returning 0. *)
Lemma lookup_raises_when_not_started :
  Sample.not_installed (GetImage "web-1" "default") = Raises OSError
  /\ lookup_pod_image Sample.not_installed "default" "web-1" = Raise OSError
  /\ lookup_pod_image Sample.not_installed "default" "web-1" <> Ok "unknown"
  /\ lookup_allocated_memory Sample.not_installed "default" "web-1" = Raise OSError
  /\ lookup_allocated_memory Sample.not_installed "default" "web-1" <> Ok 0.
Proof. repeat split; try reflexivity; discriminate. Qed.

(** C6, amended.  The image lookup returns ["unknown"] when the command
    exits with a non-zero status, and raises exactly what
    [subprocess.run] itself raises, CalledProcessError apart.  The
    requested-memory lookup returns 0 when the command exits with a
    non-zero status and when it succeeds with an empty result, and lets
    the same exceptions through; otherwise, on a result whose first
    token is a number with a binary suffix, it returns the number
    unchanged for [Mi], multiplied by 1024 for [Gi] and divided by 1024
    for [Ki]. *)
Theorem lookup_fallbacks (k : cluster) (ns pd : string) :
  (k (GetImage pd ns) = ExitNonZero -> lookup_pod_image k ns pd = Ok "unknown")
  /\ (forall e,
        lookup_pod_image k ns pd = Raise e
        <-> k (GetImage pd ns) = Raises e /\ e <> CalledProcessError)
  /\ (k (GetMemoryRequest pd ns) = ExitNonZero ->
      lookup_allocated_memory k ns pd = Ok 0)
  /\ (forall out,
        k (GetMemoryRequest pd ns) = Exit0 out -> Str.strip out = "" ->
        lookup_allocated_memory k ns pd = Ok 0)
  /\ (forall e,
        k (GetMemoryRequest pd ns) = Raises e -> e <> CalledProcessError ->
        lookup_allocated_memory k ns pd = Raise e)
  /\ (forall out ds u,
        k (GetMemoryRequest pd ns) = Exit0 out ->
        Spec.is_decimal ds = true ->
        Spec.first_token out (ds ++ Spec.suffix u) ->
        lookup_allocated_memory k ns pd
        = Ok (match u with
              | Spec.Mi => Spec.decimal_value ds
              | Spec.Gi => Spec.decimal_value ds * 1024
              | Spec.Ki => Spec.decimal_value ds / 1024
              end)).
Proof.
  split; [apply lookup_pod_image_failed|].
  split; [apply lookup_pod_image_raises|].
  split; [apply lookup_allocated_memory_failed|].
  split; [apply lookup_allocated_memory_empty|].
  split; [apply lookup_allocated_memory_raises|].
  apply lookup_allocated_memory_unit.
Qed.

Lemma lookup_fallbacks_witness :
  lookup_pod_image Sample.unreachable "default" "web-1" = Ok "unknown"
  /\ lookup_pod_image Sample.not_installed "default" "web-1" = Raise OSError
  /\ lookup_allocated_memory Sample.unreachable "default" "web-1" = Ok 0
  /\ lookup_allocated_memory Sample.no_request "default" "web-1" = Ok 0
  /\ lookup_allocated_memory Sample.not_installed "default" "web-1" = Raise OSError
  /\ lookup_allocated_memory Sample.two_containers "default" "web-1" = Ok 1024.
Proof.
  pose proof (lookup_fallbacks Sample.unreachable "default" "web-1")
    as (Hi & _ & Hm & _).
  pose proof (lookup_fallbacks Sample.no_request "default" "web-1")
    as (_ & _ & _ & He & _).
  pose proof (lookup_fallbacks Sample.not_installed "default" "web-1")
    as (_ & Hr & _ & _ & Hn & _).
  pose proof (lookup_fallbacks Sample.two_containers "default" "web-1")
    as (_ & _ & _ & _ & _ & Hu).
  split; [exact (Hi eq_refl)|].
  split; [apply Hr; split; [reflexivity | discriminate]|].
  split; [exact (Hm eq_refl)|].
  split; [exact (He "" eq_refl eq_refl)|].
  split; [apply Hn; [reflexivity | discriminate]|].
  refine (Hu "1Gi 64Mi" "1" Spec.Gi eq_refl eq_refl _).
  split; [reflexivity|].
  right. exists " "%char, "64Mi". split; reflexivity.
Defined.

(** C7, as the claim has it, fails: for a pod with two containers the
    image lookup returns both images, not the first one. *)
Lemma image_lookup_not_first_token :
  Spec.first_token "nginx:1.0 sidecar:2.0" "nginx:1.0"
  /\ Sample.two_containers (GetImage "web-1" "default") = Exit0 "nginx:1.0 sidecar:2.0"
  /\ lookup_pod_image Sample.two_containers "default" "web-1"
     = Ok "nginx:1.0 sidecar:2.0"
  /\ lookup_pod_image Sample.two_containers "default" "web-1" <> Ok "nginx:1.0".
Proof.
  split.
  { split; [reflexivity|].
    right. exists " "%char, "sidecar:2.0". split; reflexivity. }
  repeat split; try reflexivity.
  vm_compute. discriminate.
Qed.

(** C7, amended.  A successful image lookup returns the whole result,
    stripped of surrounding white space: when the result holds several
    values separated by white space, all of them are in the image and it
    is not the first token.  Only the requested-memory lookup uses the
    first token of its result: it returns what it would return if the
    command had printed that token alone. *)
Theorem image_lookup_whole_result (k : cluster) (ns pd out : string) :
  k (GetImage pd ns) = Exit0 out ->
  lookup_pod_image k ns pd = Ok (Str.strip out)
  /\ (forall t w u rest,
        Spec.is_token t = true -> Str.isspace w = true -> Spec.is_token u = true ->
        out = (t ++ String w (u ++ rest))%string ->
        lookup_pod_image k ns pd <> Ok t)
  /\ (forall mout t,
        k (GetMemoryRequest pd ns) = Exit0 mout -> Spec.first_token mout t ->
        lookup_allocated_memory k ns pd
        = lookup_allocated_memory (fun _ => Exit0 t) ns pd).
Proof.
  intros E. rewrite (lookup_pod_image_completed k ns pd out E).
  split; [reflexivity|]. split.
  - intros t w u rest Ht Hw Hu -> H. injection H as H.
    rewrite (strip_token t _ Ht) in H. apply append_same_l in H.
    cbn [Str.rstrip] in H.
    assert (Hu' : Spec.no_space u = true)
      by (unfold Spec.is_token in Hu; now apply andb_true_iff in Hu as [_ ?]).
    rewrite (rstrip_app u rest Hu') in H.
    destruct u as [|x u]; [discriminate|]. discriminate.
  - intros mout t Em Hf.
    rewrite (lookup_allocated_memory_first k ns pd mout t Em Hf).
    symmetry. apply (lookup_allocated_memory_first _ ns pd t t eq_refl).
    destruct Hf as [Ht _]. split; [exact Ht | now left].
Qed.

Lemma image_lookup_whole_result_witness :
  Sample.two_containers (GetImage "web-1" "default") = Exit0 "nginx:1.0 sidecar:2.0"
  /\ lookup_pod_image Sample.two_containers "default" "web-1"
     = Ok "nginx:1.0 sidecar:2.0"
  /\ lookup_allocated_memory Sample.two_containers "default" "web-1"
     = lookup_allocated_memory (fun _ => Exit0 "1Gi") "default" "web-1".
Proof.
  split; [reflexivity|].
  pose proof (image_lookup_whole_result Sample.two_containers "default" "web-1"
                "nginx:1.0 sidecar:2.0" eq_refl) as (Hi & _ & Hm).
  split; [exact Hi|].
  refine (Hm "1Gi 64Mi" "1Gi" eq_refl _).
  split; [reflexivity|].
  right. exists " "%char, "64Mi". split; reflexivity.
Defined.

(** ** The sampler *)

Section Loops.

Context {A S : Type}.

Lemma for_each_app (xs ys : list A) (body : A -> S -> result S) (s : S) :
  for_each (xs ++ ys) body s = (s' <- for_each xs body s ;; for_each ys body s').
Proof.
  revert s. induction xs as [|x xs IH]; intros s; [reflexivity|].
  simpl. destruct (body x s); simpl; [apply IH | reflexivity].
Qed.

(** A loop one of whose turns raises, whatever the state it is entered
    with, raises. *)
Lemma for_each_raises (xs : list A) (body : A -> S -> result S) (s : S) :
  Exists (fun x => forall s, exists e, body x s = Raise e) xs ->
  exists e, for_each xs body s = Raise e.
Proof.
  intros H. revert s. induction H as [x xs Hx | x xs _ IH]; intros s.
  - destruct (Hx s) as [e He]. simpl. rewrite He. simpl. eauto.
  - simpl. destruct (body x s) as [s'|e]; simpl; [apply IH | eauto].
Qed.

End Loops.

(** A loop that only appends what each element contributes. *)
Lemma for_each_appends {A B : Type} (f : A -> list B)
    (body : A -> list B -> result (list B)) (xs : list A) (acc : list B) :
  (forall x acc, body x acc = Ok (acc ++ f x)) ->
  for_each xs body acc = Ok (acc ++ flat_map f xs).
Proof.
  intros Hb. revert acc. induction xs as [|x xs IH]; intros acc; simpl.
  - now rewrite app_nil_r.
  - rewrite Hb. simpl. rewrite IH. now rewrite <- app_assoc.
Qed.

Section PodPath.

Variable k : cluster.
Variable ts : Num.float.

(** [process_pod_metrics] catches whatever its body raises. *)
Lemma process_pod_metrics_total ns pd cpu memory :
  exists r, process_pod_metrics k ts ns pd cpu memory = Ok r.
Proof.
  unfold process_pod_metrics.
  destruct (_ <- pod_cpu cpu ;; _) as [r|e]; simpl; eauto.
Qed.

Lemma process_pod_metrics_malformed ns pd cpu memory :
  (exists e, pod_cpu cpu = Raise e) \/ (exists e, pod_memory memory = Raise e) ->
  process_pod_metrics k ts ns pd cpu memory = Ok None.
Proof.
  unfold process_pod_metrics. intros [[e H] | [e H]].
  - now rewrite H.
  - rewrite H. now destruct (pod_cpu cpu).
Qed.

Lemma submit_pod_line_appends line futures :
  submit_pod_line k ts line futures = Ok (futures ++ Spec.submitted k ts line).
Proof.
  unfold submit_pod_line, Spec.submitted.
  destruct (Str.re_split_ws line) as [|a [|b [|c [|d [|e l]]]]];
    now rewrite ?app_nil_r.
Qed.

Lemma gather_submitted lines acc :
  for_each (flat_map (Spec.submitted k ts) lines) gather_future acc
  = Ok (acc ++ flat_map (Spec.pod_line_rows k ts) lines).
Proof.
  revert acc. induction lines as [|line lines IH]; intros acc; simpl.
  - now rewrite app_nil_r.
  - rewrite for_each_app.
    assert (H : for_each (Spec.submitted k ts line) gather_future acc
                = Ok (acc ++ Spec.pod_line_rows k ts line)).
    { unfold Spec.submitted, Spec.pod_line_rows.
      destruct (Str.re_split_ws line) as [|a [|b [|c [|d [|e l]]]]];
        simpl; rewrite ?app_nil_r; try reflexivity.
      destruct (process_pod_metrics_total a b c d) as [[row|] ->]; simpl;
        now rewrite ?app_nil_r. }
    rewrite H. simpl. rewrite IH. now rewrite <- app_assoc.
Qed.

(** The pod path never raises: each line after the header contributes
    its row or nothing, whatever the other lines hold. *)
Lemma parse_pod_metrics_rows output df :
  parse_pod_metrics k output ts df
  = Ok (df ++ flat_map (Spec.pod_line_rows k ts) (Spec.data_lines output)).
Proof.
  unfold parse_pod_metrics, Spec.data_lines.
  rewrite (for_each_appends (Spec.submitted k ts)) by apply submit_pod_line_appends.
  simpl. now rewrite gather_submitted.
Qed.

(** A line with a malformed quantity contributes no row. *)
Lemma pod_line_malformed line ns pd cpu memory rest :
  Str.re_split_ws line = ns :: pd :: cpu :: memory :: rest ->
  (exists e, pod_cpu cpu = Raise e) \/ (exists e, pod_memory memory = Raise e) ->
  Spec.pod_line_rows k ts line = [].
Proof.
  intros E H. unfold Spec.pod_line_rows. rewrite E.
  destruct rest; [reflexivity|].
  now rewrite process_pod_metrics_malformed.
Qed.

End PodPath.

Section NodePath.

Variable ts : Num.float.

(** Whether a line of the node usage text raises does not depend on the
    rows parsed before it. *)
Lemma parse_node_line_raises line e :
  parse_node_line ts line [] = Raise e ->
  forall acc, parse_node_line ts line acc = Raise e.
Proof.
  unfold parse_node_line. intros H acc.
  destruct (Str.re_split_ws line) as [|a [|b [|c l]]]; try discriminate.
  destruct (node_cpu b); simpl in *; [|exact H].
  destruct (node_memory c); simpl in *; [discriminate | exact H].
Qed.

(** One malformed line after the header makes the whole node path
    raise: nothing is added for the text, not even its well-formed
    lines. *)
Lemma parse_node_metrics_raises output df :
  Exists (fun line => exists e, parse_node_line ts line [] = Raise e)
         (Spec.data_lines output) ->
  exists e, parse_node_metrics output ts df = Raise e.
Proof.
  intros H. unfold parse_node_metrics.
  destruct (for_each_raises (Spec.data_lines output) (parse_node_line ts) [])
    as [e He].
  - eapply Exists_impl; [|exact H].
    intros line [e He] acc. exists e. now apply parse_node_line_raises.
  - exists e. unfold Spec.data_lines in He. now rewrite He.
Qed.

End NodePath.

Section Cycle.

Variable t : tick.
Variable st : store.

(** A fetch whose command exits with a non-zero status gives the empty
    text, and its branch is skipped; what else [subprocess.run] raises
    goes through the fetch. *)
Lemma collect_node_metrics_cases :
  collect_node_metrics (kube t)
  = match Shape.escaping (kube t TopNodes) with
    | Some e => Raise e
    | None => Ok (Shape.fetched (kube t TopNodes))
    end.
Proof.
  unfold collect_node_metrics, run.
  destruct (kube t TopNodes) as [out| |e]; try reflexivity.
  cbn. now destruct (exn_eqb e CalledProcessError).
Qed.

Lemma collect_pod_metrics_cases :
  collect_pod_metrics (kube t)
  = match Shape.escaping (kube t TopPods) with
    | Some e => Raise e
    | None => Ok (Shape.fetched (kube t TopPods))
    end.
Proof.
  unfold collect_pod_metrics, run.
  destruct (kube t TopPods) as [out| |e]; try reflexivity.
  cbn. now destruct (exn_eqb e CalledProcessError).
Qed.

(** An exception leaves a turn of the loop from a fetch that lets one
    out or from the node path; the pod path, which catches what its
    lookups raise, lets none out.  The store is then as the turn found
    it. *)
Lemma cycle_escape e :
  snd (cycle t st) = Some e ->
  fst (cycle t st) = st
  /\ (Shape.escaping (kube t TopNodes) = Some e
      \/ Shape.escaping (kube t TopPods) = Some e
      \/ parse_node_metrics (Shape.fetched (kube t TopNodes)) (now t)
                            (node_metrics_df st) = Raise e).
Proof.
  unfold cycle. rewrite collect_node_metrics_cases, collect_pod_metrics_cases.
  destruct (Shape.escaping (kube t TopNodes)) as [en|]; cbn [bind].
  { cbn [snd fst]. intros [= ->]. auto. }
  destruct (Shape.escaping (kube t TopPods)) as [ep|]; cbn [bind].
  { cbn [snd fst]. intros [= ->]. auto. }
  set (node_output := Shape.fetched (kube t TopNodes)).
  set (pod_output := Shape.fetched (kube t TopPods)).
  destruct (Str.nonempty node_output) eqn:Hn.
  - destruct (parse_node_metrics node_output (now t) (node_metrics_df st))
      as [nodes|e'] eqn:Ep.
    + rewrite parse_pod_metrics_rows.
      destruct (Str.nonempty pod_output); cbn [snd]; discriminate.
    + cbn [snd fst]. intros [= ->]. auto.
  - rewrite parse_pod_metrics_rows.
    destruct (Str.nonempty pod_output); cbn [snd]; discriminate.
Qed.

Lemma cycle_node_fetch_failed :
  kube t TopNodes = ExitNonZero -> Shape.escaping (kube t TopPods) = None ->
  snd (cycle t st) = None.
Proof.
  intros En Ep. destruct (snd (cycle t st)) as [e|] eqn:H; [|reflexivity].
  apply cycle_escape in H as (_ & [H | [H | H]]).
  - rewrite En in H. discriminate.
  - congruence.
  - rewrite En in H. discriminate.
Qed.

End Cycle.

(** C5 holds on the pod path and fails on the node path.  Of a node
    usage text with the token ["abc"] in one row, the node path appends
    nothing, not even the well-formed rows, and the exception leaves the
    turn of the loop; of a pod usage text with the same token in one row,
    the pod path drops that row and keeps the rows before and after it
    (the last row of the text, which [strip] leaves with four parts, is
    not retained, malformed token or not). *)
Theorem node_path_malformed_token_raises :
  parse_node_metrics Sample.node_text_abc Sample.t0 [] = Raise ValueError
  /\ cycle (mkTick Sample.t0 (Sample.serving Sample.node_text_abc Sample.pod_text_abc))
           Sample.empty_store
     = (Sample.empty_store, Some ValueError)
  /\ parse_node_line Sample.t0 "node1 250m 12% 1024Mi 50%" []
     = Ok [mkNodeSample Sample.t0 "node1" 250 12]
  /\ parse_node_line Sample.t0 "node2 abc 3% 2048Mi 25%" [] = Raise ValueError
  /\ parse_pod_metrics (Sample.serving Sample.node_text_abc Sample.pod_text_abc)
       Sample.pod_text_abc Sample.t0 []
     = Ok [mkPodSample Sample.t0 "web-1" "default" 250 64 "nginx:1.0";
           mkPodSample Sample.t0 "web-3" "default" 100 2 "nginx:1.0"].
Proof. repeat split; vm_compute; reflexivity. Qed.

(** C8 fails on the node path.  With a node whose metrics are missing in
    the first turn, the ValueError of [int] leaves [collect_metrics]: the
    loop ends there, the store is as it was, and the second turn, whose
    texts are all well formed, is never run.  The same two turns in the
    other order complete the first and end in the second. *)
Theorem collector_ends_on_malformed_node_line :
  collect_metrics
    [mkTick Sample.t0 (Sample.serving Sample.node_text_unknown Sample.pod_text_abc);
     mkTick Sample.t0 (Sample.serving Sample.node_text_good Sample.pod_text_abc)]
    Sample.empty_store
  = (Sample.empty_store, Some ValueError)
  /\ collect_metrics
       [mkTick Sample.t0 (Sample.serving Sample.node_text_good Sample.pod_text_abc);
        mkTick Sample.t0 (Sample.serving Sample.node_text_unknown Sample.pod_text_abc)]
       Sample.empty_store
     = (mkStore
          [mkNodeSample Sample.t0 "node1" 250 12]
          [mkPodSample Sample.t0 "web-1" "default" 250 64 "nginx:1.0";
           mkPodSample Sample.t0 "web-3" "default" 100 2 "nginx:1.0"],
        Some ValueError).
Proof. split; vm_compute; reflexivity. Qed.

(** An exception that leaves a turn ends the loop, whatever the turns
    that would have followed. *)
Lemma collect_metrics_ends t ticks st st' e :
  cycle t st = (st', Some e) -> collect_metrics (t :: ticks) st = (st', Some e).
Proof. intros H. simpl. now rewrite H. Qed.

(** Outside the node path, and as long as [kubectl] can be started, the
    loop does go on: when the fetch of the node usage fails with a
    non-zero status in every turn and the fetch of the pod usage lets no
    exception out, every turn given is completed. *)
Lemma collect_metrics_without_node_text ticks st :
  Forall (fun t => kube t TopNodes = ExitNonZero
                   /\ Shape.escaping (kube t TopPods) = None) ticks ->
  snd (collect_metrics ticks st) = None.
Proof.
  intros H. revert st.
  induction H as [|t ticks [Hn Hp] _ IH]; intros st; [reflexivity|].
  simpl. pose proof (cycle_node_fetch_failed t st Hn Hp) as Hc.
  destruct (cycle t st) as [st' [e|]]; [discriminate | apply IH].
Qed.

(** ** The recommendation report *)

Section Unique.

Lemma existsb_eqb_In x seen : existsb (String.eqb x) seen = true <-> In x seen.
Proof.
  rewrite existsb_exists. split.
  - intros (y & Hy & E). apply String.eqb_eq in E. now subst.
  - intros H. exists x. split; [exact H | apply String.eqb_refl].
Qed.

Lemma unique_from_In seen xs x :
  In x (unique_from seen xs) <-> In x xs /\ ~ In x seen.
Proof.
  revert seen. induction xs as [|y xs IH]; intros seen; simpl; [tauto|].
  destruct (existsb (String.eqb y) seen) eqn:E.
  - apply existsb_eqb_In in E. rewrite IH. split.
    + tauto.
    + intros [[-> | H] Hn]; tauto.
  - assert (Hy : ~ In y seen).
    { intros H. apply existsb_eqb_In in H. congruence. }
    simpl. rewrite IH. simpl. split.
    + intros [-> | [H Hn]]; [tauto|]. split; [tauto|]. intros H'. apply Hn. now right.
    + intros [[-> | H] Hn]; [tauto|].
      destruct (String.eqb_spec x y) as [->|Hne]; [tauto|].
      right. split; [exact H|]. intros [E' | H']; [congruence | tauto].
Qed.

Lemma unique_from_NoDup seen xs : NoDup (unique_from seen xs).
Proof.
  revert seen. induction xs as [|y xs IH]; intros seen; simpl; [constructor|].
  destruct (existsb (String.eqb y) seen); [apply IH|].
  constructor; [|apply IH].
  rewrite unique_from_In. simpl. tauto.
Qed.

(** [unique] lists every value of the column, once. *)
Lemma unique_In xs x : In x (unique xs) <-> In x xs.
Proof. unfold unique. rewrite unique_from_In. simpl. tauto. Qed.

Lemma unique_NoDup xs : NoDup (unique xs).
Proof. apply unique_from_NoDup. Qed.

End Unique.

Section Maximum.

Import Spec.

Lemma max_of_ge x xs : x <= Num.max_of x xs /\ Forall (fun y => y <= Num.max_of x xs) xs.
Proof.
  unfold Num.max_of. revert x. induction xs as [|y xs IH]; intros x; simpl.
  - split; [lia | constructor].
  - destruct (IH (Z.max x y)) as [H1 H2]. split; [lia|].
    constructor; [lia | exact H2].
Qed.

Lemma max_of_In x xs : In (Num.max_of x xs) (x :: xs).
Proof.
  unfold Num.max_of. revert x. induction xs as [|y xs IH]; intros x; simpl.
  - now left.
  - destruct (IH (Z.max x y)) as [H | H].
    + rewrite <- H. destruct (Z.max_spec x y) as [[_ E] | [_ E]];
        [right; left | left]; lia.
    + auto.
Qed.

(** The fold that takes the greatest value gives the maximum of the
    column. *)
Lemma max_of_is_max x xs : is_max (Num.max_of x xs) (x :: xs).
Proof.
  split; [apply max_of_In|].
  destruct (max_of_ge x xs). now constructor.
Qed.

Lemma is_max_unique m m' xs : is_max m xs -> is_max m' xs -> m = m'.
Proof.
  intros [Hi Hf] [Hi' Hf']. rewrite Forall_forall in Hf, Hf'.
  specialize (Hf _ Hi'). specialize (Hf' _ Hi). lia.
Qed.


End Maximum.

(** ** The range of [float] *)

Section FloatRange.

Import Spec.

Lemma digits2_pos_iter_xO p n :
  Zpos (digits2_pos (Pos.iter xO p n)) = Zpos (digits2_pos p) + Zpos n.
Proof.
  induction n as [|n IH] using Pos.peano_ind.
  - cbn [Pos.iter digits2_pos]. lia.
  - rewrite Pos.iter_succ. cbn [digits2_pos]. lia.
Qed.

Lemma digits2_pos_le p k : Zpos p < 2 ^ k -> 0 <= k -> Zpos (digits2_pos p) <= k.
Proof.
  revert k. induction p as [p IH|p IH|]; intros k H Hk; cbn [digits2_pos].
  - assert (0 < k) by (destruct (Z.eq_dec k 0) as [->|]; [simpl in H; lia | lia]).
    replace k with (Z.succ (k - 1)) in H by lia.
    rewrite Z.pow_succ_r in H by lia.
    specialize (IH (k - 1)). lia.
  - assert (0 < k) by (destruct (Z.eq_dec k 0) as [->|]; [simpl in H; lia | lia]).
    replace k with (Z.succ (k - 1)) in H by lia.
    rewrite Z.pow_succ_r in H by lia.
    specialize (IH (k - 1)). lia.
  - assert (0 < k) by (destruct (Z.eq_dec k 0) as [->|]; [simpl in H; lia | lia]).
    lia.
Qed.











End FloatRange.

(** ** Sums of doubles

    Adding the doubles of integers is exact as long as the magnitudes of
    the integers add up to less than 2^53, whatever the order in which
    they are added: on such a column [Series.mean] is the correctly
    rounded quotient of the sum by the number of rows. *)

Section ExactSums.

Import Binary64.

Lemma iter_xO_value p n : Zpos (Pos.iter xO p n) = Zpos p * 2 ^ Zpos n.
Proof.
  induction n as [|n IH] using Pos.peano_ind.
  - cbn [Pos.iter]. lia.
  - rewrite Pos.iter_succ, Pos2Z.inj_succ, Z.pow_succ_r by lia.
    rewrite Pos2Z.inj_xO, IH. lia.
Qed.

Lemma shl_value p n : 0 <= n -> Zpos (shl p n) = Zpos p * 2 ^ n.
Proof.
  intros H. destruct n as [|n|n]; [simpl; lia | apply iter_xO_value | lia].
Qed.

Lemma shl_unique p q n : 0 <= n -> Zpos q = Zpos p * 2 ^ n -> q = shl p n.
Proof.
  intros H E. rewrite <- (shl_value p n H) in E. now injection E.
Qed.

Lemma shl_digits p n :
  0 <= n -> Zpos (digits2_pos (shl p n)) = Zpos (digits2_pos p) + n.
Proof.
  intros H. destruct n as [|n|n]; [simpl; lia | apply digits2_pos_iter_xO | lia].
Qed.

Lemma shl_shl p a b : 0 <= a -> 0 <= b -> shl (shl p a) b = shl p (a + b).
Proof.
  intros Ha Hb. apply shl_unique; [lia|].
  rewrite !shl_value by lia. rewrite Z.pow_add_r by lia. lia.
Qed.

Lemma shr_1_double m : 0 <= m -> shr_1 (exact_record (2 * m)) = exact_record m.
Proof. destruct m as [|p|p]; [reflexivity | reflexivity | lia]. Qed.

Lemma pow2_xO n : 2 ^ Zpos n~0 = 2 ^ Zpos n * 2 ^ Zpos n.
Proof. rewrite <- Z.pow_add_r by lia. f_equal. lia. Qed.

Lemma pow2_xI n : 2 ^ Zpos n~1 = 2 * (2 ^ Zpos n * 2 ^ Zpos n).
Proof.
  rewrite <- Z.pow_add_r, <- Z.pow_succ_r by lia. f_equal. lia.
Qed.

Lemma iter_shr_1_exact n m :
  0 <= m ->
  iter_pos shr_1 n (exact_record (m * 2 ^ Zpos n)) = exact_record m.
Proof.
  revert m. induction n as [n IH|n IH|]; intros m Hm; cbn [iter_pos].
  - assert (Hp : 0 < 2 ^ Zpos n) by (apply Z.pow_pos_nonneg; lia).
    replace (m * 2 ^ Zpos n~1) with (2 * ((m * 2 ^ Zpos n) * 2 ^ Zpos n))
      by (rewrite pow2_xI; lia).
    rewrite shr_1_double by nia. rewrite IH by nia. now apply IH.
  - assert (Hp : 0 < 2 ^ Zpos n) by (apply Z.pow_pos_nonneg; lia).
    replace (m * 2 ^ Zpos n~0) with ((m * 2 ^ Zpos n) * 2 ^ Zpos n)
      by (rewrite pow2_xO; lia).
    rewrite IH by nia. now apply IH.
  - change (2 ^ 1) with 2. replace (m * 2) with (2 * m) by lia.
    now apply shr_1_double.
Qed.

(** A mantissa of 53 digits at an exponent in range is left as it is. *)
Lemma binary_round_aux_canonical s m e :
  Zpos (digits2_pos m) = 53 -> -1074 <= e <= 971 ->
  binary_round_aux 53 1024 s (Zpos m) e loc_Exact = S754_finite s m e.
Proof.
  intros Hd He. unfold binary_round_aux, shr_fexp, fexp, emin.
  cbn [Zdigits2 shr_record_of_loc]. rewrite Hd.
  replace (Z.max (53 + e - 53) (3 - 1024 - 53) - e) with 0 by lia.
  cbn [shr shr_m loc_of_shr_record round_nearest_even Zdigits2].
  rewrite Hd.
  replace (Z.max (53 + e - 53) (3 - 1024 - 53) - e) with 0 by lia.
  cbn [shr shr_m].
  replace (e <=? 1024 - 53) with true by (symmetry; apply Z.leb_le; lia).
  reflexivity.
Qed.

(** Rounding [p * 2^k] at the exponent [-k] gives the canonical form
    of [p], when [p] has at most 53 digits. *)
Lemma binary_round_shifted s p k :
  Zpos (digits2_pos p) <= 53 -> 0 <= k ->
  binary_round 53 1024 s (shl p k) (- k) = canon s p.
Proof.
  intros Hd Hk. unfold binary_round, canon.
  set (d := Zpos (digits2_pos p)) in *.
  assert (Hd1 : 1 <= d) by (unfold d; lia).
  rewrite shl_digits by lia. fold d.
  unfold fexp, emin.
  replace (Z.max (d + k + - k - 53) (3 - 1024 - 53)) with (d - 53) by lia.
  unfold shl_align.
  destruct (d - 53 - - k) as [|n|n] eqn:En.
  - (* already at the exponent *)
    assert (k = 53 - d) by lia. subst k.
    replace (- (53 - d)) with (d - 53) by lia.
    apply binary_round_aux_canonical; [|lia].
    rewrite shl_digits by lia. fold d. lia.
  - (* too many digits: shifted right, exactly *)
    unfold binary_round_aux, shr_fexp, fexp, emin.
    cbn [Zdigits2 shr_record_of_loc]. rewrite shl_digits by lia. fold d.
    replace (Z.max (d + k + - k - 53) (3 - 1024 - 53) - - k) with (Zpos n) by lia.
    cbn [shr].
    assert (E : Zpos (shl p k) = Zpos (shl p (53 - d)) * 2 ^ Zpos n).
    { rewrite !shl_value by lia. rewrite <- Z.mul_assoc, <- Z.pow_add_r by lia.
      do 2 f_equal. lia. }
    fold (exact_record (Zpos (shl p k))). rewrite E.
    rewrite iter_shr_1_exact by lia.
    cbn [exact_record shr_m loc_of_shr_record round_nearest_even Zdigits2].
    rewrite shl_digits by lia. fold d.
    replace (Z.max (d + (53 - d) + (- k + Zpos n) - 53) (3 - 1024 - 53)
             - (- k + Zpos n)) with 0 by lia.
    cbn [shr shr_m].
    replace (- k + Zpos n <=? 1024 - 53) with true
      by (symmetry; apply Z.leb_le; lia).
    f_equal. lia.
  - (* too few digits: shifted left *)
    fold (shl (shl p k) (Zpos n)). rewrite shl_shl by lia.
    replace (k + Zpos n) with (53 - d) by lia.
    apply binary_round_aux_canonical; [|lia].
    rewrite shl_digits by lia. fold d. lia.
Qed.

(** The double of an integer below 2^53 in magnitude: the integer
    itself, in canonical form. *)
Lemma float64_pos p : Zpos p < 2 ^ 53 -> Num.float64 (Zpos p) = canon false p.
Proof.
  intros H. unfold Num.float64. cbn [binary_normalize].
  apply (binary_round_shifted false p 0); [|lia].
  apply digits2_pos_le; [exact H | lia].
Qed.

Lemma float64_neg p : Zpos p < 2 ^ 53 -> Num.float64 (Zneg p) = canon true p.
Proof.
  intros H. unfold Num.float64. cbn [binary_normalize].
  apply (binary_round_shifted true p 0); [|lia].
  apply digits2_pos_le; [exact H | lia].
Qed.

(** The value of the canonical form, scaled to the exponent [- k]. *)
Lemma canon_aligned (p : positive) k :
  Zpos (digits2_pos p) <= 53 -> 53 - Zpos (digits2_pos p) <= k ->
  Zpos (fst (shl_align (shl p (53 - Zpos (digits2_pos p)))
                       (Zpos (digits2_pos p) - 53) (- k)))
  = Zpos p * 2 ^ k.
Proof.
  intros Hd Hk. set (d := Zpos (digits2_pos p)) in *.
  unfold shl_align. destruct (- k - (d - 53)) as [|n|n] eqn:En; cbn [fst].
  - rewrite shl_value by lia. do 2 f_equal. lia.
  - lia.
  - fold (shl (shl p (53 - d)) (Zpos n)). rewrite shl_shl by lia.
    rewrite shl_value by lia. do 2 f_equal. lia.
Qed.

Lemma float64_signed s p : Zpos p < 2 ^ 53 -> Num.float64 (signed s p) = canon s p.
Proof. destruct s; [apply float64_neg | apply float64_pos]. Qed.

Lemma add_canon s p s' q :
  Zpos p < 2 ^ 53 -> Zpos q < 2 ^ 53 ->
  Z.abs (signed s p + signed s' q) < 2 ^ 53 ->
  Num.add (canon s p) (canon s' q) = Num.float64 (signed s p + signed s' q).
Proof.
  intros Hp Hq Hs.
  pose proof (digits2_pos_le p 53 Hp ltac:(lia)) as Dp.
  pose proof (digits2_pos_le q 53 Hq ltac:(lia)) as Dq.
  unfold Num.add, canon. cbn [SFadd].
  pose proof (Pos2Z.is_pos (digits2_pos p)) as Pp.
  pose proof (Pos2Z.is_pos (digits2_pos q)) as Pq.
  set (k := - Z.min (Zpos (digits2_pos p) - 53) (Zpos (digits2_pos q) - 53)).
  replace (Z.min (Zpos (digits2_pos p) - 53) (Zpos (digits2_pos q) - 53))
    with (- k) by (unfold k; lia).
  assert (Hk : 0 <= k) by (unfold k; lia).
  rewrite (canon_aligned p k) by (unfold k; lia).
  rewrite (canon_aligned q k) by (unfold k; lia).
  assert (E : cond_Zopp s (Zpos p * 2 ^ k) + cond_Zopp s' (Zpos q * 2 ^ k)
              = (signed s p + signed s' q) * 2 ^ k).
  { destruct s, s'; cbn [cond_Zopp signed]; lia. }
  rewrite E. clear E.
  assert (Hpow : 0 < 2 ^ k) by (apply Z.pow_pos_nonneg; lia).
  destruct (signed s p + signed s' q) as [|r|r] eqn:Er.
  - reflexivity.
  - assert (Hr : Zpos r < 2 ^ 53) by lia.
    rewrite (float64_pos r Hr).
    destruct (Zpos r * 2 ^ k) as [|m|m] eqn:Em; try lia.
    cbn [binary_normalize].
    rewrite (shl_unique r m k Hk (eq_sym Em)).
    apply binary_round_shifted; [|exact Hk].
    apply digits2_pos_le; [exact Hr | lia].
  - assert (Hr : Zpos r < 2 ^ 53) by lia.
    rewrite (float64_neg r Hr).
    destruct (Zneg r * 2 ^ k) as [|m|m] eqn:Em; try lia.
    cbn [binary_normalize].
    assert (Em' : Zpos m = Zpos r * 2 ^ k) by lia.
    rewrite (shl_unique r m k Hk Em').
    apply binary_round_shifted; [|exact Hk].
    apply digits2_pos_le; [exact Hr | lia].
Qed.

(** Adding the doubles of two integers is exact as long as the integers
    and their sum are below 2^53 in magnitude. *)
Lemma add_float64 a b :
  Z.abs a < 2 ^ 53 -> Z.abs b < 2 ^ 53 -> Z.abs (a + b) < 2 ^ 53 ->
  Num.add (Num.float64 a) (Num.float64 b) = Num.float64 (a + b).
Proof.
  intros Ha Hb Hs.
  destruct a as [|p|p].
  - change (Num.float64 0) with (S754_zero false). rewrite Z.add_0_l.
    destruct b as [|q|q]; [reflexivity| |].
    + rewrite float64_pos by lia. reflexivity.
    + rewrite float64_neg by lia. reflexivity.
  - destruct b as [|q|q].
    + rewrite Z.add_0_r. rewrite float64_pos by lia. reflexivity.
    + rewrite !float64_pos by lia. apply (add_canon false p false q); cbn [signed]; lia.
    + rewrite float64_pos, float64_neg by lia. apply (add_canon false p true q); cbn [signed]; lia.
  - destruct b as [|q|q].
    + rewrite Z.add_0_r. rewrite float64_neg by lia. reflexivity.
    + rewrite float64_pos, float64_neg by lia. apply (add_canon true p false q); cbn [signed]; lia.
    + rewrite !float64_neg by lia. apply (add_canon true p true q); cbn [signed]; lia.
Qed.

Lemma add_neg_zero_l y : Num.add Num.neg_zero y = y.
Proof. destruct y as [[]|[]| |s m e]; reflexivity. Qed.

Lemma add_neg_zero_r x : Num.add x Num.neg_zero = x.
Proof. destruct x as [[]|[]| |s m e]; reflexivity. Qed.

Lemma exactly_sums_to x z w : exactly x z w -> sums_to x z w.
Proof. intros (A & B & C). repeat split; auto. Qed.

Lemma exactly_leaf z : exactly (Num.float64 z) z (Z.abs z).
Proof. repeat split; lia. Qed.

Lemma sums_to_leaf z : sums_to (Num.float64 z) z (Z.abs z).
Proof. apply exactly_sums_to, exactly_leaf. Qed.

Lemma sums_to_neg_zero : sums_to Num.neg_zero 0 0.
Proof. repeat split; try lia. now right. Qed.

Lemma sums_to_add x y z z' w w' :
  sums_to x z w -> sums_to y z' w' -> sums_to (Num.add x y) (z + z') (w + w').
Proof.
  intros (A & B & C) (A' & B' & C'). split; [lia|]. split; [lia|].
  intros H. destruct C as [-> | [-> ->]]; [lia| |].
  - destruct C' as [-> | [-> ->]]; [lia| |].
    + left. apply add_float64; lia.
    + left. rewrite add_neg_zero_r. f_equal. lia.
  - rewrite add_neg_zero_l. destruct C' as [-> | [-> ->]]; [lia|now left|now right].
Qed.

Lemma exactly_add x y z z' w w' :
  exactly x z w -> sums_to y z' w' -> exactly (Num.add x y) (z + z') (w + w').
Proof.
  intros (A & B & C) (A' & B' & C'). split; [lia|]. split; [lia|].
  intros H. rewrite C by lia. destruct C' as [-> | [-> ->]]; [lia| |].
  - apply add_float64; lia.
  - rewrite add_neg_zero_r. f_equal. lia.
Qed.

Lemma sums_to_fold zs acc z w :
  sums_to acc z w ->
  sums_to (fold_left Num.add (map Num.float64 zs) acc) (z + Spec.total zs) (w + Spec.abs_total zs).
Proof.
  revert acc z w. induction zs as [|y zs IH]; intros acc z w H; cbn [map fold_left Spec.total Spec.abs_total].
  - now rewrite !Z.add_0_r.
  - rewrite !Z.add_assoc. apply IH. apply sums_to_add; [exact H | apply sums_to_leaf].
Qed.

Lemma sums_to_eq x z w z' w' : sums_to x z w -> z = z' -> w = w' -> sums_to x z' w'.
Proof. now intros H <- <-. Qed.

Lemma block_sum_short r a :
  (List.length a < 8)%nat ->
  Num.block_sum r a
  = let '(r0, r1, r2, r3, r4, r5, r6, r7) := r in
    fold_left Num.add a
      (Num.add (Num.add (Num.add r0 r1) (Num.add r2 r3)) (Num.add (Num.add r4 r5) (Num.add r6 r7))).
Proof.
  intros H. unfold Num.block_sum.
  destruct a as [|a0 [|a1 [|a2 [|a3 [|a4 [|a5 [|a6 [|a7 a']]]]]]]];
    try reflexivity.
  cbn [List.length] in H. lia.
Qed.

Lemma block_sum_step r0 r1 r2 r3 r4 r5 r6 r7 a0 a1 a2 a3 a4 a5 a6 a7 a' :
  Num.block_sum (r0, r1, r2, r3, r4, r5, r6, r7)
            (a0 :: a1 :: a2 :: a3 :: a4 :: a5 :: a6 :: a7 :: a')
  = Num.block_sum (Num.add r0 a0, Num.add r1 a1, Num.add r2 a2, Num.add r3 a3,
               Num.add r4 a4, Num.add r5 a5, Num.add r6 a6, Num.add r7 a7) a'.
Proof. reflexivity. Qed.

Lemma sums_to_block n : forall zs r z w,
  (List.length zs <= n)%nat ->
  lanes_sum r z w ->
  sums_to (Num.block_sum r (map Num.float64 zs)) (z + Spec.total zs) (w + Spec.abs_total zs).
Proof.
  induction n as [n IH] using lt_wf_ind. intros zs r z w Hn Hr.
  destruct r as [[[[[[[r0 r1] r2] r3] r4] r5] r6] r7].
  destruct Hr as (z0 & z1 & z2 & z3 & z4 & z5 & z6 & z7
                  & w0 & w1 & w2 & w3 & w4 & w5 & w6 & w7
                  & (H0 & H1 & H2 & H3) & (H4 & H5 & H6 & H7) & -> & ->).
  destruct (Nat.lt_ge_cases (List.length zs) 8) as [Hs | Hl].
  - rewrite block_sum_short by now rewrite length_map.
    apply sums_to_fold.
    eapply sums_to_eq;
      [exact (sums_to_add _ _ _ _ _ _
                (sums_to_add _ _ _ _ _ _ (sums_to_add _ _ _ _ _ _ H0 H1)
                                         (sums_to_add _ _ _ _ _ _ H2 H3))
                (sums_to_add _ _ _ _ _ _ (sums_to_add _ _ _ _ _ _ H4 H5)
                                         (sums_to_add _ _ _ _ _ _ H6 H7)))
      | lia | lia].
  - destruct zs as [|y0 [|y1 [|y2 [|y3 [|y4 [|y5 [|y6 [|y7 zs']]]]]]]];
      cbn [List.length] in Hl; try lia.
    cbn [map]. rewrite block_sum_step.
    cbn [List.length] in Hn.
    eapply sums_to_eq.
    + apply (IH (List.length zs')); [lia | reflexivity |].
      do 16 eexists.
      split; [|split; [|split; reflexivity]].
      * refine (conj _ (conj _ (conj _ _)));
          (apply sums_to_add; [eassumption | apply sums_to_leaf]).
      * refine (conj _ (conj _ (conj _ _)));
          (apply sums_to_add; [eassumption | apply sums_to_leaf]).
    + cbn [Spec.total]. lia.
    + cbn [Spec.abs_total]. lia.
Qed.

Lemma total_app xs ys : Spec.total (xs ++ ys) = Spec.total xs + Spec.total ys.
Proof. induction xs as [|x xs IH]; cbn [app Spec.total]; lia. Qed.

Lemma abs_total_app xs ys : Spec.abs_total (xs ++ ys) = Spec.abs_total xs + Spec.abs_total ys.
Proof. induction xs as [|x xs IH]; cbn [app Spec.abs_total]; lia. Qed.

Lemma total_rev xs : Spec.total (rev xs) = Spec.total xs.
Proof. induction xs as [|x xs IH]; cbn [rev Spec.total]; [reflexivity|]. rewrite total_app. cbn [Spec.total]. lia. Qed.

Lemma abs_total_rev xs : Spec.abs_total (rev xs) = Spec.abs_total xs.
Proof. induction xs as [|x xs IH]; cbn [rev Spec.abs_total]; [reflexivity|]. rewrite abs_total_app. cbn [Spec.abs_total]. lia. Qed.

Lemma sums_to_pairwise_rec depth : forall zs,
  sums_to (Num.pairwise_sum_rec depth (map Num.float64 zs)) (Spec.total zs) (Spec.abs_total zs).
Proof.
  assert (Hblock : forall y0 y1 y2 y3 y4 y5 y6 y7 zs',
             sums_to (Num.block_sum (Num.float64 y0, Num.float64 y1, Num.float64 y2, Num.float64 y3,
                                 Num.float64 y4, Num.float64 y5, Num.float64 y6, Num.float64 y7)
                                (map Num.float64 zs'))
                     (Spec.total (y0 :: y1 :: y2 :: y3 :: y4 :: y5 :: y6 :: y7 :: zs'))
                     (Spec.abs_total (y0 :: y1 :: y2 :: y3 :: y4 :: y5 :: y6 :: y7 :: zs'))).
  { intros. eapply sums_to_eq.
    - apply (sums_to_block (List.length zs')); [reflexivity|].
      exists y0, y1, y2, y3, y4, y5, y6, y7,
        (Z.abs y0), (Z.abs y1), (Z.abs y2), (Z.abs y3),
        (Z.abs y4), (Z.abs y5), (Z.abs y6), (Z.abs y7).
      split; [|split; [|split; reflexivity]];
        refine (conj _ (conj _ (conj _ _))); apply sums_to_leaf.
    - cbn [Spec.total]. lia.
    - cbn [Spec.abs_total]. lia. }
  induction depth as [|depth IH]; intros zs.
  - destruct zs as [|y0 [|y1 [|y2 [|y3 [|y4 [|y5 [|y6 [|y7 zs']]]]]]]];
      try (change (Spec.total ?l) with (0 + Spec.total l);
           change (Spec.abs_total ?l) with (0 + Spec.abs_total l);
           apply (sums_to_fold _ Num.neg_zero 0 0), sums_to_neg_zero).
    apply Hblock.
  - destruct zs as [|y0 [|y1 [|y2 [|y3 [|y4 [|y5 [|y6 [|y7 zs']]]]]]]];
      try (change (Spec.total ?l) with (0 + Spec.total l);
           change (Spec.abs_total ?l) with (0 + Spec.abs_total l);
           apply (sums_to_fold _ Num.neg_zero 0 0), sums_to_neg_zero).
    set (zs := y0 :: y1 :: y2 :: y3 :: y4 :: y5 :: y6 :: y7 :: zs').
    change (Num.pairwise_sum_rec (S depth) (map Num.float64 zs))
      with (let n := List.length (map Num.float64 zs) in
            if (n <=? Num.PW_BLOCKSIZE)%nat
            then Num.block_sum (Num.float64 y0, Num.float64 y1, Num.float64 y2, Num.float64 y3,
                            Num.float64 y4, Num.float64 y5, Num.float64 y6, Num.float64 y7)
                           (map Num.float64 zs')
            else
              let n2 := (n / 2 - (n / 2) mod 8)%nat in
              Num.add (Num.pairwise_sum_rec depth (firstn n2 (map Num.float64 zs)))
                  (Num.pairwise_sum_rec depth (skipn n2 (map Num.float64 zs)))).
    cbv zeta. destruct (_ <=? _)%nat; [apply Hblock|].
    rewrite firstn_map, skipn_map.
    set (n2 := (_ - _)%nat).
    eapply sums_to_eq; [apply sums_to_add; apply IH | |].
    + rewrite <- total_app. now rewrite firstn_skipn.
    + rewrite <- abs_total_app. now rewrite firstn_skipn.
Qed.

Lemma sums_to_pairwise zs :
  sums_to (Num.pairwise_sum (map Num.float64 zs)) (Spec.total zs) (Spec.abs_total zs).
Proof. apply sums_to_pairwise_rec. Qed.

Lemma exactly_add_reduce_from zs : forall bzs room acc z w,
  exactly acc z w ->
  exactly (Num.add_reduce_from (map Num.float64 zs) (map Num.float64 bzs) room acc)
          (z + Spec.total bzs + Spec.total zs) (w + Spec.abs_total bzs + Spec.abs_total zs).
Proof.
  assert (Hflush : forall bzs acc z w,
             exactly acc z w ->
             exactly (Num.add acc (Num.pairwise_sum (rev (map Num.float64 bzs))))
                     (z + Spec.total bzs) (w + Spec.abs_total bzs)).
  { intros bzs acc z w H. rewrite <- map_rev.
    rewrite <- (total_rev bzs), <- (abs_total_rev bzs).
    apply exactly_add; [exact H | apply sums_to_pairwise]. }
  induction zs as [|y zs IH]; intros bzs room acc z w H.
  - cbn [map Num.add_reduce_from Spec.total Spec.abs_total]. rewrite !Z.add_0_r.
    destruct bzs as [|b bzs].
    + cbn [map Spec.total Spec.abs_total]. now rewrite !Z.add_0_r.
    + change (match map Num.float64 (b :: bzs) with
              | [] => acc
              | _ :: _ => Num.add acc (Num.pairwise_sum (rev (map Num.float64 (b :: bzs))))
              end)
        with (Num.add acc (Num.pairwise_sum (rev (map Num.float64 (b :: bzs))))).
      now apply Hflush.
  - cbn [map Num.add_reduce_from]. destruct room as [|room].
    + change [Num.float64 y] with (map Num.float64 [y]).
      destruct (IH [y] (Num.NPY_BUFSIZE - 1)%nat _ _ _ (Hflush bzs acc z w H))
        as (A & B & C).
      cbn [Spec.total Spec.abs_total] in *. repeat split; try lia.
      intros Hw. etransitivity; [apply C; lia|]. f_equal. lia.
    + change (Num.float64 y :: map Num.float64 bzs) with (map Num.float64 (y :: bzs)).
      destruct (IH (y :: bzs) room acc z w H) as (A & B & C).
      cbn [Spec.total Spec.abs_total] in *. repeat split; try lia.
      intros Hw. etransitivity; [apply C; lia|]. f_equal. lia.
Qed.

Lemma add_reduce_exact zs :
  Spec.abs_total zs < 2 ^ 53 -> Num.add_reduce (map Num.float64 zs) = Num.float64 (Spec.total zs).
Proof.
  intros H. unfold Num.add_reduce.
  destruct (exactly_add_reduce_from zs [] Num.NPY_BUFSIZE (S754_zero false) 0 0)
    as (_ & _ & C).
  - repeat split; lia.
  - cbn [Spec.total Spec.abs_total] in C. apply C. lia.
Qed.

Lemma float64_positive n :
  0 < n < 2 ^ 53 -> SFltb (S754_zero false) (Num.float64 n) = true.
Proof.
  intros H. destruct n as [|p|p]; try lia.
  rewrite float64_pos by lia. reflexivity.
Qed.

(** As long as the magnitudes of a column Num.add up to less than 2^53,
    its Num.mean is the correctly rounded quotient of its sum by the number
    of its rows. *)
Lemma mean_exact xs :
  xs <> [] -> Z.of_nat (List.length xs) < 2 ^ 53 -> Spec.abs_total xs < 2 ^ 53 ->
  Num.mean xs = Spec.mean xs.
Proof.
  intros Hne Hn Hs. unfold Num.mean, Spec.mean.
  rewrite float64_positive, add_reduce_exact; [reflexivity | exact Hs |].
  destruct xs; [congruence|]. split; [|exact Hn]. cbn [List.length]. lia.
Qed.

(** The bound on the nested cuts of [pairwise_sum] is never reached:
    past the length of the values, one more level changes nothing. *)
Lemma pairwise_depth_enough depth : forall a,
  (List.length a <= depth + Num.PW_BLOCKSIZE)%nat ->
  Num.pairwise_sum_rec (S depth) a = Num.pairwise_sum_rec depth a.
Proof.
  induction depth as [|depth IH]; intros a Hn.
  - destruct a as [|a0 [|a1 [|a2 [|a3 [|a4 [|a5 [|a6 [|a7 a']]]]]]]];
      try reflexivity.
    set (l := a0 :: a1 :: a2 :: a3 :: a4 :: a5 :: a6 :: a7 :: a') in *.
    change (Num.pairwise_sum_rec 1 l)
      with (if (List.length l <=? Num.PW_BLOCKSIZE)%nat
            then Num.block_sum (a0, a1, a2, a3, a4, a5, a6, a7) a'
            else
              let n2 := (List.length l / 2 - (List.length l / 2) mod 8)%nat in
              Num.add (Num.pairwise_sum_rec 0 (firstn n2 l))
                  (Num.pairwise_sum_rec 0 (skipn n2 l))).
    cbn [Nat.add] in Hn. apply Nat.leb_le in Hn. now rewrite Hn.
  - destruct a as [|a0 [|a1 [|a2 [|a3 [|a4 [|a5 [|a6 [|a7 a']]]]]]]];
      try reflexivity.
    set (l := a0 :: a1 :: a2 :: a3 :: a4 :: a5 :: a6 :: a7 :: a') in *.
    change (Num.pairwise_sum_rec (S (S depth)) l)
      with (if (List.length l <=? Num.PW_BLOCKSIZE)%nat
            then Num.block_sum (a0, a1, a2, a3, a4, a5, a6, a7) a'
            else
              let n2 := (List.length l / 2 - (List.length l / 2) mod 8)%nat in
              Num.add (Num.pairwise_sum_rec (S depth) (firstn n2 l))
                  (Num.pairwise_sum_rec (S depth) (skipn n2 l))).
    change (Num.pairwise_sum_rec (S depth) l)
      with (if (List.length l <=? Num.PW_BLOCKSIZE)%nat
            then Num.block_sum (a0, a1, a2, a3, a4, a5, a6, a7) a'
            else
              let n2 := (List.length l / 2 - (List.length l / 2) mod 8)%nat in
              Num.add (Num.pairwise_sum_rec depth (firstn n2 l))
                  (Num.pairwise_sum_rec depth (skipn n2 l))).
    destruct (List.length l <=? Num.PW_BLOCKSIZE)%nat eqn:E; [reflexivity|].
    apply Nat.leb_gt in E. cbv zeta.
    set (n := List.length l) in *. unfold Num.PW_BLOCKSIZE in *.
    assert (H2 : (n / 2 <= n - 65)%nat).
    { pose proof (Nat.div_mod_eq n 2). lia. }
    assert (H8 : ((n / 2) mod 8 < 8)%nat) by (apply Nat.mod_upper_bound; lia).
    assert (Hd : (64 <= n / 2)%nat).
    { pose proof (Nat.div_mod_eq n 2).
      pose proof (Nat.mod_upper_bound n 2). lia. }
    assert (Hm : ((n / 2) mod 8 <= n / 2)%nat) by (apply Nat.Div0.mod_le).
    rewrite !IH; [reflexivity | |].
    + rewrite length_skipn. fold n. lia.
    + rewrite length_firstn. fold n. lia.
Qed.

Lemma pairwise_depth_irrelevant more : forall depth a,
  (List.length a <= depth + Num.PW_BLOCKSIZE)%nat ->
  Num.pairwise_sum_rec (more + depth) a = Num.pairwise_sum_rec depth a.
Proof.
  induction more as [|more IH]; intros depth a H; [reflexivity|].
  cbn [Nat.add]. rewrite pairwise_depth_enough by lia. now apply IH.
Qed.

End ExactSums.

(** Splits a hypothesis [(x <- m ;; k) = Ok y] into the two steps. *)
Ltac bind_ok H :=
  match type of H with
  | bind ?m _ = Ok _ =>
      let E := fresh "E" in
      destruct m eqn:E; cbn [bind] in H; [|discriminate H]
  end.

Section Arithmetic.

Import Spec.



Lemma truediv_total a b x y :
  Num.to_float a = Ok x -> Num.to_float b = Ok y -> Num.is_zero y = false ->
  Num.truediv a b = Ok (Num.Float (SFdiv Num.prec Num.emax x y)).
Proof. unfold Num.truediv. intros -> -> H. cbn [bind]. now rewrite H. Qed.

Lemma truediv_lit_0_9 a x :
  Num.to_float a = Ok x ->
  Num.truediv a (Num.Float Num.lit_0_9)
  = Ok (Num.Float (SFdiv Num.prec Num.emax x Num.lit_0_9)).
Proof. intros H. now apply truediv_total. Qed.







End Arithmetic.

Section Groups.

Import Spec.

(** The group the program selects for an image is the group of the
    specification. *)
Lemma select_image_samples_of table img :
  select_image table img = samples_of img table.
Proof.
  unfold select_image. induction table as [|row table IH]; [reflexivity|].
  cbn [filter samples_of].
  destruct (string_dec (image row) img) as [E|E].
  - apply String.eqb_eq in E. rewrite E. now rewrite IH.
  - apply String.eqb_neq in E. now rewrite E.
Qed.

Lemma filter_all {A : Type} (f : A -> bool) (l : list A) :
  (forall a, In a l -> f a = true) -> filter f l = l.
Proof.
  induction l as [|a l IH]; intros H; [reflexivity|].
  cbn [filter]. rewrite (H a (or_introl eq_refl)).
  f_equal. apply IH. intros b Hb. apply H. now right.
Qed.

Lemma filter_remove_seen (x : string) seen l :
  filter (fun y => negb (existsb (String.eqb y) (x :: seen))) l
  = filter (fun y => negb (existsb (String.eqb y) seen)) (remove string_dec x l).
Proof.
  induction l as [|y l IH]; [reflexivity|].
  cbn [filter remove]. rewrite IH.
  change (existsb (String.eqb y) (x :: seen))
    with (String.eqb y x || existsb (String.eqb y) seen).
  destruct (string_dec x y) as [E|E].
  - subst y. now rewrite String.eqb_refl.
  - assert (E' : String.eqb y x = false) by (apply String.eqb_neq; congruence).
    rewrite E'. reflexivity.
Qed.

Lemma filter_remove_absorbed (x : string) seen l :
  In x seen ->
  filter (fun y => negb (existsb (String.eqb y) seen)) l
  = filter (fun y => negb (existsb (String.eqb y) seen)) (remove string_dec x l).
Proof.
  intros Hx. induction l as [|y l IH]; [reflexivity|].
  cbn [remove filter]. destruct (string_dec x y) as [<-|N].
  - assert (Ex : existsb (String.eqb x) seen = true) by now apply existsb_eqb_In.
    rewrite Ex. exact IH.
  - cbn [filter]. now rewrite IH.
Qed.

Lemma unique_from_distinct seen xs :
  unique_from seen xs
  = filter (fun y => negb (existsb (String.eqb y) seen)) (distinct xs).
Proof.
  revert seen. induction xs as [|x xs IH]; intros seen; [reflexivity|].
  cbn [unique_from distinct filter].
  destruct (existsb (String.eqb x) seen) eqn:E; cbn [negb].
  - rewrite IH. apply filter_remove_absorbed. now apply existsb_eqb_In.
  - f_equal. rewrite IH. apply filter_remove_seen.
Qed.

(** The images the program loops over are the distinct images of the
    specification. *)
Lemma unique_distinct xs : unique xs = distinct xs.
Proof.
  unfold unique. rewrite unique_from_distinct. now apply filter_all.
Qed.


Lemma total_le_abs_total xs : Z.abs (total xs) <= abs_total xs.
Proof. induction xs as [|x xs IH]; cbn [total abs_total]; lia. Qed.


(** A group does not weigh more than its table. *)
Lemma abs_total_filter {A : Type} (f : A -> Z) (p : A -> bool) (l : list A) :
  abs_total (map f (filter p l)) <= abs_total (map f l).
Proof.
  induction l as [|a l IH]; [reflexivity|].
  cbn [filter map abs_total]. destruct (p a); cbn [map abs_total]; lia.
Qed.

End Groups.

Section Report.

Import Spec.

Variable k : cluster.
Variable table : list PodSample.

(** One turn of the loop of [get_report] appends one record, the one of
    the image, made by the formulas. *)
Lemma report_image_record img acc acc' :
  report_image k table img acc = Ok acc' ->
  exists r,
    acc' = acc ++ [r] /\ r_image r = img
    /\ follows_formulas k (select_image table img) r
    /\ requested_cpu r = max_cpu r.
Proof.
  unfold report_image. intros H.
  destruct (select_image table img) as [|first rest] eqn:Es; [discriminate|].
  do 5 bind_ok H. injection H as <-.
  eexists. split; [reflexivity|]. cbn.
  repeat split; try assumption; try apply (max_of_is_max _ (map _ rest)).
  exists first, rest. split; [reflexivity | assumption].
Qed.


(** The whole loop: one record for each image it is run over, in that
    order. *)
Lemma report_loop imgs acc report :
  for_each imgs (report_image k table) acc = Ok report ->
  exists rs,
    report = acc ++ rs /\ map r_image rs = imgs
    /\ Forall (fun r => follows_formulas k (select_image table (r_image r)) r
                        /\ requested_cpu r = max_cpu r) rs.
Proof.
  revert acc. induction imgs as [|img imgs IH]; intros acc H.
  - injection H as <-. exists []. now rewrite app_nil_r.
  - cbn [for_each] in H. bind_ok H.
    apply report_image_record in E as (r & -> & Hi & Hf & Hr).
    apply IH in H as (rs & -> & Hm & HF).
    exists (r :: rs). rewrite <- app_assoc. split; [reflexivity|].
    split; [simpl; congruence|].
    constructor; [subst img; auto | exact HF].
Qed.


(** [get_report] on a table that is not empty runs the loop over the
    distinct images. *)
Lemma get_report_loop :
  table <> [] ->
  get_report k table
  = match for_each (unique (map image table)) (report_image k table) [] with
    | Ok report => Json report
    | Raise e => Text e
    end.
Proof. unfold get_report. destruct table; [congruence | reflexivity]. Qed.

Lemma select_image_In img row :
  In row (select_image table img) <-> In row table /\ image row = img.
Proof.
  unfold select_image. rewrite filter_In.
  now rewrite String.eqb_eq.
Qed.

(** A lookup that raises stops the turn of the loop for its image. *)
Lemma report_image_lookup_raises img first rest e acc :
  select_image table img = first :: rest ->
  lookup_allocated_memory k (namespace first) (pod first) = Raise e ->
  exists e', report_image k table img acc = Raise e'.
Proof.
  intros Es Hl. unfold report_image. rewrite Es. cbv zeta.
  rewrite Hl. cbn [bind]. eauto.
Qed.


(** The records of a report, also for the empty table. *)
Lemma report_records report :
  get_report k table = Json report ->
  map r_image report = unique (map image table)
  /\ Forall (fun r => follows_formulas k (select_image table (r_image r)) r
                      /\ requested_cpu r = max_cpu r) report.
Proof.
  destruct table as [|row table'] eqn:Et.
  - cbn. intros [= <-]. split; [reflexivity | constructor].
  - rewrite <- Et. rewrite get_report_loop by (rewrite Et; discriminate).
    destruct (for_each _ _ _) as [rs|e] eqn:E; [|discriminate].
    intros [= <-]. apply report_loop in E as (rs' & -> & Hm & HF).
    split; assumption.
Qed.

End Report.

Section Moderate.

Import Spec.





End Moderate.




(** Two lists with the same keys whose values are determined by the keys
    have the same values. *)
Lemma map_determined {A B C : Type} (f : A -> B) (g : A -> C) (R : B -> C -> Prop)
    (l l' : list A) :
  (forall b c c', R b c -> R b c' -> c = c') ->
  map f l = map f l' ->
  Forall (fun a => R (f a) (g a)) l -> Forall (fun a => R (f a) (g a)) l' ->
  map g l = map g l'.
Proof.
  intros HR. revert l'. induction l as [|a l IH]; intros [|a' l'] Hm Hl Hl';
    try discriminate; [reflexivity|].
  injection Hm as Hf Hm. inversion_clear Hl. inversion_clear Hl'. simpl.
  f_equal; [|now apply IH].
  apply (HR (f a)); [assumption | now rewrite Hf].
Qed.

(** C10.  On a table that is not empty the report, when it is returned,
    has a record for each distinct image, and in every record the
    requested CPU is the maximum of the CPU of the samples of the image:
    it is the same whatever the cluster answers.  Only the requested
    memory comes from a lookup, the one for the first sample of the
    image. *)
Theorem requested_cpu_is_max_cpu (k : cluster) (table : list PodSample)
    (report : list Recommendation) :
  table <> [] ->
  get_report k table = Json report ->
  map r_image report = Spec.distinct (map image table)
  /\ report <> []
  /\ Forall (fun r =>
               requested_cpu r = max_cpu r
               /\ Spec.is_max (requested_cpu r)
                    (map cpu_cores (Spec.samples_of (r_image r) table))
               /\ exists first rest,
                    Spec.samples_of (r_image r) table = first :: rest
                    /\ lookup_allocated_memory k (namespace first) (pod first)
                       = Ok (requested_memory r))
            report
  /\ (forall k' report',
        get_report k' table = Json report' ->
        map requested_cpu report' = map requested_cpu report).
Proof.
  intros Hne H. apply report_records in H as [Hm HF].
  assert (HF' : Forall (fun r => Spec.is_max (requested_cpu r)
                           (map cpu_cores (Spec.samples_of (r_image r) table)))
                       report).
  { eapply Forall_impl; [|exact HF].
    intros r [(_ & Hx & _) Hr]. rewrite Hr, <- select_image_samples_of. exact Hx. }
  split; [now rewrite <- unique_distinct|]. split.
  { intros ->. destruct table as [|row table']; [congruence | discriminate Hm]. }
  split.
  - eapply Forall_impl; [|exact HF].
    intros r [(_ & Hx & _ & _ & Hl & _) Hr].
    rewrite Hr, <- select_image_samples_of. auto.
  - intros k' report' H'. apply report_records in H' as [Hm' HG].
    apply (map_determined r_image requested_cpu
             (fun img m => Spec.is_max m (map cpu_cores (Spec.samples_of img table)))).
    + intros b c c'. apply is_max_unique.
    + congruence.
    + eapply Forall_impl; [|exact HG].
      intros r [(_ & Hx & _) Hr]. rewrite Hr, <- select_image_samples_of. exact Hx.
    + exact HF'.
Qed.

Lemma requested_cpu_is_max_cpu_witness :
  Sample.nginx_table <> []
  /\ get_report Sample.nginx_cluster Sample.nginx_table = Json [Sample.nginx_record]
  /\ requested_cpu Sample.nginx_record = 300
  /\ Spec.is_max 300 (map cpu_cores (Spec.samples_of "nginx:1.0" Sample.nginx_table))
  /\ forall report',
       get_report Sample.unreachable Sample.nginx_table = Json report' ->
       map requested_cpu report' = [300].
Proof.
  assert (Hne : Sample.nginx_table <> []) by discriminate.
  assert (E : get_report Sample.nginx_cluster Sample.nginx_table
              = Json [Sample.nginx_record]) by (vm_compute; reflexivity).
  destruct (requested_cpu_is_max_cpu Sample.nginx_cluster Sample.nginx_table
              [Sample.nginx_record] Hne E) as (_ & _ & HF & Hk).
  split; [exact Hne|]. split; [exact E|]. split; [reflexivity|].
  split.
  - inversion_clear HF as [|? ? Hr _]. exact (proj1 (proj2 Hr)).
  - intros report'. apply Hk.
Defined.

(** ** The shutdown summary *)

Section Summary.

Import Spec.

Variable k : cluster.
Variable table : list PodSample.

(** One turn of the loop over the images in [summarize_metrics]. *)
Lemma summarize_image_entry img acc acc' :
  summarize_image k table img acc = Ok acc' ->
  exists s,
    acc' = acc ++ [s] /\ s_image s = img
    /\ summary_formulas k (select_image table img) s.
Proof.
  unfold summarize_image. intros H.
  destruct (select_image table img) as [|first rest] eqn:Es; [discriminate|].
  set (mc := Num.max_of (cpu_cores first) (map cpu_cores rest)) in *.
  set (mm := Num.max_of (memory_bytes first) (map memory_bytes rest)) in *.
  do 2 bind_ok H. injection H as <-.
  eexists. split; [reflexivity|]. split; [reflexivity|].
  unfold summary_formulas. cbn [s_max_cpu s_max_memory s_recommended_cpu s_memory].
  split; [apply (max_of_is_max _ (map _ rest))|].
  split; [apply (max_of_is_max _ (map _ rest))|].
  fold mc mm. split.
  - clear E0. revert E. destruct (0 <? mc); intros E.
    + bind_ok E. injection E as <-. eauto.
    + now injection E as <-.
  - clear E. revert E0. destruct (0 <? mm); intros E0.
    + do 3 bind_ok E0. injection E0 as <-.
      exists first, rest. do 3 eexists.
      split; [reflexivity|]. split; [eassumption|]. split; [reflexivity|].
      assumption.
    + now injection E0 as <-.
Qed.

Lemma summary_loop imgs acc printed :
  for_each imgs (summarize_image k table) acc = Ok printed ->
  exists ss,
    printed = acc ++ ss /\ map s_image ss = imgs
    /\ Forall (fun s => summary_formulas k (select_image table (s_image s)) s) ss.
Proof.
  revert acc. induction imgs as [|img imgs IH]; intros acc H.
  - injection H as <-. exists []. now rewrite app_nil_r.
  - cbn [for_each] in H. bind_ok H.
    apply summarize_image_entry in E as (s & -> & Hi & Hf).
    apply IH in H as (ss & -> & Hm & HF).
    exists (s :: ss). rewrite <- app_assoc. split; [reflexivity|].
    split; [simpl; congruence|].
    constructor; [subst img; auto | exact HF].
Qed.

End Summary.

(** The image part of the summary is the loop over the distinct images
    of the pod table. *)
Lemma summarize_metrics_images k st nodes images :
  summarize_metrics k st = Ok (Some (nodes, images)) ->
  match pod_metrics_df st with
  | [] => images = []
  | _ => for_each (unique (map image (pod_metrics_df st)))
                  (summarize_image k (pod_metrics_df st)) [] = Ok images
  end.
Proof.
  unfold summarize_metrics. intros H.
  destruct (node_metrics_df st) as [|n ns]; destruct (pod_metrics_df st) as [|p ps];
    cbv beta iota in H; try discriminate.
  - cbn [bind] in H.
    destruct (for_each _ _ _) as [ss|e]; [|discriminate].
    now inversion H.
  - destruct (for_each _ _ _) as [ns'|e]; [|discriminate].
    cbn [bind] in H. now inversion H.
  - destruct (for_each _ (summarize_node _) _) as [ns'|e]; [|discriminate].
    cbn [bind] in H.
    destruct (for_each _ _ _) as [ss|e]; [|discriminate].
    now inversion H.
Qed.

Lemma Forall2_same_keys {A B K : Type} (f : A -> K) (g : B -> K)
    (P : A -> Prop) (Q : B -> Prop) (R : A -> B -> Prop) (l : list A) (l' : list B) :
  (forall a b, f a = g b -> P a -> Q b -> R a b) ->
  map f l = map g l' -> Forall P l -> Forall Q l' -> Forall2 R l l'.
Proof.
  intros HR. revert l'. induction l as [|a l IH]; intros [|b l'] Hm Hl Hl';
    try discriminate; [constructor|].
  injection Hm as Hk Hm. inversion_clear Hl. inversion_clear Hl'.
  constructor; auto.
Qed.

(** C9, as the claim has it, fails: for the image with CPU 100, 200 and
    300, memory up to 500 and 600 requested, the summary recommends
    300/0.9 for the CPU where the report recommends 200/0.9, and 600*0.9
    for the memory where the report recommends 500/0.9. *)
Lemma summary_recommendation_differs :
  exists r s,
    get_report Sample.nginx_cluster Sample.nginx_table = Json [r]
    /\ summarize_metrics Sample.nginx_cluster (mkStore [] Sample.nginx_table)
       = Ok (Some ([], [s]))
    /\ s_image s = r_image r
    /\ Num.gt0 (Num.Float (avg_cpu r)) = true
    /\ 0 < max_memory r
    /\ Ok (recommended_cpu r) = Num.truediv (Num.Int 200) (Num.Float Num.lit_0_9)
    /\ (x <- Num.truediv (Num.Int 300) (Num.Float Num.lit_0_9) ;; Ok (Some x))
       = Ok (s_recommended_cpu s)
    /\ s_recommended_cpu s <> Some (recommended_cpu r)
    /\ (forall utilization, s_memory s <> Some (utilization, recommended_memory r)).
Proof.
  do 2 eexists.
  split; [vm_compute; reflexivity|].
  split; [vm_compute; reflexivity|].
  cbn [s_image r_image avg_cpu max_memory recommended_cpu s_recommended_cpu
       s_memory recommended_memory].
  repeat split; try (vm_compute; reflexivity).
  - discriminate.
  - intros utilization H. discriminate H.
Qed.

(** C9, amended.  The summary groups the pod samples by image as the
    report does and has the same maxima, but its recommendations follow
    formulas of its own: the recommended CPU is max_cpu / 0.9, given when
    max_cpu > 0, and the recommended memory, given when max_memory > 0, is
    the requested memory * 0.9 when a positive request is found, and
    max_memory / 0.9 otherwise.  So the recommended memory is the one of
    the report when no positive request is found, and the recommended
    CPU is the one of the report when usage is positive and the mean of
    the group is its maximum. *)
Theorem summary_formulas_differ (k : cluster) (st : store)
    (nodes : list NodeSummary) (images : list ImageSummary)
    (report : list Recommendation) :
  summarize_metrics k st = Ok (Some (nodes, images)) ->
  get_report k (pod_metrics_df st) = Json report ->
  Forall2
    (fun s r =>
       s_image s = r_image r
       /\ s_max_cpu s = max_cpu r
       /\ s_max_memory s = max_memory r
       /\ (if 0 <? max_cpu r
           then exists x,
                  Num.truediv (Num.Int (max_cpu r)) (Num.Float Num.lit_0_9) = Ok x
                  /\ s_recommended_cpu s = Some x
           else s_recommended_cpu s = None)
       /\ (if 0 <? max_memory r
           then exists utilization rec,
                  s_memory s = Some (utilization, rec)
                  /\ (if 0 <? requested_memory r
                      then Num.mul (Num.Int (requested_memory r))
                                   (Num.Float Num.lit_0_9) = Ok rec
                      else rec = recommended_memory r)
           else s_memory s = None)
       /\ (0 < max_cpu r ->
           Num.gt0 (Num.Float (avg_cpu r)) = true ->
           Num.float_of_int (max_cpu r) = Ok (avg_cpu r) ->
           s_recommended_cpu s = Some (recommended_cpu r)))
    images report.
Proof.
  intros Hs Hr. apply summarize_metrics_images in Hs.
  destruct (pod_metrics_df st) as [|p ps] eqn:Et.
  { subst images. cbn in Hr. injection Hr as <-. constructor. }
  rewrite <- Et in *.
  assert (Hne : pod_metrics_df st <> []) by (rewrite Et; discriminate).
  rewrite (get_report_loop k _ Hne) in Hr.
  destruct (for_each _ (report_image _ _) _) as [rs|e] eqn:E; [|discriminate].
  injection Hr as <-.
  apply report_loop in E as (rs' & -> & Hm & HF).
  apply summary_loop in Hs as (ss & -> & Hm' & HG). cbn [app].
  eapply Forall2_same_keys; [|rewrite Hm, Hm'; reflexivity | exact HG | exact HF].
  clear. intros s r Hi (Sc & Sm & Scpu & Smem)
    [(Ra & Rc & _ & Rm & (first & rest & Eg & Rl) & Rrc & Rrm & _) _].
  rewrite Hi in *.
  pose proof (is_max_unique _ _ _ Sc Rc) as Ec.
  pose proof (is_max_unique _ _ _ Sm Rm) as Em.
  rewrite Ec, Em in *.
  repeat split; try assumption.
  - destruct (0 <? max_memory r) eqn:G; [|assumption].
    destruct Smem as (first' & rest' & alloc & u & rec & Eg' & Sl & Es & Hrec).
    rewrite Eg in Eg'. injection Eg' as <- <-.
    rewrite Rl in Sl. injection Sl as <-.
    exists u, rec. split; [assumption|].
    destruct (0 <? requested_memory r); [assumption|].
    cbn [Num.gt0] in Rrm. rewrite G in Rrm. congruence.
  - intros Hpos Hg Hf. apply Z.ltb_lt in Hpos. rewrite Hpos in Scpu.
    destruct Scpu as (x & Hx & ->). f_equal.
    rewrite Hg in Rrc.
    rewrite (truediv_lit_0_9 (Num.Int (max_cpu r)) (avg_cpu r) Hf) in Hx.
    rewrite (truediv_lit_0_9 (Num.Float (avg_cpu r)) (avg_cpu r) eq_refl) in Rrc.
    congruence.
Qed.

Lemma summary_formulas_differ_witness :
  exists images report,
    summarize_metrics Sample.nginx_cluster (mkStore [] Sample.nginx_table)
    = Ok (Some ([], images))
    /\ get_report Sample.nginx_cluster Sample.nginx_table = Json report
    /\ Forall2 (fun s r => s_image s = r_image r
                           /\ s_max_cpu s = max_cpu r
                           /\ s_max_memory s = max_memory r) images report.
Proof.
  assert (H1 : exists images,
             summarize_metrics Sample.nginx_cluster (mkStore [] Sample.nginx_table)
             = Ok (Some ([], images))) by (eexists; vm_compute; reflexivity).
  assert (H2 : exists report,
             get_report Sample.nginx_cluster Sample.nginx_table = Json report)
    by (eexists; vm_compute; reflexivity).
  destruct H1 as [images H1]. destruct H2 as [report H2].
  exists images, report. split; [exact H1|]. split; [exact H2|].
  eapply Forall2_impl;
    [|exact (summary_formulas_differ _ (mkStore [] Sample.nginx_table) _ _ _ H1 H2)].
  intros s r (A & B & C & _). auto.
Defined.

(** * Further properties *)

(** ** The pod path, line by line *)

Section PodLines.

Variable k : cluster.
Variable ts : Num.float.

Lemma process_pod_metrics_row ns pd cpu memory row :
  process_pod_metrics k ts ns pd cpu memory = Ok (Some row) ->
  timestamp row = ts /\ namespace row = ns /\ pod row = pd
  /\ pod_cpu cpu = Ok (cpu_cores row) /\ pod_memory memory = Ok (memory_bytes row)
  /\ lookup_pod_image k ns pd = Ok (image row).
Proof.
  unfold process_pod_metrics.
  destruct (pod_cpu cpu) as [c|] eqn:Ec; [|discriminate].
  destruct (pod_memory memory) as [m|] eqn:Em; [|discriminate].
  destruct (lookup_pod_image k ns pd) as [i|] eqn:Ei; [|discriminate].
  cbn. intros [= <-]. cbn. repeat split; reflexivity.
Qed.

Lemma pod_line_rows_at_most_one line :
  (List.length (Spec.pod_line_rows k ts line) <= 1)%nat.
Proof.
  unfold Spec.pod_line_rows.
  destruct (Str.re_split_ws line) as [|a [|b [|c [|d [|e l]]]]]; simpl; try lia.
  destruct (process_pod_metrics k ts a b c d) as [[row|]|]; simpl; lia.
Qed.

Lemma pod_line_rows_shape line row :
  In row (Spec.pod_line_rows k ts line) ->
  timestamp row = ts
  /\ exists rest, Str.re_split_ws line = namespace row :: pod row :: rest.
Proof.
  unfold Spec.pod_line_rows.
  destruct (Str.re_split_ws line) as [|a [|b [|c [|d [|e l]]]]]; try contradiction.
  destruct (process_pod_metrics k ts a b c d) as [[r|]|] eqn:E; try contradiction.
  intros [<- | []]. apply process_pod_metrics_row in E as (Ht & Hn & Hp & _).
  split; [exact Ht|]. rewrite Hn, Hp. eauto.
Qed.

Lemma flat_map_length_le {A B : Type} (f : A -> list B) (l : list A) :
  (forall a, (List.length (f a) <= 1)%nat) ->
  (List.length (flat_map f l) <= List.length l)%nat.
Proof.
  intros Hf. induction l as [|a l IH]; simpl; [lia|].
  rewrite length_app. specialize (Hf a). lia.
Qed.

Lemma pod_line_malformed_no_rows line :
  Shape.pod_line_malformed line = true -> Spec.pod_line_rows k ts line = [].
Proof.
  unfold Shape.pod_line_malformed, Spec.pod_line_rows.
  destruct (Str.re_split_ws line) as [|a [|b [|c [|d rest]]]]; try discriminate.
  intros H. destruct rest; [reflexivity|].
  rewrite process_pod_metrics_malformed; [reflexivity|].
  apply orb_true_iff in H as [H | H]; [left | right].
  - destruct (pod_cpu c); [discriminate | eauto].
  - destruct (pod_memory d); [discriminate | eauto].
Qed.

Lemma flat_map_filter_nil {A B : Type} (f : A -> list B) (p : A -> bool) (l : list A) :
  (forall a, p a = false -> f a = []) ->
  flat_map f (filter p l) = flat_map f l.
Proof.
  intros H. induction l as [|a l IH]; [reflexivity|].
  simpl. destruct (p a) eqn:E; simpl; rewrite IH; [reflexivity|].
  now rewrite (H a E).
Qed.

Lemma pod_line_rows_stamp lines :
  Forall (fun row => timestamp row = ts) (flat_map (Spec.pod_line_rows k ts) lines).
Proof.
  apply Forall_forall. intros row H.
  apply in_flat_map in H as (line & _ & H).
  now apply pod_line_rows_shape in H as [? _].
Qed.

End PodLines.

(** X1.  The pod path never raises.  It keeps the rows the table has and
    appends at most one row for each line after the header; every row it
    appends carries the time stamp of the call and the namespace and the
    pod name of the first two parts of its line. *)
Theorem pod_path_never_raises (k : cluster) (output : string) (ts : Num.float)
    (df : list PodSample) :
  exists rows,
    parse_pod_metrics k output ts df = Ok (df ++ rows)
    /\ (List.length rows <= List.length (Spec.data_lines output))%nat
    /\ Forall (fun row =>
                 timestamp row = ts
                 /\ exists line rest,
                      In line (Spec.data_lines output)
                      /\ Str.re_split_ws line = namespace row :: pod row :: rest)
              rows.
Proof.
  exists (flat_map (Spec.pod_line_rows k ts) (Spec.data_lines output)).
  split; [apply parse_pod_metrics_rows|].
  split; [apply flat_map_length_le, pod_line_rows_at_most_one|].
  apply Forall_forall. intros row Hr.
  apply in_flat_map in Hr as (line & Hl & Hr).
  apply pod_line_rows_shape in Hr as [Ht [rest Hp]].
  split; [exact Ht|]. eauto.
Qed.

(** X2.  Lines of the pod usage text with a quantity that [int] rejects
    are ignored: two texts whose lines after the header differ only by
    such lines give the same table. *)
Theorem malformed_pod_lines_ignored (k : cluster) (output output' : string)
    (ts : Num.float) (df : list PodSample) :
  filter (fun line => negb (Shape.pod_line_malformed line)) (Spec.data_lines output)
  = filter (fun line => negb (Shape.pod_line_malformed line)) (Spec.data_lines output') ->
  parse_pod_metrics k output ts df = parse_pod_metrics k output' ts df.
Proof.
  intros H. rewrite !parse_pod_metrics_rows.
  rewrite <- (flat_map_filter_nil (Spec.pod_line_rows k ts)
                (fun line => negb (Shape.pod_line_malformed line))
                (Spec.data_lines output)).
  - rewrite H. rewrite flat_map_filter_nil; [reflexivity|].
    intros line Hl. apply pod_line_malformed_no_rows.
    now apply negb_false_iff in Hl.
  - intros line Hl. apply pod_line_malformed_no_rows.
    now apply negb_false_iff in Hl.
Qed.

Lemma malformed_pod_lines_ignored_witness :
  filter (fun line => negb (Shape.pod_line_malformed line))
         (Spec.data_lines Sample.pod_text_abc)
  = filter (fun line => negb (Shape.pod_line_malformed line))
           (Spec.data_lines Shape.pod_text_without_abc)
  /\ parse_pod_metrics Sample.nginx_cluster Sample.pod_text_abc Sample.t0 []
     = parse_pod_metrics Sample.nginx_cluster Shape.pod_text_without_abc Sample.t0 [].
Proof.
  assert (H : filter (fun line => negb (Shape.pod_line_malformed line))
                     (Spec.data_lines Sample.pod_text_abc)
              = filter (fun line => negb (Shape.pod_line_malformed line))
                       (Spec.data_lines Shape.pod_text_without_abc))
    by (vm_compute; reflexivity).
  split; [exact H|].
  exact (malformed_pod_lines_ignored Sample.nginx_cluster _ _ Sample.t0 [] H).
Defined.

(** ** The node path, line by line *)

Section NodeLines.

Lemma int_digits_raises s acc b e :
  Str.int_digits s acc b = Raise e -> e = ValueError.
Proof.
  revert acc b. induction s as [|c s IH]; intros acc b; cbn [Str.int_digits].
  - destruct b; [discriminate | congruence].
  - destruct (Str.isdigit c); [apply IH|].
    destruct (Ascii.eqb c "_" && b); [apply IH | congruence].
Qed.

(** [int] raises nothing but ValueError. *)
Lemma int_raises s e : Str.int s = Raise e -> e = ValueError.
Proof.
  unfold Str.int. destruct (Str.strip s) as [|c r]; [congruence|].
  destruct (Ascii.eqb c "+"); [apply int_digits_raises|].
  destruct (Ascii.eqb c "-"); [|apply int_digits_raises].
  destruct (Str.int_digits r 0 false) eqn:E; [discriminate|].
  cbn. intros [= <-]. now apply int_digits_raises in E.
Qed.

Lemma scaled_int_raises s (f : Z -> Z) e :
  (n <- Str.int s ;; Ok (f n)) = Raise e -> e = ValueError.
Proof.
  destruct (Str.int s) eqn:E; [discriminate|].
  cbn. intros [= <-]. now apply int_raises in E.
Qed.

Lemma node_cpu_raises cpu e : node_cpu cpu = Raise e -> e = ValueError.
Proof. unfold node_cpu. destruct (Str.contains "m" cpu); apply int_raises. Qed.

Lemma node_memory_raises memory e : node_memory memory = Raise e -> e = ValueError.
Proof.
  unfold node_memory.
  destruct (Str.contains "Mi" memory); [apply scaled_int_raises|].
  destruct (Str.contains "Gi" memory); [apply scaled_int_raises|].
  destruct (Str.contains "Ki" memory); apply int_raises.
Qed.

Variable ts : Num.float.

(** A line of the node usage text raises ValueError when it is
    malformed, and otherwise appends its row, if it has one. *)
Lemma parse_node_line_cases line acc :
  parse_node_line ts line acc
  = if Shape.node_line_malformed line then Raise ValueError
    else Ok (acc ++ Shape.node_line_rows ts line).
Proof.
  unfold parse_node_line, Shape.node_line_malformed, Shape.node_line_rows.
  destruct (Str.re_split_ws line) as [|a [|b [|c l]]];
    cbn [orb Shape.raises]; rewrite ?app_nil_r; try reflexivity.
  destruct (node_cpu b) as [x|e] eqn:Eb; cbn [bind Shape.raises orb].
  - destruct (node_memory c) as [y|e] eqn:Ec; cbn [bind Shape.raises].
    + reflexivity.
    + now rewrite (node_memory_raises c e Ec).
  - now rewrite (node_cpu_raises b e Eb).
Qed.

Lemma parse_node_lines lines acc :
  for_each lines (parse_node_line ts) acc
  = if existsb Shape.node_line_malformed lines then Raise ValueError
    else Ok (acc ++ flat_map (Shape.node_line_rows ts) lines).
Proof.
  revert acc. induction lines as [|line lines IH]; intros acc; cbn [for_each existsb].
  - simpl. now rewrite app_nil_r.
  - rewrite parse_node_line_cases.
    destruct (Shape.node_line_malformed line); cbn [bind orb]; [reflexivity|].
    rewrite IH. destruct (existsb _ lines); [reflexivity|].
    simpl. now rewrite <- app_assoc.
Qed.

Lemma parse_node_metrics_cases output df :
  parse_node_metrics output ts df
  = if existsb Shape.node_line_malformed (Spec.data_lines output)
    then Raise ValueError
    else Ok (df ++ flat_map (Shape.node_line_rows ts) (Spec.data_lines output)).
Proof.
  unfold parse_node_metrics. fold (Spec.data_lines output).
  rewrite parse_node_lines.
  destruct (existsb _ _); cbn [bind]; [reflexivity|]. reflexivity.
Qed.

Lemma node_line_rows_names lines :
  existsb Shape.node_line_malformed lines = false ->
  map node (flat_map (Shape.node_line_rows ts) lines) = Shape.node_names lines.
Proof.
  unfold Shape.node_names.
  induction lines as [|line lines IH]; [reflexivity|].
  cbn [existsb flat_map]. intros H. apply orb_false_iff in H as [Hl H].
  rewrite map_app, (IH H). f_equal.
  unfold Shape.node_line_malformed, Shape.node_line_rows in *.
  destruct (Str.re_split_ws line) as [|a [|b [|c l]]]; try reflexivity.
  destruct (node_cpu b); destruct (node_memory c); try discriminate.
  reflexivity.
Qed.

Lemma node_line_rows_stamp lines :
  Forall (fun row => node_timestamp row = ts)
         (flat_map (Shape.node_line_rows ts) lines).
Proof.
  apply Forall_forall. intros row H.
  apply in_flat_map in H as (line & _ & H).
  unfold Shape.node_line_rows in H.
  destruct (Str.re_split_ws line) as [|a [|b [|c l]]]; try contradiction.
  destruct (node_cpu b); destruct (node_memory c); try contradiction.
  now destruct H as [<- | []].
Qed.

End NodeLines.

(** X3.  The node path raises exactly when a line after the header has
    at least three parts and a CPU or memory part that [int] rejects, and
    what it raises is ValueError. *)
Theorem node_path_raises_iff_malformed (output : string) (ts : Num.float)
    (df : list NodeSample) :
  (forall e, parse_node_metrics output ts df = Raise e -> e = ValueError)
  /\ (parse_node_metrics output ts df = Raise ValueError
      <-> existsb Shape.node_line_malformed (Spec.data_lines output) = true).
Proof.
  rewrite parse_node_metrics_cases.
  destruct (existsb _ _); split; try split; try congruence; try discriminate.
Qed.

(** X4.  When the node path returns, the table it gives is the old
    table followed by one row for each line after the header that has at
    least three parts, in the order of the lines; each of these rows has
    the first part of its line as node name and the time stamp of the
    call.  Shorter lines are skipped. *)
Theorem node_path_appends_in_order (output : string) (ts : Num.float)
    (df df' : list NodeSample) :
  parse_node_metrics output ts df = Ok df' ->
  exists rows,
    df' = df ++ rows
    /\ map node rows = Shape.node_names (Spec.data_lines output)
    /\ Forall (fun row => node_timestamp row = ts) rows.
Proof.
  rewrite parse_node_metrics_cases.
  destruct (existsb _ _) eqn:E; [discriminate|]. intros [= <-].
  eexists. split; [reflexivity|].
  split; [now apply node_line_rows_names | apply node_line_rows_stamp].
Qed.

Lemma node_path_appends_in_order_witness :
  parse_node_metrics Sample.node_text_good Sample.t0 []
  = Ok [mkNodeSample Sample.t0 "node1" 250 12]
  /\ exists rows,
       [mkNodeSample Sample.t0 "node1" 250 12] = [] ++ rows
       /\ map node rows = Shape.node_names (Spec.data_lines Sample.node_text_good)
       /\ Forall (fun row => node_timestamp row = Sample.t0) rows.
Proof.
  assert (H : parse_node_metrics Sample.node_text_good Sample.t0 []
              = Ok [mkNodeSample Sample.t0 "node1" 250 12])
    by (vm_compute; reflexivity).
  split; [exact H|].
  exact (node_path_appends_in_order Sample.node_text_good Sample.t0 [] _ H).
Defined.

(** ** Texts without data lines *)

Section SingleLine.

Import Str Spec.

Variable c : ascii.

Lemma absent_lstrip s : absent c s = true -> absent c (lstrip s) = true.
Proof.
  induction s as [|x s IH]; [reflexivity|].
  intros H. cbn [lstrip]. destruct (isspace x); [|exact H].
  apply IH. simpl in H. now apply andb_true_iff in H as [_ ?].
Qed.

Lemma absent_rstrip s : absent c s = true -> absent c (rstrip s) = true.
Proof.
  induction s as [|x s IH]; [reflexivity|].
  intros H. simpl in H. apply andb_true_iff in H as [Hx H].
  cbn [rstrip]. specialize (IH H).
  destruct (rstrip s) as [|y r].
  - destruct (isspace x); [reflexivity|]. simpl. now rewrite Hx.
  - cbn [absent]. rewrite Hx. exact IH.
Qed.

Lemma absent_strip s : absent c s = true -> absent c (strip s) = true.
Proof. intros H. now apply absent_rstrip, absent_lstrip. Qed.

Lemma split_on_absent s : absent c s = true -> split_on c s = [s].
Proof.
  induction s as [|x s IH]; [reflexivity|].
  intros H. simpl in H. apply andb_true_iff in H as [Hx H].
  apply negb_true_iff in Hx. cbn [split_on]. now rewrite Hx, (IH H).
Qed.

End SingleLine.

Lemma data_lines_single output :
  Spec.absent Str.LF output = true -> Spec.data_lines output = [].
Proof.
  intros H. unfold Spec.data_lines.
  now rewrite split_on_absent by now apply absent_strip.
Qed.

(** X5.  The first line of a usage text is never read: a text of a
    single line, whatever it holds, adds no row on either path and does
    not raise. *)
Theorem single_line_text_adds_nothing (output : string) (ts : Num.float) :
  Spec.absent Str.LF output = true ->
  (forall df, parse_node_metrics output ts df = Ok df)
  /\ (forall k df, parse_pod_metrics k output ts df = Ok df).
Proof.
  intros H. split.
  - intros df. rewrite parse_node_metrics_cases, (data_lines_single output H).
    simpl. now rewrite app_nil_r.
  - intros k df. rewrite parse_pod_metrics_rows, (data_lines_single output H).
    simpl. now rewrite app_nil_r.
Qed.

Lemma single_line_text_adds_nothing_witness :
  Spec.absent Str.LF "node2 abc <unknown> 12% 50%" = true
  /\ parse_node_metrics "node2 abc <unknown> 12% 50%" Sample.t0 [] = Ok []
  /\ parse_pod_metrics Sample.nginx_cluster "node2 abc <unknown> 12% 50%" Sample.t0 []
     = Ok [].
Proof.
  split; [reflexivity|].
  destruct (single_line_text_adds_nothing "node2 abc <unknown> 12% 50%" Sample.t0
              eq_refl) as [Hn Hp].
  split; [apply Hn | apply Hp].
Defined.

(** ** One turn of the loop *)

Section Turn.

Variable t : tick.
Variable st : store.

(** Skipping the node path for an empty text gives what running it
    would give. *)
Lemma node_branch out :
  (if Str.nonempty out
   then parse_node_metrics out (now t) (node_metrics_df st)
   else Ok (node_metrics_df st))
  = if existsb Shape.node_line_malformed (Spec.data_lines out)
    then Raise ValueError
    else Ok (node_metrics_df st
             ++ flat_map (Shape.node_line_rows (now t)) (Spec.data_lines out)).
Proof.
  destruct out as [|c out]; [cbn; now rewrite app_nil_r|].
  cbn [Str.nonempty]. apply parse_node_metrics_cases.
Qed.

Lemma pod_branch out df :
  (if Str.nonempty out
   then parse_pod_metrics (kube t) out (now t) df
   else Ok df)
  = Ok (df ++ flat_map (Spec.pod_line_rows (kube t) (now t)) (Spec.data_lines out)).
Proof.
  destruct out as [|c out]; [cbn; now rewrite app_nil_r|].
  cbn [Str.nonempty]. apply parse_pod_metrics_rows.
Qed.

(** What a turn does: it ends with the exception of its outcome and
    leaves the store as it was, or it is completed and appends the rows
    of its two texts. *)
Lemma cycle_cases :
  cycle t st
  = match Shape.turn_outcome t with
    | Some e => (st, Some e)
    | None =>
        (mkStore (node_metrics_df st ++ Shape.turn_nodes t)
                 (pod_metrics_df st ++ Shape.turn_pods t), None)
    end.
Proof.
  unfold cycle, Shape.turn_outcome, Shape.turn_nodes, Shape.turn_pods.
  rewrite collect_node_metrics_cases, collect_pod_metrics_cases.
  destruct (Shape.escaping (kube t TopNodes)); cbn [bind]; [reflexivity|].
  destruct (Shape.escaping (kube t TopPods)); cbn [bind]; [reflexivity|].
  rewrite node_branch. destruct (existsb _ _); [reflexivity|].
  cbn [pod_metrics_df]. now rewrite pod_branch.
Qed.

Lemma escaping_raises e :
  e <> CalledProcessError -> Shape.escaping (Raises e) = Some e.
Proof. intros H. cbn. now rewrite (exn_eqb_neq _ _ H). Qed.

End Turn.

(** X6.  A turn in which both fetches fail or print nothing leaves the
    store as it was and raises nothing. *)
Theorem turn_without_text_changes_nothing (t : tick) (st : store) :
  kube t TopNodes = ExitNonZero \/ kube t TopNodes = Exit0 "" ->
  kube t TopPods = ExitNonZero \/ kube t TopPods = Exit0 "" ->
  cycle t st = (st, None).
Proof.
  intros Hn Hp. rewrite cycle_cases.
  unfold Shape.turn_outcome, Shape.turn_nodes, Shape.turn_pods.
  destruct Hn as [-> | ->]; destruct Hp as [-> | ->]; cbn;
    rewrite !app_nil_r; now destruct st.
Qed.

Lemma turn_without_text_changes_nothing_witness :
  (Sample.unreachable TopNodes = ExitNonZero \/ Sample.unreachable TopNodes = Exit0 "")
  /\ (Sample.unreachable TopPods = ExitNonZero \/ Sample.unreachable TopPods = Exit0 "")
  /\ cycle (mkTick Sample.t0 Sample.unreachable) (mkStore [] Sample.nginx_table)
     = (mkStore [] Sample.nginx_table, None).
Proof.
  split; [now left|]. split; [now left|].
  apply (turn_without_text_changes_nothing (mkTick Sample.t0 Sample.unreachable));
    now left.
Defined.

(** X7.  An exception leaves a turn of the loop exactly when a fetch
    lets one out, which it does with whatever [subprocess.run] raises
    apart from CalledProcessError, or when the node usage text of the
    turn has a malformed line, which gives ValueError.  The turn then
    leaves the store as it found it: the pod rows of that turn are not
    appended either.  A turn that is completed appends the rows of its
    two texts. *)
Theorem exception_leaves_turn (t : tick) (st : store) :
  snd (cycle t st) = Shape.turn_outcome t
  /\ (Shape.turn_outcome t <> None -> fst (cycle t st) = st)
  /\ (Shape.turn_outcome t = None ->
      fst (cycle t st)
      = mkStore (node_metrics_df st ++ Shape.turn_nodes t)
                (pod_metrics_df st ++ Shape.turn_pods t))
  /\ (forall e,
        kube t TopNodes = Raises e -> e <> CalledProcessError ->
        cycle t st = (st, Some e))
  /\ (forall e,
        Shape.escaping (kube t TopNodes) = None ->
        kube t TopPods = Raises e -> e <> CalledProcessError ->
        cycle t st = (st, Some e))
  /\ (Shape.escaping (kube t TopNodes) = None ->
      Shape.escaping (kube t TopPods) = None ->
      existsb Shape.node_line_malformed
              (Spec.data_lines (Shape.fetched (kube t TopNodes))) = true ->
      cycle t st = (st, Some ValueError)).
Proof.
  rewrite cycle_cases. repeat split.
  - now destruct (Shape.turn_outcome t).
  - destruct (Shape.turn_outcome t); [reflexivity | congruence].
  - now intros ->.
  - intros e En He. unfold Shape.turn_outcome.
    now rewrite En, (escaping_raises e He).
  - intros e En Ep He. unfold Shape.turn_outcome.
    now rewrite En, Ep, (escaping_raises e He).
  - intros En Ep Hm. unfold Shape.turn_outcome. now rewrite En, Ep, Hm.
Qed.

Lemma exception_leaves_turn_witness :
  cycle (mkTick Sample.t0 (Sample.serving Sample.node_text_unknown
                             Sample.pod_text_abc))
        Sample.empty_store
  = (Sample.empty_store, Some ValueError)
  /\ cycle (mkTick Sample.t0 Sample.not_installed) Sample.empty_store
     = (Sample.empty_store, Some OSError).
Proof.
  split.
  - apply (exception_leaves_turn
             (mkTick Sample.t0 (Sample.serving Sample.node_text_unknown
                                  Sample.pod_text_abc))
             Sample.empty_store); reflexivity.
  - apply (proj1 (proj2 (proj2 (proj2
             (exception_leaves_turn (mkTick Sample.t0 Sample.not_installed)
                Sample.empty_store)))) OSError); [reflexivity | discriminate].
Defined.

(** ** The loop *)

Section Loop.

Lemma completed_turns_outcome ticks :
  Forall (fun t => Shape.turn_outcome t = None) (Shape.completed_turns ticks).
Proof.
  induction ticks as [|t ticks IH]; [constructor|].
  cbn [Shape.completed_turns].
  destruct (Shape.turn_outcome t) eqn:E; [constructor|]. now constructor.
Qed.

Lemma completed_turns_idem ticks :
  Shape.completed_turns (Shape.completed_turns ticks) = Shape.completed_turns ticks.
Proof.
  induction ticks as [|t ticks IH]; [reflexivity|].
  cbn [Shape.completed_turns].
  destruct (Shape.turn_outcome t) eqn:E; [reflexivity|].
  cbn [Shape.completed_turns]. now rewrite E, IH.
Qed.

Lemma collect_metrics_cases ticks st :
  collect_metrics ticks st
  = (mkStore (node_metrics_df st
              ++ flat_map Shape.turn_nodes (Shape.completed_turns ticks))
             (pod_metrics_df st
              ++ flat_map Shape.turn_pods (Shape.completed_turns ticks)),
     Shape.loop_outcome ticks).
Proof.
  revert st. induction ticks as [|t ticks IH]; intros st.
  - cbn. rewrite !app_nil_r. now destruct st.
  - cbn [collect_metrics Shape.completed_turns Shape.loop_outcome].
    rewrite cycle_cases. destruct (Shape.turn_outcome t) as [e|].
    + cbn. rewrite !app_nil_r. now destruct st.
    + rewrite IH. cbn [node_metrics_df pod_metrics_df flat_map].
      now rewrite <- !app_assoc.
Qed.

End Loop.

(** X8.  The loop ends at the first turn that an exception leaves, with
    that exception, and completes every turn it is given when there is
    no such turn.  The turns after the one that ends the loop are not
    run: the store is the one the completed turns leave. *)
Theorem loop_ends_at_first_exception (ticks : list tick) (st : store) :
  snd (collect_metrics ticks st) = Shape.loop_outcome ticks
  /\ fst (collect_metrics ticks st)
     = fst (collect_metrics (Shape.completed_turns ticks) st)
  /\ Forall (fun t => Shape.turn_outcome t = None) (Shape.completed_turns ticks)
  /\ (forall e,
        Shape.loop_outcome ticks = Some e <->
        exists t later,
          ticks = Shape.completed_turns ticks ++ t :: later
          /\ Shape.turn_outcome t = Some e)
  /\ (Shape.loop_outcome ticks = None <-> Shape.completed_turns ticks = ticks).
Proof.
  split; [now rewrite collect_metrics_cases|].
  split.
  { rewrite !collect_metrics_cases. cbn [fst]. now rewrite completed_turns_idem. }
  split; [apply completed_turns_outcome|].
  split.
  - intros e. induction ticks as [|t ticks IH];
      cbn [Shape.loop_outcome Shape.completed_turns].
    + split; [discriminate|]. intros (t & later & H & _). now destruct later.
    + destruct (Shape.turn_outcome t) as [e'|] eqn:E.
      * split.
        -- intros [= ->]. exists t, ticks. now split.
        -- intros (t' & later & H & He). cbn [app] in H.
           injection H as <- _. congruence.
      * rewrite IH. split.
        -- intros (t' & later & H & He). exists t', later.
           split; [cbn [app]; now f_equal | exact He].
        -- intros (t' & later & H & He). exists t', later.
           split; [cbn [app] in H; now injection H | exact He].
  - induction ticks as [|t ticks IH];
      cbn [Shape.loop_outcome Shape.completed_turns]; [now split|].
    destruct (Shape.turn_outcome t) as [e'|] eqn:E.
    + split; discriminate.
    + rewrite IH. split; [now intros -> | now intros [= ->]].
Qed.

(** X9.  The store only grows, turn by turn: each table after the loop
    is the table before it followed by the rows of the completed turns,
    in the order of the turns, and the rows of a turn all carry the time
    stamp of that turn. *)
Theorem store_grows_in_turn_order (ticks : list tick) (st : store) :
  fst (collect_metrics ticks st)
  = mkStore (node_metrics_df st
             ++ flat_map Shape.turn_nodes (Shape.completed_turns ticks))
            (pod_metrics_df st
             ++ flat_map Shape.turn_pods (Shape.completed_turns ticks))
  /\ (forall t row, In row (Shape.turn_nodes t) -> node_timestamp row = now t)
  /\ (forall t row, In row (Shape.turn_pods t) -> timestamp row = now t)
  /\ (forall t,
        Shape.turn_outcome t = None ->
        fst (collect_metrics [t] st)
        = mkStore (node_metrics_df st ++ Shape.turn_nodes t)
                  (pod_metrics_df st ++ Shape.turn_pods t)).
Proof.
  split; [now rewrite collect_metrics_cases|].
  split; [|split].
  - intros t row. unfold Shape.turn_nodes.
    pose proof (node_line_rows_stamp (now t)
                  (Spec.data_lines (Shape.fetched (kube t TopNodes)))) as H.
    rewrite Forall_forall in H. apply H.
  - intros t row. unfold Shape.turn_pods.
    pose proof (pod_line_rows_stamp (kube t) (now t)
                  (Spec.data_lines (Shape.fetched (kube t TopPods)))) as H.
    rewrite Forall_forall in H. apply H.
  - intros t Ht. rewrite collect_metrics_cases.
    cbn [Shape.completed_turns flat_map fst]. rewrite Ht.
    cbn [flat_map]. now rewrite !app_nil_r.
Qed.

(** ** Requests the lookup cannot read *)

Section DecimalSuffix.

Import Str Spec.

Lemma contains_two_after_digits o i p ds c :
  all_digits ds = true -> isdigit o = false ->
  contains (String o (String i p)) (ds ++ String c "") = false.
Proof.
  intros Hd Ho. induction ds as [|x ds IH].
  - cbn. destruct (Ascii.eqb o c); reflexivity.
  - simpl in Hd. apply andb_true_iff in Hd as [Hx Hd].
    cbn [append contains startswith].
    rewrite Ascii.eqb_sym, (isdigit_neq x o Hx Ho). cbn [andb orb].
    now apply IH.
Qed.

Lemma int_digits_trailing ds c acc b :
  all_digits ds = true -> isdigit c = false ->
  int_digits (ds ++ String c "") acc b = Raise ValueError.
Proof.
  intros Hd Hc. revert acc b. induction ds as [|x ds IH]; intros acc b.
  - cbn [append int_digits]. rewrite Hc.
    destruct (Ascii.eqb c "_" && b); reflexivity.
  - simpl in Hd. apply andb_true_iff in Hd as [Hx Hd].
    cbn [append int_digits]. rewrite Hx. now apply IH.
Qed.

Lemma no_space_app a b : no_space (a ++ b) = no_space a && no_space b.
Proof.
  induction a as [|x a IH]; [reflexivity|].
  simpl. now rewrite IH, andb_assoc.
Qed.

Lemma is_token_digits_suffix ds suf :
  is_decimal ds = true -> no_space suf = true -> is_token (ds ++ suf) = true.
Proof.
  unfold is_decimal, is_token. intros H Hs.
  apply andb_true_iff in H as [Hn Hd].
  rewrite no_space_app, Hs, (all_digits_no_space ds Hd).
  destruct ds; [discriminate | reflexivity].
Qed.

(** [int] rejects digits followed by a character that is no digit. *)
Lemma int_trailing ds c :
  is_decimal ds = true -> isdigit c = false -> isspace c = false ->
  int (ds ++ String c "") = Raise ValueError.
Proof.
  intros Hdec Hc Hs.
  pose proof (is_decimal_all_digits ds Hdec) as Hd.
  unfold int. rewrite strip_no_space.
  - destruct ds as [|x ds]; [discriminate|].
    simpl in Hd. apply andb_true_iff in Hd as [Hx Hd].
    cbn [append].
    rewrite (isdigit_neq x "+" Hx eq_refl), (isdigit_neq x "-" Hx eq_refl).
    apply (int_digits_trailing (String x ds)); [|exact Hc].
    simpl. now rewrite Hx.
  - rewrite no_space_app, (all_digits_no_space ds Hd). simpl. now rewrite Hs.
Qed.

Lemma memory_request_value_trailing ds c :
  is_decimal ds = true -> isdigit c = false -> isspace c = false ->
  memory_request_value (ds ++ String c "") = Raise ValueError.
Proof.
  intros Hdec Hc Hs.
  pose proof (is_decimal_all_digits ds Hdec) as Hd.
  unfold memory_request_value.
  rewrite !contains_two_after_digits by (auto; reflexivity).
  now apply int_trailing.
Qed.

End DecimalSuffix.

(** X10.  The requested-memory lookup raises ValueError to its caller
    when the first token of the result is a number followed by one
    character that is no digit, as in ["128M"], ["1G"] or ["500k"]: only
    the failure of the command is caught. *)
Theorem lookup_raises_on_decimal_suffix (k : cluster) (ns pd out ds : string)
    (c : ascii) :
  k (GetMemoryRequest pd ns) = Exit0 out ->
  Spec.is_decimal ds = true ->
  Str.isdigit c = false -> Str.isspace c = false ->
  Spec.first_token out (ds ++ String c "") ->
  lookup_allocated_memory k ns pd = Raise ValueError.
Proof.
  intros E Hdec Hc Hs Hf.
  rewrite (lookup_allocated_memory_first k ns pd out _ E Hf).
  now rewrite memory_request_value_trailing.
Qed.

Lemma lookup_raises_on_decimal_suffix_witness :
  Shape.decimal_suffix_cluster (GetMemoryRequest "web-1" "default") = Exit0 "128M"
  /\ Spec.is_decimal "128" = true
  /\ Spec.first_token "128M" ("128" ++ "M")
  /\ lookup_allocated_memory Shape.decimal_suffix_cluster "default" "web-1"
     = Raise ValueError.
Proof.
  assert (Hf : Spec.first_token "128M" ("128" ++ "M"))
    by (split; [reflexivity | now left]).
  split; [reflexivity|]. split; [reflexivity|]. split; [exact Hf|].
  exact (lookup_raises_on_decimal_suffix Shape.decimal_suffix_cluster
           "default" "web-1" "128M" "128" "M" eq_refl eq_refl eq_refl eq_refl Hf).
Defined.

(** X11.  The report is all or nothing: when the lookup for the first
    sample of one image raises, the route returns the text of an
    exception and no record, for any image. *)
Theorem report_lost_when_a_lookup_raises (k : cluster) (table : list PodSample)
    (img : string) (first : PodSample) (rest : list PodSample) (e : exn) :
  select_image table img = first :: rest ->
  lookup_allocated_memory k (namespace first) (pod first) = Raise e ->
  exists e', get_report k table = Text e'.
Proof.
  intros Es Hl.
  assert (Hin : In first (select_image table img)) by (rewrite Es; now left).
  apply select_image_In in Hin as [Hin Hi].
  assert (Hne : table <> []) by (intros ->; contradiction).
  rewrite (get_report_loop k table Hne).
  destruct (for_each_raises (unique (map image table)) (report_image k table) [])
    as [e' ->]; [|eauto].
  apply Exists_exists. exists img. split.
  - apply unique_In, in_map_iff. eauto.
  - intros acc. eapply report_image_lookup_raises; eassumption.
Qed.

Lemma report_lost_when_a_lookup_raises_witness :
  lookup_allocated_memory Shape.decimal_suffix_cluster "default" "web-1"
  = Raise ValueError
  /\ exists e', get_report Shape.decimal_suffix_cluster Sample.nginx_table = Text e'.
Proof.
  assert (H : lookup_allocated_memory Shape.decimal_suffix_cluster "default" "web-1"
              = Raise ValueError) by (vm_compute; reflexivity).
  split; [exact H|].
  exact (report_lost_when_a_lookup_raises Shape.decimal_suffix_cluster
           Sample.nginx_table "nginx:1.0"
           (mkPodSample Sample.t0 "web-1" "default" 100 400 "nginx:1.0")
           _ ValueError eq_refl H).
Defined.

(** ** Edge cases of the recommendation *)

Section EdgePolicies.

Import Spec.

Lemma totals_of_zeros xs : Forall (eq 0) xs -> total xs = 0 /\ abs_total xs = 0.
Proof.
  induction 1 as [|x xs <- _ [IH1 IH2]]; [now split|].
  cbn [total abs_total]. rewrite IH1, IH2. now split.
Qed.

(** The mean of a column of zeros is not positive. *)
Lemma mean_zeros_not_positive xs :
  Forall (eq 0) xs -> Num.gt0 (Num.Float (Num.mean xs)) = false.
Proof.
  intros Hz. destruct (totals_of_zeros xs Hz) as [Ht Ha].
  unfold Num.mean. rewrite add_reduce_exact by (rewrite Ha; reflexivity).
  rewrite Ht. change (Num.float64 0) with (S754_zero false).
  destruct (SFltb _ _); [|reflexivity].
  now destruct (Num.float64 _) as [[]|[]| |[] m e].
Qed.

Lemma is_max_zeros m xs : is_max m xs -> Forall (eq 0) xs -> m = 0.
Proof.
  intros [Hi _] Hz. rewrite Forall_forall in Hz. symmetry. auto.
Qed.

(** A recommendation is 1 or a [float]. *)
Lemma recommendation_shape (c : bool) a rec :
  (if c then Num.truediv a (Num.Float Num.lit_0_9) else Ok (Num.Int 1)) = Ok rec ->
  rec = Num.Int 1 \/ exists x, rec = Num.Float x.
Proof.
  destruct c; [|intros [= <-]; now left].
  unfold Num.truediv. destruct (Num.to_float a); [|discriminate].
  cbn. intros [= <-]. eauto.
Qed.

(** Zero over a positive recommendation is zero. *)
Lemma zero_ratio rec q :
  rec = Num.Int 1 \/ (exists x, rec = Num.Float x) ->
  (if Num.gt0 rec then Num.truediv (Num.Int 0) rec else Ok (Num.Int 0)) = Ok q ->
  Shape.is_zero_num q = true.
Proof.
  intros [-> | [x ->]].
  - vm_compute. now intros [= <-].
  - destruct x as [s|[]| |[] m e]; vm_compute; intros [= <-]; reflexivity.
Qed.

End EdgePolicies.

(** X12.  An image whose samples all report 0 CPU gets the recommended
    CPU 1, an [int], and the CPU ratio 0. *)
Theorem idle_image_recommendation (k : cluster) (table : list PodSample)
    (report : list Recommendation) :
  get_report k table = Json report ->
  Forall (fun r =>
            Forall (eq 0) (map cpu_cores (select_image table (r_image r))) ->
            recommended_cpu r = Num.Int 1
            /\ cpu_over_provisioned r = Num.Float (S754_zero false))
         report.
Proof.
  intros H. apply report_records in H as [_ H].
  eapply Forall_impl; [|exact H].
  intros r [(Ha & Hc & _ & _ & _ & Hrc & _ & Hqc & _) _] Hz.
  rewrite <- Ha, (mean_zeros_not_positive _ Hz) in Hrc. injection Hrc as Hrc.
  rewrite <- Hrc in Hqc |- *. split; [reflexivity|].
  rewrite (is_max_zeros _ _ Hc Hz) in Hqc.
  assert (E : (if Num.gt0 (Num.Int 1)
               then Num.truediv (Num.Int 0) (Num.Int 1)
               else Ok (Num.Int 0)) = Ok (Num.Float (S754_zero false)))
    by (vm_compute; reflexivity).
  rewrite E in Hqc. now injection Hqc.
Qed.

Lemma idle_image_recommendation_witness :
  exists r,
    get_report Sample.unreachable
      [mkPodSample Sample.t0 "web-1" "default" 0 64 "nginx:1.0"] = Json [r]
    /\ recommended_cpu r = Num.Int 1
    /\ cpu_over_provisioned r = Num.Float (S754_zero false).
Proof.
  assert (H : exists r,
             get_report Sample.unreachable
               [mkPodSample Sample.t0 "web-1" "default" 0 64 "nginx:1.0"] = Json [r])
    by (eexists; vm_compute; reflexivity).
  destruct H as [r H]. exists r. split; [exact H|].
  pose proof (idle_image_recommendation _ _ _ H) as HF.
  inversion_clear HF as [|? ? Hr _]. apply Hr.
  assert (Hi : r_image r = "nginx:1.0")
    by (vm_compute in H; now injection H as <-).
  rewrite Hi. repeat constructor.
Defined.

(** X13.  When no memory request is found for an image (the lookup
    gives 0: the command failed, or printed nothing), the memory ratio of
    its record is zero. *)
Theorem no_request_gives_zero_ratio (k : cluster) (table : list PodSample)
    (report : list Recommendation) :
  get_report k table = Json report ->
  Forall (fun r =>
            requested_memory r = 0 ->
            Shape.is_zero_num (memory_over_provisioned r) = true)
         report.
Proof.
  intros H. apply report_records in H as [_ H].
  eapply Forall_impl; [|exact H].
  intros r [(_ & _ & _ & _ & _ & _ & Hrm & _ & Hqm) _] Hz.
  rewrite Hz in Hqm.
  eapply zero_ratio; [|exact Hqm].
  eapply recommendation_shape; exact Hrm.
Qed.

Lemma no_request_gives_zero_ratio_witness :
  exists r,
    get_report Sample.unreachable Sample.nginx_table = Json [r]
    /\ requested_memory r = 0
    /\ Shape.is_zero_num (memory_over_provisioned r) = true.
Proof.
  assert (H : exists r,
             get_report Sample.unreachable Sample.nginx_table = Json [r])
    by (eexists; vm_compute; reflexivity).
  destruct H as [r H]. exists r. split; [exact H|].
  assert (Hz : requested_memory r = 0)
    by (vm_compute in H; now injection H as <-).
  split; [exact Hz|].
  pose proof (no_request_gives_zero_ratio _ _ _ H) as HF.
  inversion_clear HF as [|? ? Hr _]. exact (Hr Hz).
Defined.

(** ** The columns of a row *)

Section Columns.

Import Str Spec.

Lemma re_split_gap_run g s :
  Shape.all_space g = true ->
  re_split_ws_from (g ++ s) true = re_split_ws_from s true.
Proof.
  induction g as [|x g IH]; [reflexivity|].
  simpl. intros H. apply andb_true_iff in H as [Hx H].
  now rewrite Hx, IH.
Qed.

Lemma re_split_gap g s :
  Shape.is_gap g = true ->
  re_split_ws_from (g ++ s) false = "" :: re_split_ws_from s true.
Proof.
  unfold Shape.is_gap. destruct g as [|x g]; [discriminate|].
  simpl. intros H. apply andb_true_iff in H as [Hx H].
  now rewrite Hx, re_split_gap_run.
Qed.

(** A column and the white space after it. *)
Lemma re_split_column t g s b :
  is_token t = true -> Shape.is_gap g = true ->
  re_split_ws_from (t ++ g ++ s) b = t :: re_split_ws_from s true.
Proof.
  intros Ht Hg. rewrite re_split_token by exact Ht.
  rewrite re_split_gap by exact Hg. now rewrite append_nil_r.
Qed.

Lemma re_split_last_column t b :
  is_token t = true -> re_split_ws_from t b = [t].
Proof.
  intros Ht. rewrite <- (append_nil_r t) at 1.
  rewrite re_split_token by exact Ht. cbn. now rewrite append_nil_r.
Qed.

Lemma re_split_padded_column t g b :
  is_token t = true -> Shape.is_gap g = true ->
  re_split_ws_from (t ++ g) b = [t; ""].
Proof.
  intros Ht Hg. rewrite <- (append_nil_r g).
  now rewrite re_split_column.
Qed.

Lemma node_memory_percent dp :
  is_decimal dp = true -> node_memory (dp ++ "%") = Ok (decimal_value dp).
Proof.
  intros Hdec. unfold node_memory. token_eval. now apply int_decimal.
Qed.

End Columns.

(** X14.  A row of the pod usage text with exactly four columns is not
    submitted, although only four columns are read: the pod path asks for
    a fifth part, which white space after the fourth column provides. *)
Theorem pod_row_needs_a_fifth_part (k : cluster) (ts : Num.float)
    (ns g1 pd g2 cpu g3 mem : string) (futures : list (result (option PodSample))) :
  Spec.is_token ns = true -> Spec.is_token pd = true ->
  Spec.is_token cpu = true -> Spec.is_token mem = true ->
  Shape.is_gap g1 = true -> Shape.is_gap g2 = true -> Shape.is_gap g3 = true ->
  submit_pod_line k ts (ns ++ g1 ++ pd ++ g2 ++ cpu ++ g3 ++ mem) futures
  = Ok futures
  /\ (forall g4,
        Shape.is_gap g4 = true ->
        submit_pod_line k ts (ns ++ g1 ++ pd ++ g2 ++ cpu ++ g3 ++ mem ++ g4) futures
        = Ok (futures ++ [process_pod_metrics k ts ns pd cpu mem])).
Proof.
  intros Hns Hpd Hcpu Hmem H1 H2 H3. unfold submit_pod_line, Str.re_split_ws.
  rewrite !re_split_column by assumption. split.
  - now rewrite re_split_last_column.
  - intros g4 H4. rewrite !re_split_column by assumption.
    now rewrite re_split_padded_column.
Qed.

Lemma pod_row_needs_a_fifth_part_witness :
  submit_pod_line Sample.nginx_cluster Sample.t0 "default web-1 250m 64Mi" [] = Ok []
  /\ submit_pod_line Sample.nginx_cluster Sample.t0 "default web-1 250m 64Mi   " []
     = Ok [process_pod_metrics Sample.nginx_cluster Sample.t0
             "default" "web-1" "250m" "64Mi"].
Proof.
  destruct (pod_row_needs_a_fifth_part Sample.nginx_cluster Sample.t0
              "default" " " "web-1" " " "250m" " " "64Mi" []
              eq_refl eq_refl eq_refl eq_refl eq_refl eq_refl eq_refl) as [H4 H5].
  split; [exact H4 | exact (H5 "   " eq_refl)].
Defined.

(** X15.  In a row of the node usage text the value stored as memory is
    the third column.  For a row as [kubectl top nodes] prints it, with
    the CPU in millicores and then the CPU percentage, the number of the
    percentage is stored as the memory, whatever the columns after it
    hold. *)
Theorem node_row_stores_third_column (ts : Num.float)
    (name g1 dc g2 dp g3 rest : string) (acc : list NodeSample) :
  Spec.is_token name = true ->
  Spec.is_decimal dc = true -> Spec.is_decimal dp = true ->
  Shape.is_gap g1 = true -> Shape.is_gap g2 = true -> Shape.is_gap g3 = true ->
  parse_node_line ts
    (name ++ g1 ++ (dc ++ "m") ++ g2 ++ (dp ++ "%") ++ g3 ++ rest) acc
  = Ok (acc ++ [mkNodeSample ts name (Spec.decimal_value dc) (Spec.decimal_value dp)]).
Proof.
  intros Hn Hc Hp H1 H2 H3. unfold parse_node_line, Str.re_split_ws.
  rewrite (re_split_column name g1) by assumption.
  rewrite (re_split_column (dc ++ "m") g2)
    by (try assumption; now apply is_token_digits_suffix).
  rewrite (re_split_column (dp ++ "%") g3)
    by (try assumption; now apply is_token_digits_suffix).
  now rewrite (node_cpu_m dc Hc), (node_memory_percent dp Hp).
Qed.

Lemma node_row_stores_third_column_witness :
  parse_node_line Sample.t0 "node1   250m   12%   1024Mi   50%" []
  = Ok [mkNodeSample Sample.t0 "node1" 250 12].
Proof.
  exact (node_row_stores_third_column Sample.t0
           "node1" "   " "250" "   " "12" "   " "1024Mi   50%" []
           eq_refl eq_refl eq_refl eq_refl eq_refl eq_refl).
Defined.

(** ** The last row of the pod usage text *)

Section LastRow.

Import Str Spec.

Lemma rstrip_keep a b : rstrip b <> "" -> rstrip (a ++ b) = (a ++ rstrip b)%string.
Proof.
  intros Hb. induction a as [|x a IH]; [reflexivity|].
  cbn [append rstrip]. rewrite IH.
  destruct (a ++ rstrip b)%string eqn:E; [|reflexivity].
  destruct a; [simpl in E; contradiction | discriminate].
Qed.

Lemma rstrip_all_space s : Shape.all_space s = true -> rstrip s = "".
Proof.
  induction s as [|x s IH]; [reflexivity|].
  simpl. intros H. apply andb_true_iff in H as [Hx H].
  now rewrite (IH H), Hx.
Qed.

Lemma rstrip_token_pad t pad :
  is_token t = true -> Shape.all_space pad = true ->
  rstrip (t ++ pad) = t /\ rstrip (t ++ pad) <> "".
Proof.
  unfold is_token. intros Ht Hp. apply andb_true_iff in Ht as [Hn Hs].
  rewrite rstrip_app by exact Hs.
  rewrite rstrip_all_space by exact Hp. rewrite append_nil_r.
  split; [reflexivity|]. now destruct t.
Qed.

(** What ends in a column and some padding loses the padding only. *)
Lemma rstrip_prefix a b pad :
  rstrip (b ++ pad) = b /\ b <> "" ->
  rstrip ((a ++ b) ++ pad) = (a ++ b)%string /\ (a ++ b)%string <> "".
Proof.
  intros [Hr Hn]. split.
  - rewrite append_assoc, rstrip_keep; rewrite Hr; [reflexivity | exact Hn].
  - destruct a; [exact Hn | discriminate].
Qed.

Lemma split_on_nonempty sep s : split_on sep s <> [].
Proof.
  destruct s as [|x s]; [discriminate|].
  cbn [split_on]. destruct (Ascii.eqb x sep); [discriminate|].
  destruct (split_on sep s); discriminate.
Qed.

Lemma split_on_app sep a b :
  split_on sep (a ++ String sep b) = split_on sep a ++ split_on sep b.
Proof.
  induction a as [|x a IH].
  - cbn [append split_on app]. now rewrite Ascii.eqb_refl.
  - cbn [append split_on]. rewrite IH.
    destruct (Ascii.eqb x sep); [reflexivity|].
    pose proof (split_on_nonempty sep a) as Hn.
    destruct (split_on sep a); [contradiction | reflexivity].
Qed.

Lemma no_space_absent c t :
  isspace c = true -> no_space t = true -> absent c t = true.
Proof.
  intros Hc. induction t as [|x t IH]; [reflexivity|].
  simpl. intros H. apply andb_true_iff in H as [Hx H].
  rewrite (IH H), andb_true_r. apply negb_true_iff.
  destruct (Ascii.eqb_spec x c) as [->|]; [|reflexivity].
  rewrite Hc in Hx. discriminate.
Qed.

Lemma is_token_absent_LF t : is_token t = true -> absent LF t = true.
Proof.
  unfold is_token. intros H. apply andb_true_iff in H as [_ H].
  now apply no_space_absent.
Qed.

Variable k : cluster.
Variable ts : Num.float.

Lemma four_columns_facts line pad :
  Shape.four_columns line -> Shape.all_space pad = true ->
  absent LF line = true
  /\ rstrip (line ++ pad) = line
  /\ line <> ""
  /\ Spec.pod_line_rows k ts line = [].
Proof.
  intros (ns & g1 & pd & g2 & cpu & g3 & mem
          & (Hns & Hpd & Hcpu & Hmem) & (H1 & H2 & H3) & (A1 & A2 & A3) & ->) Hpad.
  assert (Hm : rstrip (mem ++ pad) = mem /\ mem <> "").
  { destruct (rstrip_token_pad mem pad Hmem Hpad) as [Hr Hne].
    split; [exact Hr | now rewrite Hr in Hne]. }
  pose proof (rstrip_prefix g3 _ pad Hm) as H6.
  pose proof (rstrip_prefix cpu _ pad H6) as H5.
  pose proof (rstrip_prefix g2 _ pad H5) as H4.
  pose proof (rstrip_prefix pd _ pad H4) as H3'.
  pose proof (rstrip_prefix g1 _ pad H3') as H2'.
  pose proof (rstrip_prefix ns _ pad H2') as [Hr Hne].
  split; [|split; [exact Hr | split; [exact Hne|]]].
  - rewrite !absent_app, A1, A2, A3.
    now rewrite !is_token_absent_LF by assumption.
  - unfold pod_line_rows, re_split_ws.
    rewrite !re_split_column by assumption.
    now rewrite re_split_last_column.
Qed.

End LastRow.

Lemma data_lines_last_row c head line pad :
  Str.isspace c = false ->
  Spec.absent Str.LF line = true -> Str.rstrip (line ++ pad) = line -> line <> "" ->
  Spec.data_lines (String c head ++ String Str.LF (line ++ pad))
  = tl (Str.split_on Str.LF (String c head)) ++ [line].
Proof.
  intros Hc Ha Hr Hn. unfold Spec.data_lines, Str.strip.
  cbn [append Str.lstrip]. rewrite Hc.
  change (String c (head ++ String Str.LF (line ++ pad)))
    with (String c head ++ String Str.LF (line ++ pad))%string.
  replace (String c head ++ String Str.LF (line ++ pad))%string
    with ((String c head ++ String Str.LF "") ++ (line ++ pad))%string
    by (now rewrite append_assoc).
  rewrite rstrip_keep by (rewrite Hr; exact Hn).
  rewrite Hr, append_assoc. cbn [append].
  change (String c (head ++ String Str.LF line))
    with (String c head ++ String Str.LF line)%string.
  rewrite split_on_app, (split_on_absent Str.LF line Ha).
  pose proof (split_on_nonempty Str.LF (String c head)) as Hs.
  destruct (Str.split_on Str.LF (String c head)); [contradiction | reflexivity].
Qed.

(** X16.  The last row of a pod usage text is not stored.  For a text
    that ends in a row of four columns, followed or not by padding and a
    final line feed, the rows appended are those of the lines before it:
    they are the same whatever the last row says. *)
Theorem last_pod_row_not_stored (k : cluster) (ts : Num.float) (df : list PodSample)
    (c : ascii) (head : string) :
  Str.isspace c = false ->
  exists rows,
    forall line pad,
      Shape.four_columns line -> Shape.all_space pad = true ->
      parse_pod_metrics k (String c head ++ String Str.LF (line ++ pad)) ts df
      = Ok (df ++ rows).
Proof.
  intros Hc.
  exists (flat_map (Spec.pod_line_rows k ts) (tl (Str.split_on Str.LF (String c head)))).
  intros line pad Hl Hp.
  destruct (four_columns_facts k ts line pad Hl Hp) as (Ha & Hr & Hn & Hrows).
  rewrite parse_pod_metrics_rows, (data_lines_last_row c head line pad Hc Ha Hr Hn).
  rewrite flat_map_app. cbn [flat_map]. now rewrite Hrows, !app_nil_r.
Qed.

Lemma last_pod_row_not_stored_witness :
  Shape.four_columns "default web-3 100m 32Mi"
  /\ Shape.four_columns "kube-system dns-1 abc 1Gi"
  /\ exists rows,
       parse_pod_metrics Sample.nginx_cluster
         (String "N" "AMESPACE NAME CPU(cores) MEMORY(bytes)   " ++
          String Str.LF ("default web-3 100m 32Mi" ++ "   "))
         Sample.t0 [] = Ok ([] ++ rows)
       /\ parse_pod_metrics Sample.nginx_cluster
            (String "N" "AMESPACE NAME CPU(cores) MEMORY(bytes)   " ++
             String Str.LF ("kube-system dns-1 abc 1Gi" ++ ""))
            Sample.t0 [] = Ok ([] ++ rows).
Proof.
  assert (H4 : Shape.four_columns "default web-3 100m 32Mi").
  { exists "default", " ", "web-3", " ", "100m", " ", "32Mi".
    repeat split; reflexivity. }
  assert (H4' : Shape.four_columns "kube-system dns-1 abc 1Gi").
  { exists "kube-system", " ", "dns-1", " ", "abc", " ", "1Gi".
    repeat split; reflexivity. }
  split; [exact H4|]. split; [exact H4'|].
  destruct (last_pod_row_not_stored Sample.nginx_cluster Sample.t0 [] "N"
              "AMESPACE NAME CPU(cores) MEMORY(bytes)   " eq_refl) as [rows Hrows].
  exists rows. split.
  - exact (Hrows "default web-3 100m 32Mi" "   " H4 eq_refl).
  - exact (Hrows "kube-system dns-1 abc 1Gi" "" H4' eq_refl).
Defined.

(** ** The groups of the report *)

Section Groups.

Lemma unique_from_app seen xs ys :
  exists later, unique_from seen (xs ++ ys) = unique_from seen xs ++ later.
Proof.
  revert seen. induction xs as [|x xs IH]; intros seen.
  - exists (unique_from seen ys). reflexivity.
  - cbn [app unique_from]. destruct (existsb (String.eqb x) seen).
    + apply IH.
    + destruct (IH (x :: seen)) as [later ->]. exists later. reflexivity.
Qed.

Lemma report_images k table report :
  get_report k table = Json report ->
  map r_image report = unique (map image table).
Proof.
  destruct table as [|row table].
  - cbn. now intros [= <-].
  - rewrite get_report_loop by discriminate.
    destruct (for_each _ _ _) as [rs|e] eqn:E; [|discriminate].
    intros [= <-]. now apply report_loop in E as (rs' & -> & Hm & _).
Qed.

Variable table : list PodSample.

Lemma filter_disjoint_app {A : Type} (f g : A -> bool) (l : list A) :
  (forall a, In a l -> f a = true -> g a = false) ->
  Permutation (filter f l ++ filter g l) (filter (fun a => f a || g a) l).
Proof.
  induction l as [|a l IH]; intros H; [constructor|].
  assert (IH' : Permutation (filter f l ++ filter g l)
                            (filter (fun a => f a || g a) l))
    by (apply IH; intros b Hb; apply H; now right).
  cbn [filter]. destruct (f a) eqn:Ef.
  - rewrite (H a (or_introl eq_refl) Ef). cbn [orb app]. now constructor.
  - cbn [orb]. destruct (g a); [|exact IH'].
    apply Permutation_sym, Permutation_cons_app, Permutation_sym, IH'.
Qed.

Lemma groups_filter imgs :
  NoDup imgs ->
  Permutation (flat_map (select_image table) imgs)
              (filter (fun row => existsb (String.eqb (image row)) imgs) table).
Proof.
  induction 1 as [|img imgs Hn _ IH].
  - cbn. induction table as [|row l IHl]; [constructor | exact IHl].
  - cbn [flat_map existsb].
    eapply Permutation_trans; [apply Permutation_app_head, IH|].
    unfold select_image. apply filter_disjoint_app.
    intros row _ Hi. apply String.eqb_eq in Hi.
    destruct (existsb _ imgs) eqn:E; [|reflexivity].
    apply existsb_eqb_In in E. congruence.
Qed.

End Groups.

(** X17.  The groups of the report partition the table: taken over the
    images of the report, the samples selected for each image are the
    samples of the table, each one once. *)
Theorem report_groups_partition_table (table : list PodSample) :
  Permutation (flat_map (select_image table) (unique (map image table))) table.
Proof.
  eapply Permutation_trans; [apply groups_filter, unique_NoDup|].
  rewrite filter_all; [reflexivity|].
  intros row Hr. apply existsb_eqb_In, unique_In, in_map, Hr.
Qed.

(** X18.  Rows appended to the table do not reorder the report: the
    images of the report of a table come first, in the same order, in
    the report of the table with more rows. *)
Theorem report_order_is_stable (k k' : cluster) (table more : list PodSample)
    (report report' : list Recommendation) :
  get_report k table = Json report ->
  get_report k' (table ++ more) = Json report' ->
  exists later, map r_image report' = map r_image report ++ later.
Proof.
  intros H H'. apply report_images in H, H'.
  rewrite H, H', map_app. apply unique_from_app.
Qed.

Lemma report_order_is_stable_witness :
  exists report report' later,
    get_report Sample.nginx_cluster Sample.nginx_table = Json report
    /\ get_report Sample.nginx_cluster
         (Sample.nginx_table
          ++ [mkPodSample Sample.t0 "db-1" "default" 5 64 "redis:7"]) = Json report'
    /\ map r_image report' = map r_image report ++ later.
Proof.
  assert (H : exists report,
             get_report Sample.nginx_cluster Sample.nginx_table = Json report)
    by (eexists; vm_compute; reflexivity).
  assert (H' : exists report',
             get_report Sample.nginx_cluster
               (Sample.nginx_table
                ++ [mkPodSample Sample.t0 "db-1" "default" 5 64 "redis:7"])
             = Json report')
    by (eexists; vm_compute; reflexivity).
  destruct H as [report H]. destruct H' as [report' H'].
  destruct (report_order_is_stable _ _ _ _ _ _ H H') as [later Hl].
  exists report, report', later. auto.
Defined.

(** ** The node part of the summary *)

Section NodeSummaries.

Lemma min_of_le x xs : Num.min_of x xs <= x /\ Forall (fun y => Num.min_of x xs <= y) xs.
Proof.
  unfold Num.min_of. revert x. induction xs as [|y xs IH]; intros x; simpl.
  - split; [lia | constructor].
  - destruct (IH (Z.min x y)) as [H1 H2]. split; [lia|].
    constructor; [lia | exact H2].
Qed.

Lemma min_of_In x xs : In (Num.min_of x xs) (x :: xs).
Proof.
  unfold Num.min_of. revert x. induction xs as [|y xs IH]; intros x; simpl.
  - now left.
  - destruct (IH (Z.min x y)) as [H | H].
    + rewrite <- H. destruct (Z.min_spec x y) as [[_ E] | [_ E]];
        [left | right; left]; lia.
    + auto.
Qed.

Lemma min_of_is_min x xs : Shape.is_min (Num.min_of x xs) (x :: xs).
Proof.
  split; [apply min_of_In|].
  destruct (min_of_le x xs). now constructor.
Qed.

(** The samples the summary selects for a node are the samples of that
    node. *)
Lemma select_node_samples_of table n :
  select_node table n = Shape.samples_of_node n table.
Proof.
  unfold select_node. induction table as [|row table IH]; [reflexivity|].
  cbn [filter Shape.samples_of_node].
  destruct (string_dec (node row) n) as [E|E].
  - apply String.eqb_eq in E. rewrite E. now rewrite IH.
  - apply String.eqb_neq in E. now rewrite E.
Qed.

End NodeSummaries.

Section NodeSummaryLoop.

Variable table : list NodeSample.

Lemma summarize_node_entry n acc acc' :
  summarize_node table n acc = Ok acc' ->
  exists s,
    acc' = acc ++ [s] /\ s_node s = n
    /\ Shape.node_extremes table s
    /\ select_node table n <> []
    /\ cpu_avg s = Num.mean (map node_cpu_cores (select_node table n))
    /\ mem_avg s = Num.mean (map node_memory_bytes (select_node table n)).
Proof.
  unfold summarize_node. intros H.
  destruct (select_node table n) as [|first rest] eqn:Es; [discriminate|].
  injection H as <-.
  eexists. split; [reflexivity|]. split; [reflexivity|].
  unfold Shape.node_extremes. cbn [s_node cpu_min cpu_max cpu_avg mem_min mem_max mem_avg].
  rewrite <- select_node_samples_of, Es.
  split; [|split; [discriminate | split; reflexivity]].
  refine (conj _ (conj _ (conj _ _)));
    first [ apply (min_of_is_min _ (map _ rest))
          | apply (max_of_is_max _ (map _ rest)) ].
Qed.

Lemma node_summary_loop ns acc printed :
  for_each ns (summarize_node table) acc = Ok printed ->
  exists ss,
    printed = acc ++ ss /\ map s_node ss = ns
    /\ Forall (fun s =>
                 Shape.node_extremes table s
                 /\ select_node table (s_node s) <> []
                 /\ cpu_avg s = Num.mean (map node_cpu_cores (select_node table (s_node s)))
                 /\ mem_avg s
                    = Num.mean (map node_memory_bytes (select_node table (s_node s))))
              ss.
Proof.
  revert acc. induction ns as [|n ns IH]; intros acc H.
  - injection H as <-. exists []. now rewrite app_nil_r.
  - cbn [for_each] in H. bind_ok H.
    apply summarize_node_entry in E as (s & -> & Hi & Hf).
    apply IH in H as (ss & -> & Hm & HF).
    exists (s :: ss). rewrite <- app_assoc. split; [reflexivity|].
    split; [simpl; congruence|]. constructor; [|exact HF]. now rewrite Hi.
Qed.

(** On a moderate node table the means the summary prints are those of
    the specification. *)
Lemma node_means_exact s :
  Shape.moderate_nodes table ->
  select_node table (s_node s) <> [] ->
  cpu_avg s = Num.mean (map node_cpu_cores (select_node table (s_node s))) ->
  mem_avg s = Num.mean (map node_memory_bytes (select_node table (s_node s))) ->
  Shape.node_means table s.
Proof.
  intros (Hn & Hc & Hm) Hne Ec Em. unfold Shape.node_means.
  rewrite <- select_node_samples_of.
  assert (Hl : Z.of_nat (List.length (select_node table (s_node s))) < 2 ^ 53).
  { pose proof (filter_length_le (fun row => String.eqb (node row) (s_node s)) table).
    unfold select_node. lia. }
  assert (Mean : forall f : NodeSample -> Z,
             Spec.abs_total (map f table) < 2 ^ 53 ->
             Num.mean (map f (select_node table (s_node s)))
             = Spec.mean (map f (select_node table (s_node s)))).
  { intros f Hf. apply mean_exact.
    - intros E. apply map_eq_nil in E. contradiction.
    - now rewrite length_map.
    - eapply Z.le_lt_trans; [apply abs_total_filter | exact Hf]. }
  rewrite Ec, Em. split; apply Mean; assumption.
Qed.

End NodeSummaryLoop.

Lemma summarize_metrics_nodes k st nodes images :
  summarize_metrics k st = Ok (Some (nodes, images)) ->
  match node_metrics_df st with
  | [] => nodes = []
  | _ => for_each (unique (map node (node_metrics_df st)))
                  (summarize_node (node_metrics_df st)) [] = Ok nodes
  end.
Proof.
  unfold summarize_metrics. intros H.
  destruct (node_metrics_df st) as [|n ns]; destruct (pod_metrics_df st) as [|p ps];
    cbv beta iota in H; try discriminate.
  - cbn [bind] in H.
    destruct (for_each _ _ _) as [ss|e]; [|discriminate].
    now inversion H.
  - destruct (for_each _ _ _) as [ns'|e]; [|discriminate].
    cbn [bind] in H. now inversion H.
  - destruct (for_each _ (summarize_node _) _) as [ns'|e]; [|discriminate].
    cbn [bind] in H.
    destruct (for_each _ _ _) as [ss|e]; [|discriminate].
    now inversion H.
Qed.

(** X19.  The summary has one entry for each distinct node, in the order
    in which the nodes first appear in the node table.  The entry of a
    node gives the least and the greatest CPU and memory among the
    samples of that node, so the minimum is never above the maximum; on
    a moderate table it gives the mean of each as well. *)
Theorem summary_of_nodes (k : cluster) (st : store)
    (nodes : list NodeSummary) (images : list ImageSummary) :
  summarize_metrics k st = Ok (Some (nodes, images)) ->
  map s_node nodes = Spec.distinct (map node (node_metrics_df st))
  /\ Forall (fun s =>
               Shape.node_extremes (node_metrics_df st) s
               /\ cpu_min s <= cpu_max s /\ mem_min s <= mem_max s)
            nodes
  /\ (Shape.moderate_nodes (node_metrics_df st) ->
      Forall (Shape.node_means (node_metrics_df st)) nodes).
Proof.
  intros H. apply summarize_metrics_nodes in H.
  destruct (node_metrics_df st) as [|n ns] eqn:Et.
  - subst nodes. split; [reflexivity|]. split; [constructor|]. constructor.
  - rewrite <- Et in *.
    apply node_summary_loop in H as (ss & -> & Hm & HF). cbn [app].
    split; [now rewrite <- unique_distinct|]. split.
    + eapply Forall_impl; [|exact HF].
      intros s (Hs & _). split; [exact Hs|].
      destruct Hs as ([Hi _] & [_ Ha] & [Hj _] & [_ Hb]).
      rewrite Forall_forall in Ha, Hb. auto.
    + intros Hmod. eapply Forall_impl; [|exact HF].
      intros s (_ & Hne & Ec & Em). now apply node_means_exact.
Qed.

Lemma summary_of_nodes_witness :
  summarize_metrics Sample.unreachable (mkStore Shape.node_table [])
  = Ok (Some (Shape.node_table_summary, []))
  /\ Shape.moderate_nodes Shape.node_table
  /\ map s_node Shape.node_table_summary = ["node1"; "node2"]
  /\ Forall (fun s => cpu_min s <= cpu_max s /\ mem_min s <= mem_max s)
            Shape.node_table_summary
  /\ Forall (Shape.node_means Shape.node_table) Shape.node_table_summary.
Proof.
  assert (H : summarize_metrics Sample.unreachable (mkStore Shape.node_table [])
              = Ok (Some (Shape.node_table_summary, [])))
    by (vm_compute; reflexivity).
  assert (Hmod : Shape.moderate_nodes Shape.node_table) by (repeat split).
  split; [exact H|]. split; [exact Hmod|].
  destruct (summary_of_nodes _ _ _ _ H) as (Hm & HF & HM).
  split; [exact Hm|]. split.
  - eapply Forall_impl; [|exact HF]. now intros s [_ ?].
  - exact (HM Hmod).
Defined.

(** ** Lookups in the summary *)

Section SummaryFailure.

Variable k : cluster.
Variable table : list PodSample.

Lemma max_of_positive x xs y : In y (x :: xs) -> 0 < y -> 0 < Num.max_of x xs.
Proof.
  intros Hy Hp. destruct (max_of_ge x xs) as [Hx Hf].
  rewrite Forall_forall in Hf.
  destruct Hy as [<- | Hy]; [lia|]. specialize (Hf y Hy). lia.
Qed.

Lemma summarize_image_lookup_raises img first rest row e acc :
  select_image table img = first :: rest ->
  In row (first :: rest) -> 0 < memory_bytes row ->
  lookup_allocated_memory k (namespace first) (pod first) = Raise e ->
  exists e', summarize_image k table img acc = Raise e'.
Proof.
  intros Es Hr Hp Hl. unfold summarize_image. rewrite Es.
  match goal with
  | |- context [bind ?m _] => destruct m; cbn [bind]; [|eauto]
  end.
  assert (Hm : (0 <? Num.max_of (memory_bytes first) (map memory_bytes rest)) = true).
  { apply Z.ltb_lt.
    apply (max_of_positive _ _ (memory_bytes row)); [|exact Hp].
    change (In (memory_bytes row) (map memory_bytes (first :: rest))).
    now apply in_map. }
  rewrite Hm, Hl. cbn [bind]. eauto.
Qed.

End SummaryFailure.

(** X20.  The shutdown summary lets the exception of a lookup through:
    when the lookup for the first sample of an image raises and a sample
    of that image has used memory, [summarize_metrics] raises. *)
Theorem summary_raises_when_a_lookup_raises (k : cluster) (st : store)
    (img : string) (first row : PodSample) (rest : list PodSample) (e : exn) :
  select_image (pod_metrics_df st) img = first :: rest ->
  In row (first :: rest) -> 0 < memory_bytes row ->
  lookup_allocated_memory k (namespace first) (pod first) = Raise e ->
  exists e', summarize_metrics k st = Raise e'.
Proof.
  intros Es Hr Hp Hl.
  assert (Hin : In first (select_image (pod_metrics_df st) img))
    by (rewrite Es; now left).
  apply select_image_In in Hin as [Hin Hi].
  destruct (for_each_raises (unique (map image (pod_metrics_df st)))
              (summarize_image k (pod_metrics_df st)) []) as [e' He'].
  { apply Exists_exists. exists img. split.
    - apply unique_In, in_map_iff. eauto.
    - intros acc. eapply summarize_image_lookup_raises; eassumption. }
  unfold summarize_metrics.
  destruct (pod_metrics_df st) as [|p ps] eqn:Et; [contradiction|].
  rewrite He'.
  destruct (node_metrics_df st) as [|n ns]; cbn [bind]; [eauto|].
  destruct (for_each _ (summarize_node _) _); cbn [bind]; eauto.
Qed.

Lemma summary_raises_when_a_lookup_raises_witness :
  lookup_allocated_memory Shape.decimal_suffix_cluster "default" "web-1"
  = Raise ValueError
  /\ exists e',
       summarize_metrics Shape.decimal_suffix_cluster (mkStore [] Sample.nginx_table)
       = Raise e'.
Proof.
  assert (H : lookup_allocated_memory Shape.decimal_suffix_cluster "default" "web-1"
              = Raise ValueError) by (vm_compute; reflexivity).
  split; [exact H|].
  apply (summary_raises_when_a_lookup_raises Shape.decimal_suffix_cluster
           (mkStore [] Sample.nginx_table) "nginx:1.0"
           (mkPodSample Sample.t0 "web-1" "default" 100 400 "nginx:1.0")
           (mkPodSample Sample.t0 "web-1" "default" 100 400 "nginx:1.0")
           _ ValueError eq_refl).
  - now left.
  - reflexivity.
  - exact H.
Defined.

(** X21.  A memory request printed as a plain number, which the cluster
    means in bytes, is returned by the lookup as that number, unchanged,
    and so counts as that many mebibytes. *)
Theorem lookup_returns_plain_number_unchanged (k : cluster) (ns pd out ds : string) :
  k (GetMemoryRequest pd ns) = Exit0 out ->
  Spec.is_decimal ds = true ->
  Spec.first_token out ds ->
  lookup_allocated_memory k ns pd = Ok (Spec.decimal_value ds).
Proof.
  intros E Hdec Hf.
  rewrite (lookup_allocated_memory_first k ns pd out ds E Hf).
  unfold Spec.memory_request_value. token_eval.
  now rewrite int_decimal.
Qed.

Lemma lookup_returns_plain_number_unchanged_witness :
  Spec.first_token "134217728" "134217728"
  /\ lookup_allocated_memory (fun _ => Exit0 "134217728") "default" "web-1"
     = Ok 134217728.
Proof.
  assert (Hf : Spec.first_token "134217728" "134217728")
    by (split; [reflexivity | now left]).
  split; [exact Hf|].
  exact (lookup_returns_plain_number_unchanged (fun _ => Exit0 "134217728")
           "default" "web-1" "134217728" "134217728" eq_refl eq_refl Hf).
Defined.

(** ** Pods whose image cannot be looked up *)

(** X22.  A pod whose image cannot be looked up is sampled all the same:
    when the image query fails and the two quantities of the row are
    read, the row is stored with the image ["unknown"]. *)
Theorem pod_with_failed_image_lookup_is_kept (k : cluster) (ts : Num.float)
    (ns pd cpu memory : string) (c m : Z) :
  k (GetImage pd ns) = ExitNonZero ->
  pod_cpu cpu = Ok c -> pod_memory memory = Ok m ->
  process_pod_metrics k ts ns pd cpu memory
  = Ok (Some (mkPodSample ts pd ns c m "unknown")).
Proof.
  intros E Hc Hm. unfold process_pod_metrics.
  now rewrite Hc, Hm, (lookup_pod_image_failed k ns pd E).
Qed.

Lemma pod_with_failed_image_lookup_is_kept_witness :
  process_pod_metrics Sample.unreachable Sample.t0 "default" "web-1" "250m" "64Mi"
  = Ok (Some (mkPodSample Sample.t0 "web-1" "default" 250 64 "unknown")).
Proof.
  exact (pod_with_failed_image_lookup_is_kept Sample.unreachable Sample.t0
           "default" "web-1" "250m" "64Mi" 250 64 eq_refl eq_refl eq_refl).
Defined.
